(** * react-lit focus-scope: a shallow embedding of [src/index.js]

    The development follows the source file from top to bottom: the host
    document the hooks run against, the selector constants, the tree walker
    built by [getFocusableTreeWalker], the visibility predicate, and the three
    hooks [useFocusContainment], [useRestoreFocus] and [useAutoFocus].

    The browser is not part of the repository.  It appears here as a small
    model of the DOM interfaces the source calls: a tree of nodes with
    identities, [contains], [parentElement], the sibling accessors,
    [TreeWalker] and [document.activeElement] with [focus()] / [blur()].

    Listeners are embedded one at a time, as functions on the state they read
    and write.  What the host does between them is an input of the
    statements: a focus event is delivered with [dispatchFocusin] or
    [dispatchFocusout], a pending animation frame is run with [runFrame]. *)

From Stdlib Require Import String Ascii List Bool Arith Lia.
From stdpp Require Import base option list gmap.

Import ListNotations.
Local Open Scope string_scope.
Local Open Scope bool_scope.
Local Open Scope list_scope.

Set Warnings "-register-all".

(** ** The host document *)

Module DOM.

(** Object identity of a DOM node. *)
Definition NodeId := nat.

(** The interface a node implements; [isStyleVisible] tests
    [instanceof HTMLElement] and [instanceof SVGElement]. *)
Inductive NodeClass :=
| HTMLElement
| SVGElement
| OtherElement   (* an [Element] of another namespace, e.g. MathML *)
| TextNode
| CommentNode.

Definition isElementClass (c : NodeClass) : bool :=
  match c with
  | HTMLElement | SVGElement | OtherElement => true
  | TextNode | CommentNode => false
  end.

(** The two properties the source reads from a [CSSStyleDeclaration]. *)
Record CSSStyle := mkStyle { display : string; visibility : string }.

Record NodeInfo := mkNode {
  nodeId : NodeId;
  nodeClass : NodeClass;
  nodeName : string;                       (* "INPUT", "DETAILS", "#comment" *)
  localName : string;                      (* what a type selector compares *)
  attributes : list (string * string);
  style : CSSStyle;                        (* [element.style] *)
  computedStyle : CSSStyle;                (* [getComputedStyle(element)] *)
  hostFocusable : bool                     (* does [focus()] take effect here *)
}.

(** The tree below [document.body]; the root of a [Dom] value is the body. *)
Inductive Dom := Node (info : NodeInfo) (childNodes : list Dom).

Definition info_of (t : Dom) : NodeInfo := match t with Node i _ => i end.
Definition children_of (t : Dom) : list Dom := match t with Node _ cs => cs end.
Definition id_of (t : Dom) : NodeId := nodeId (info_of t).

Definition isElement (i : NodeInfo) : bool := isElementClass (nodeClass i).

(** Document order. *)
Fixpoint preorder (t : Dom) : list NodeInfo :=
  match t with
  | Node i cs => i :: flat_map preorder cs
  end.

Definition preorder_forest (ts : list Dom) : list NodeInfo := flat_map preorder ts.

Definition ids (t : Dom) : list NodeId := map nodeId (preorder t).

(** One level of context around a located node: its parent and the siblings
    on both sides, each in document order. *)
Record Frame := mkFrame {
  f_parent : NodeInfo;
  f_left : list Dom;
  f_right : list Dom
}.

(** A located node: the subtree found, and the frames from its parent
    outwards to the root searched. *)
Definition Loc := (list Frame * Dom)%type.

Fixpoint locate (n : NodeId) (t : Dom) : option Loc :=
  match t with
  | Node i cs =>
      if Nat.eqb (nodeId i) n then Some ([], t)
      else
        (fix among (left : list Dom) (right : list Dom) : option Loc :=
           match right with
           | [] => None
           | c :: rest =>
               match locate n c with
               | Some (ctx, found) => Some (ctx ++ [mkFrame i left rest], found)
               | None => among (left ++ [c]) rest
               end
           end) [] cs
  end.

Definition locate_among (n : NodeId) (i : NodeInfo) : list Dom -> list Dom -> option Loc :=
  fix among (left : list Dom) (right : list Dom) : option Loc :=
    match right with
    | [] => None
    | c :: rest =>
        match locate n c with
        | Some (ctx, found) => Some (ctx ++ [mkFrame i left rest], found)
        | None => among (left ++ [c]) rest
        end
    end.

(** Rebuilding the tree from a located node. *)
Fixpoint plug (ctx : list Frame) (t : Dom) : Dom :=
  match ctx with
  | [] => t
  | fr :: outer => plug outer (Node (f_parent fr) (f_left fr ++ t :: f_right fr))
  end.

(** The nodes that come before, and after, a located subtree in document
    order. *)
Fixpoint before (ctx : list Frame) : list NodeInfo :=
  match ctx with
  | [] => []
  | fr :: outer => before outer ++ f_parent fr :: preorder_forest (f_left fr)
  end.

Fixpoint after (ctx : list Frame) : list NodeInfo :=
  match ctx with
  | [] => []
  | fr :: outer => preorder_forest (f_right fr) ++ after outer
  end.

Definition subtree (d : Dom) (n : NodeId) : option Dom :=
  match locate n d with
  | Some (_, t) => Some t
  | None => None
  end.

Definition attached (d : Dom) (n : NodeId) : bool :=
  match locate n d with Some _ => true | None => false end.

(** [a.contains(b)]: [b] is [a] or a descendant of [a].  [b] may be [null]. *)
Definition contains (d : Dom) (a : NodeId) (b : option NodeId) : bool :=
  match b with
  | None => false
  | Some b =>
      match subtree d a with
      | Some t => attached t b
      | None => false
      end
  end.

Definition parentNode (d : Dom) (n : NodeId) : option NodeInfo :=
  match locate n d with
  | Some (fr :: _, _) => Some (f_parent fr)
  | _ => None
  end.

(** [node.parentElement]: the parent, when it is an [Element]. *)
Definition parentElement (d : Dom) (n : NodeId) : option NodeInfo :=
  match parentNode d n with
  | Some p => if isElement p then Some p else None
  | None => None
  end.

Definition siblingsBefore (d : Dom) (n : NodeId) : list Dom :=
  match locate n d with
  | Some (fr :: _, _) => f_left fr
  | _ => []
  end.

Definition siblingsAfter (d : Dom) (n : NodeId) : list Dom :=
  match locate n d with
  | Some (fr :: _, _) => f_right fr
  | _ => []
  end.

Definition nextSibling (d : Dom) (n : NodeId) : option NodeInfo :=
  head (map info_of (siblingsAfter d n)).

Definition nextElementSibling (d : Dom) (n : NodeId) : option NodeInfo :=
  head (List.filter isElement (map info_of (siblingsAfter d n))).

Definition previousElementSibling (d : Dom) (n : NodeId) : option NodeInfo :=
  last (List.filter isElement (map info_of (siblingsBefore d n))).

Definition getAttribute (i : NodeInfo) (name : string) : option string :=
  match List.find (fun kv => String.eqb (fst kv) name) (attributes i) with
  | Some kv => Some (snd kv)
  | None => None
  end.

Definition hasAttribute (i : NodeInfo) (name : string) : bool :=
  match getAttribute i name with Some _ => true | None => false end.

(** The chain [element, element.parentElement, ...] that [isElementVisible]
    climbs; it stops where [parentElement] is [null]. *)
Fixpoint elementChain (ctx : list Frame) : list NodeInfo :=
  match ctx with
  | [] => []
  | fr :: outer =>
      if isElement (f_parent fr) then f_parent fr :: elementChain outer else []
  end.

Definition parentChain (d : Dom) (n : NodeId) : list NodeInfo :=
  match locate n d with
  | Some (ctx, _) => elementChain ctx
  | None => []
  end.

End DOM.

(** ** Selectors

    [Element.matches] is the host's; the selectors of the source are kept as
    parsed terms: a comma-separated list of compound selectors, each an
    optional type selector followed by attribute tests and [:not(...)]. *)

Module Selector.
Import DOM.

Inductive Simple :=
| Attr (name : string)                   (* [name] *)
| AttrEq (name value : string)           (* [name=value] *)
| Not (s : Simple).                      (* :not(s) *)

Record Compound := mkCompound {
  typeSelector : option string;
  simples : list Simple
}.

Definition Selector := list Compound.

Fixpoint matchesSimple (i : NodeInfo) (s : Simple) : bool :=
  match s with
  | Attr a => hasAttribute i a
  | AttrEq a v =>
      match getAttribute i a with
      | Some v' => String.eqb v' v
      | None => false
      end
  | Not s' => negb (matchesSimple i s')
  end.

Definition matchesCompound (i : NodeInfo) (c : Compound) : bool :=
  match typeSelector c with
  | Some ty => String.eqb (localName i) ty
  | None => true
  end && forallb (matchesSimple i) (simples c).

(** [element.matches(selector)] *)
Definition matches (i : NodeInfo) (sel : Selector) : bool :=
  isElement i && existsb (matchesCompound i) sel.

Definition withSuffix (suffix : list Simple) (c : Compound) : Compound :=
  mkCompound (typeSelector c) (simples c ++ suffix).

(** [array.join(suffix + ',')]: the separator goes between the entries, so
    every entry but the last one receives the suffix. *)
Fixpoint joinWith (suffix : list Simple) (l : list Compound) : Selector :=
  match l with
  | [] => []
  | [c] => [c]
  | c :: rest => withSuffix suffix c :: joinWith suffix rest
  end.

End Selector.

(** ** TreeWalker *)

Module Walker.
Import DOM.

Inductive FilterResult := FILTER_ACCEPT | FILTER_REJECT | FILTER_SKIP.

Definition isAccept (r : FilterResult) : bool :=
  match r with FILTER_ACCEPT => true | _ => false end.

Section Traversal.
(** [whatToShow] and the [acceptNode] callback, combined. *)
Variable filterNode : NodeInfo -> FilterResult.

(** The nodes of a subtree the walker can stop at, in document order: a
    rejected node hides its whole subtree, a skipped node only itself. *)
Fixpoint stops (t : Dom) : list NodeInfo :=
  match t with
  | Node i cs =>
      match filterNode i with
      | FILTER_REJECT => []
      | FILTER_ACCEPT => i :: flat_map stops cs
      | FILTER_SKIP => flat_map stops cs
      end
  end.

Definition stops_forest (ts : list Dom) : list NodeInfo := flat_map stops ts.

(** What [nextNode()] can reach from a located node, nearest first: its
    descendants, then the later siblings of the node and of each ancestor up
    to the root. *)
Definition following (loc : Loc) : list NodeInfo :=
  stops_forest (children_of (snd loc))
    ++ flat_map (fun fr => stops_forest (f_right fr)) (fst loc).

(** What [previousNode()] can reach, nearest first: the earlier siblings
    (deepest last descendant first), then the parent, and so on upwards. *)
Definition preceding (loc : Loc) : list NodeInfo :=
  flat_map (fun fr =>
              rev (stops_forest (f_left fr))
                ++ (if isAccept (filterNode (f_parent fr)) then [f_parent fr] else []))
           (fst loc).
End Traversal.

Record TreeWalker := mkWalker {
  root : NodeId;
  acceptNode : Dom -> NodeInfo -> FilterResult;
  currentNode : NodeId
}.

(** [NodeFilter.SHOW_ELEMENT]: other nodes are skipped before the callback
    is asked. *)
Definition filterNode (w : TreeWalker) (d : Dom) (i : NodeInfo) : FilterResult :=
  if isElement i then acceptNode w d i else FILTER_SKIP.

(** Where the walker stands, relative to its root.  [None] when the root is
    not in the document or the current node is not inside the root; the
    model says nothing about a walker in that position and answers [null]. *)
Definition position (w : TreeWalker) (d : Dom) : option Loc :=
  match subtree d (root w) with
  | Some r => locate (currentNode w) r
  | None => None
  end.

Definition moveTo (w : TreeWalker) (target : option NodeInfo) : option NodeId * TreeWalker :=
  match target with
  | Some i => (Some (nodeId i), mkWalker (root w) (acceptNode w) (nodeId i))
  | None => (None, w)
  end.

Definition nextNode (w : TreeWalker) (d : Dom) : option NodeId * TreeWalker :=
  match position w d with
  | Some loc => moveTo w (head (following (filterNode w d) loc))
  | None => (None, w)
  end.

Definition previousNode (w : TreeWalker) (d : Dom) : option NodeId * TreeWalker :=
  match position w d with
  | Some loc => moveTo w (head (preceding (filterNode w d) loc))
  | None => (None, w)
  end.

End Walker.

(** ** The script's world: document, focus, module state, hook state *)

Module Host.
Import DOM.

(** Identity of a React ref object (a [scopeRef]). *)
Definition Ref := nat.

(** Callbacks handed to [requestAnimationFrame], by the place that creates
    them. *)
Inductive FrameCallback :=
| BlurCheck (scopeRef : Ref) (target : NodeId)     (* from [onBlur] *)
| RestoreFocus (nodeToRestore : NodeId).           (* from the cleanup of [useRestoreFocus] *)

(** Calls into the host that change focus, in the order they were made. *)
Inductive HostCall :=
| CallFocus (n : NodeId) (preventScroll : bool)
| CallBlur (n : NodeId).

Record World := mkWorld {
  document : Dom;                          (* [document.body] and below *)
  activeElement : option NodeId;           (* [document.activeElement] *)
  activeScope : option Ref;                (* [let activeScope = null] *)
  scopes : gset Ref;                       (* [let scopes = new Set()] *)
  current : gmap Ref (list NodeId);        (* [scopeRef.current] of every ref *)
  focusedNode : gmap Ref NodeId;           (* [focusedNode.current], per scope *)
  nodeToRestore : gmap Ref NodeId;         (* [let nodeToRestore], per scope *)
  frames : list FrameCallback;             (* pending animation frames *)
  calls : list HostCall                    (* focus calls made so far *)
}.

Definition setDocument (d : Dom) (w : World) : World :=
  mkWorld d (activeElement w) (activeScope w) (scopes w) (current w)
          (focusedNode w) (nodeToRestore w) (frames w) (calls w).
Definition setActiveElement (a : option NodeId) (w : World) : World :=
  mkWorld (document w) a (activeScope w) (scopes w) (current w)
          (focusedNode w) (nodeToRestore w) (frames w) (calls w).
Definition setActiveScope (s : option Ref) (w : World) : World :=
  mkWorld (document w) (activeElement w) s (scopes w) (current w)
          (focusedNode w) (nodeToRestore w) (frames w) (calls w).
Definition setScopes (s : gset Ref) (w : World) : World :=
  mkWorld (document w) (activeElement w) (activeScope w) s (current w)
          (focusedNode w) (nodeToRestore w) (frames w) (calls w).
Definition setCurrent (c : gmap Ref (list NodeId)) (w : World) : World :=
  mkWorld (document w) (activeElement w) (activeScope w) (scopes w) c
          (focusedNode w) (nodeToRestore w) (frames w) (calls w).
Definition setFocusedNode (f : gmap Ref NodeId) (w : World) : World :=
  mkWorld (document w) (activeElement w) (activeScope w) (scopes w) (current w)
          f (nodeToRestore w) (frames w) (calls w).
Definition setNodeToRestore (f : gmap Ref NodeId) (w : World) : World :=
  mkWorld (document w) (activeElement w) (activeScope w) (scopes w) (current w)
          (focusedNode w) f (frames w) (calls w).
Definition setFrames (f : list FrameCallback) (w : World) : World :=
  mkWorld (document w) (activeElement w) (activeScope w) (scopes w) (current w)
          (focusedNode w) (nodeToRestore w) f (calls w).
Definition logCall (c : HostCall) (w : World) : World :=
  mkWorld (document w) (activeElement w) (activeScope w) (scopes w) (current w)
          (focusedNode w) (nodeToRestore w) (frames w) (calls w ++ [c]).

(** [scopeRef.current]; a ref starts out as [React.useRef([])]. *)
Definition currentOf (w : World) (r : Ref) : list NodeId := default [] (current w !! r).

(** How a piece of script ends.  [OutOfFuel] is not a JavaScript exception:
    it marks a loop of the model that used up its bound. *)
Inductive Exn := TypeError | OutOfFuel.

Inductive Completion (A : Type) :=
| Normal (a : A)
| Throw (e : Exn).
Arguments Normal {A} a.
Arguments Throw {A} e.

(** A computation reads and writes the world and may throw; what it wrote
    before throwing stays written. *)
Definition JS (A : Type) : Type := World -> World * Completion A.

Definition ret {A} (a : A) : JS A := fun w => (w, Normal a).
Definition throw {A} (e : Exn) : JS A := fun w => (w, Throw e).
Definition bind {A B} (m : JS A) (k : A -> JS B) : JS B :=
  fun w =>
    match m w with
    | (w', Normal a) => k a w'
    | (w', Throw e) => (w', Throw e)
    end.
Definition gets {A} (f : World -> A) : JS A := fun w => (w, Normal (f w)).
Definition modify (f : World -> World) : JS unit := fun w => (f w, Normal tt).

Declare Scope js_scope.
Delimit Scope js_scope with js.
Notation "'let*' x ':=' m 'in' k" := (bind m (fun x => k))
  (at level 10, x pattern, m at level 100, k at level 200) : js_scope.
Notation "m ';;' k" := (bind m (fun _ => k))
  (at level 100, k at level 200, right associativity) : js_scope.

(** Reading a property of [undefined] or [null]. *)
Definition deref {A} (o : option A) : JS A :=
  match o with
  | Some a => ret a
  | None => throw TypeError
  end.

(** [element.focus()] and [focusWithoutScrolling(element)] of the helper
    package: focus moves when the node is in the document and the host takes
    focus there, and stays where it is otherwise. *)
Definition focus (n : NodeId) (preventScroll : bool) : JS unit :=
  modify (fun w =>
    let w' := logCall (CallFocus n preventScroll) w in
    match subtree (document w') n with
    | Some t => if hostFocusable (info_of t) then setActiveElement (Some n) w' else w'
    | None => w'
    end).

(** [element.blur()]: when the element has focus, focus falls back to the
    body. *)
Definition blur (n : NodeId) : JS unit :=
  modify (fun w =>
    let w' := logCall (CallBlur n) w in
    if decide (activeElement w' = Some n)
    then setActiveElement (Some (id_of (document w'))) w'
    else w').

(** [window.requestAnimationFrame(cb)] *)
Definition requestAnimationFrame (cb : FrameCallback) : JS unit :=
  modify (fun w => setFrames (frames w ++ [cb]) w).

End Host.

(** ** [src/index.js] *)

Module FocusScope.
Import DOM Selector Walker Host.
Local Open Scope js_scope.

(** *** isElementInScope, isElementInAnyScope *)

(** [scope.some(node => node.contains(element))] *)
Definition isElementInScope (d : Dom) (element : option NodeId) (scope : list NodeId) : bool :=
  existsb (fun node => contains d node element) scope.

(** The loop over [scopes.values()]. *)
Definition isElementInAnyScope (w : World) (element : option NodeId) : bool :=
  existsb (fun scope => isElementInScope (document w) element (currentOf w scope))
          (elements (scopes w)).

(** *** The selector constants *)

Definition tagged (ty : string) (l : list Simple) : Compound := mkCompound (Some ty) l.
Definition untagged (l : list Simple) : Compound := mkCompound None l.

Definition focusableElements : list Compound :=
  [ tagged "input" [Not (Attr "disabled"); Not (AttrEq "type" "hidden")];
    tagged "select" [Not (Attr "disabled")];
    tagged "textarea" [Not (Attr "disabled")];
    tagged "button" [Not (Attr "disabled")];
    tagged "a" [Attr "href"];
    tagged "area" [Attr "href"];
    tagged "summary" [];
    tagged "iframe" [];
    tagged "object" [];
    tagged "embed" [];
    tagged "audio" [Attr "controls"];
    tagged "video" [Attr "controls"];
    untagged [Attr "contenteditable"] ].

(** [focusableElements.join(':not([hidden]),')
     + ',[tabindex]:not([disabled]):not([hidden])'] *)
Definition FOCUSABLE_ELEMENT_SELECTOR : Selector :=
  joinWith [Not (Attr "hidden")] focusableElements
    ++ [untagged [Attr "tabindex"; Not (Attr "disabled"); Not (Attr "hidden")]].

(** [focusableElements.push('[tabindex]:not([tabindex="-1"]):not([disabled])')]
    and then [focusableElements.join(':not([hidden]):not([tabindex="-1"]),')] *)
Definition TABBABLE_ELEMENT_SELECTOR : Selector :=
  joinWith [Not (Attr "hidden"); Not (AttrEq "tabindex" "-1")]
    (focusableElements
       ++ [untagged [Attr "tabindex"; Not (AttrEq "tabindex" "-1"); Not (Attr "disabled")]]).

(** *** isStyleVisible, isAttributeVisible, isElementVisible *)

Definition styleShows (s : CSSStyle) : bool :=
  negb (String.eqb (display s) "none")
  && negb (String.eqb (visibility s) "hidden")
  && negb (String.eqb (visibility s) "collapse").

Definition isStyleVisible (element : NodeInfo) : bool :=
  match nodeClass element with
  | HTMLElement | SVGElement =>
      let isVisible := styleShows (style element) in
      if isVisible then styleShows (computedStyle element) else isVisible
  | _ => false
  end.

Definition isAttributeVisible (element : NodeInfo) (childElement : option NodeInfo) : bool :=
  negb (hasAttribute element "hidden")
  && match childElement with
     | Some child =>
         if String.eqb (nodeName element) "DETAILS"
            && negb (String.eqb (nodeName child) "SUMMARY")
         then hasAttribute element "open"
         else true
     | None => true
     end.

(** The recursion of [isElementVisible] over [element.parentElement];
    [parents] is the chain of parent elements still to climb. *)
Fixpoint isElementVisibleFrom (element : NodeInfo) (childElement : option NodeInfo)
         (parents : list NodeInfo) : bool :=
  negb (String.eqb (nodeName element) "#comment")
  && isStyleVisible element
  && isAttributeVisible element childElement
  && match parents with
     | [] => true
     | parent :: above => isElementVisibleFrom parent (Some element) above
     end.

Definition isElementVisible (d : Dom) (element : NodeInfo) (childElement : option NodeInfo) : bool :=
  isElementVisibleFrom element childElement (parentChain d (nodeId element)).

(** *** getFocusableTreeWalker *)

Record FocusManagerOptions := mkOpts {
  from : option NodeId;
  tabbable : bool
}.

Definition tabbableOnly : FocusManagerOptions := mkOpts None true.

(** The [acceptNode] callback. *)
Definition acceptNodeOf (opts : FocusManagerOptions) (scope : option (list NodeId))
           (d : Dom) (node : NodeInfo) : FilterResult :=
  let selector := if tabbable opts then TABBABLE_ELEMENT_SELECTOR else FOCUSABLE_ELEMENT_SELECTOR in
  if match from opts with
     | Some f => contains d f (Some (nodeId node))
     | None => false
     end
  then FILTER_REJECT
  else if matches node selector
          && isElementVisible d node None
          && match scope with
             | None => true
             | Some sc => isElementInScope d (Some (nodeId node)) sc
             end
  then FILTER_ACCEPT
  else FILTER_SKIP.

(** [document.createTreeWalker(root, SHOW_ELEMENT, {acceptNode})], then
    [walker.currentNode = opts.from] when a [from] is given.  A [null] root
    is a [TypeError]. *)
Definition getFocusableTreeWalker (root : option NodeId) (opts : FocusManagerOptions)
           (scope : option (list NodeId)) : JS TreeWalker :=
  let* r := deref root in
  let walker := mkWalker r (acceptNodeOf opts scope) r in
  ret match from opts with
      | Some f => mkWalker r (acceptNodeOf opts scope) f
      | None => walker
      end.

(** [walker.currentNode = node]; the attribute is not nullable. *)
Definition setCurrentNode (walker : TreeWalker) (node : option NodeId) : JS TreeWalker :=
  let* n := deref node in
  ret (mkWalker (Walker.root walker) (acceptNode walker) n).

Definition walkerNextNode (walker : TreeWalker) : JS (option NodeId * TreeWalker) :=
  gets (fun w => nextNode walker (document w)).

Definition walkerPreviousNode (walker : TreeWalker) : JS (option NodeId * TreeWalker) :=
  gets (fun w => previousNode walker (document w)).

(** *** getScopeRoot, focusElement, focusFirstInScope *)

(** [scope[0].parentElement] *)
Definition getScopeRoot (scope : list NodeId) : JS (option NodeId) :=
  let* first := deref (head scope) in
  gets (fun w => option_map nodeId (parentElement (document w) first)).

Definition focusElement (element : option NodeId) (scroll : bool) : JS unit :=
  match element with
  | Some el => if negb scroll then focus el true else focus el false
  | None => ret tt
  end.

Definition focusFirstInScope (scope : list NodeId) : JS unit :=
  let* first := deref (head scope) in
  let* sentinel := gets (fun w => option_map nodeId (previousElementSibling (document w) first)) in
  let* root := getScopeRoot scope in
  let* walker := getFocusableTreeWalker root tabbableOnly (Some scope) in
  let* walker := setCurrentNode walker sentinel in
  let* (next, _) := walkerNextNode walker in
  focusElement next false.


(** *** FocusScope: the layout effect that measures the scope *)

(** The loop from [startRef.current.nextSibling] up to [endRef.current]. *)
Fixpoint collectLoop (endRef : NodeId) (siblings : list Dom) : list NodeId :=
  match siblings with
  | [] => []
  | node :: rest =>
      if Nat.eqb (id_of node) endRef then [] else id_of node :: collectLoop endRef rest
  end.

Definition collectScope (d : Dom) (startRef endRef : NodeId) : list NodeId :=
  collectLoop endRef (siblingsAfter d startRef).

Definition FocusScope_layoutEffect (scopeRef : Ref) (startRef endRef : NodeId) : JS unit :=
  let* nodes := gets (fun w => collectScope (document w) startRef endRef) in
  modify (fun w => setCurrent (<[scopeRef := nodes]> (current w)) w) ;;
  modify (fun w => setScopes ({[scopeRef]} ∪ scopes w) w).

Definition FocusScope_layoutCleanup (scopeRef : Ref) : JS unit :=
  modify (fun w => setScopes (scopes w ∖ {[scopeRef]}) w).

(** *** Events and listeners *)

Record KeyboardEvent := mkKey {
  key : string;
  altKey : bool;
  ctrlKey : bool;
  metaKey : bool;
  shiftKey : bool;
  defaultPrevented : bool;
  propagationStopped : bool
}.

Definition preventDefault (e : KeyboardEvent) : KeyboardEvent :=
  mkKey (key e) (altKey e) (ctrlKey e) (metaKey e) (shiftKey e) true (propagationStopped e).

Definition stopPropagation (e : KeyboardEvent) : KeyboardEvent :=
  mkKey (key e) (altKey e) (ctrlKey e) (metaKey e) (shiftKey e) (defaultPrevented e) true.

Definition ignoredKey (e : KeyboardEvent) : bool :=
  negb (String.eqb (key e) "Tab") || altKey e || ctrlKey e || metaKey e.

(** [e.shiftKey ? walker.previousNode() : walker.nextNode()] *)
Definition adjacent (shift : bool) (walker : TreeWalker) : JS (option NodeId * TreeWalker) :=
  if shift then walkerPreviousNode walker else walkerNextNode walker.

Inductive EventTarget := OnDocument | OnNode (n : NodeId).
Inductive EventType := keydown | focusin | focusout.
Inductive Handler := ContainKeyDown | ContainFocus | ContainBlur | RestoreKeyDown.

Record Listener := mkListener {
  l_target : EventTarget;
  l_type : EventType;
  l_handler : Handler;
  l_capture : bool
}.

(** *** useFocusContainment *)

Module Containment.

(** The node the walker is put on before the second attempt:
    [e.shiftKey ? scope[scope.length - 1].nextElementSibling
                : scope[0].previousElementSibling] *)
Definition wrapSeed (scope : list NodeId) (shift : bool) : JS (option NodeId) :=
  if shift then
    let* lastNode := deref (last scope) in
    gets (fun w => option_map nodeId (nextElementSibling (document w) lastNode))
  else
    let* firstNode := deref (head scope) in
    gets (fun w => option_map nodeId (previousElementSibling (document w) firstNode)).

Definition onKeyDown (scope : list NodeId) (e : KeyboardEvent) : JS KeyboardEvent :=
  if ignoredKey e then ret e
  else
    let* focusedElement := gets activeElement in
    let* inScope := gets (fun w => isElementInScope (document w) focusedElement scope) in
    if negb inScope then ret e
    else
      let* root := getScopeRoot scope in
      let* walker := getFocusableTreeWalker root tabbableOnly (Some scope) in
      let* walker := setCurrentNode walker focusedElement in
      let* (nextElement, walker) := adjacent (shiftKey e) walker in
      let* nextElement :=
        match nextElement with
        | Some _ => ret nextElement
        | None =>
            let* seed := wrapSeed scope (shiftKey e) in
            let* walker := setCurrentNode walker seed in
            let* (nextElement, _) := adjacent (shiftKey e) walker in
            ret nextElement
        end in
      let e := preventDefault e in
      focusElement nextElement true ;;
      ret e.

Definition onFocus (scopeRef : Ref) (target : NodeId) : JS unit :=
  let* isInAnyScope := gets (fun w => isElementInAnyScope w (Some target)) in
  if negb isInAnyScope then
    let* remembered := gets (fun w => focusedNode w !! scopeRef) in
    match remembered with
    | Some node => focus node false
    | None =>
        let* active := gets activeScope in
        match active with
        | Some a =>
            let* nodes := gets (fun w => currentOf w a) in
            focusFirstInScope nodes
        | None => ret tt
        end
    end
  else
    modify (setActiveScope (Some scopeRef)) ;;
    modify (fun w => setFocusedNode (<[scopeRef := target]> (focusedNode w)) w).

Definition onBlur (scopeRef : Ref) (target : NodeId) : JS unit :=
  requestAnimationFrame (BlurCheck scopeRef target).

(** The callback [onBlur] hands to [requestAnimationFrame]. *)
Definition blurCheck (scopeRef : Ref) (target : NodeId) : JS unit :=
  let* isInAnyScope := gets (fun w => isElementInAnyScope w (activeElement w)) in
  if negb isInAnyScope then
    modify (setActiveScope (Some scopeRef)) ;;
    modify (fun w => setFocusedNode (<[scopeRef := target]> (focusedNode w)) w) ;;
    focus target false
  else ret tt.

(** The listeners the effect adds: two on the document, then one [focusin]
    and one [focusout] listener on every node of the scope. *)
Definition listeners (contain : bool) (scope : list NodeId) : list Listener :=
  if negb contain then []
  else
    [ mkListener OnDocument keydown ContainKeyDown false;
      mkListener OnDocument focusin ContainFocus false ]
      ++ map (fun element => mkListener (OnNode element) focusin ContainFocus false) scope
      ++ map (fun element => mkListener (OnNode element) focusout ContainBlur false) scope.

End Containment.

(** *** useRestoreFocus *)

Module Restore.

(** [let nodeToRestore = document.activeElement], at the start of the
    layout effect. *)
Definition capture (scopeRef : Ref) : JS unit :=
  modify (fun w =>
    setNodeToRestore
      match activeElement w with
      | Some a => <[scopeRef := a]> (nodeToRestore w)
      | None => delete scopeRef (nodeToRestore w)
      end w).

(** [do { nextElement = ... } while (isElementInScope(nextElement, scope))] *)
Fixpoint skipScope (fuel : nat) (scope : list NodeId) (shift : bool) (walker : TreeWalker)
  : JS (option NodeId) :=
  match fuel with
  | 0 => throw OutOfFuel
  | S fuel' =>
      let* (nextElement, walker) := adjacent shift walker in
      let* inScope := gets (fun w => isElementInScope (document w) nextElement scope) in
      if inScope then skipScope fuel' scope shift walker else ret nextElement
  end.

(** [if (!document.body.contains(nodeToRestore) || nodeToRestore === document.body)
       nodeToRestore = null] *)
Definition forgetLostTarget (scopeRef : Ref) : JS unit :=
  modify (fun w =>
    let body := id_of (document w) in
    let target := nodeToRestore w !! scopeRef in
    if negb (contains (document w) body target)
       || bool_decide (target = Some body)
    then setNodeToRestore (delete scopeRef (nodeToRestore w)) w
    else w).

Definition onKeyDown (scopeRef : Ref) (scope : list NodeId) (evt : KeyboardEvent)
  : JS KeyboardEvent :=
  if ignoredKey evt then ret evt
  else
    let* focusedElement := gets activeElement in
    let* inScope := gets (fun w => isElementInScope (document w) focusedElement scope) in
    if negb inScope then ret evt
    else
      let* body := gets (fun w => id_of (document w)) in
      let* walker := getFocusableTreeWalker (Some body) tabbableOnly None in
      let* walker := setCurrentNode walker focusedElement in
      let* (nextElement, walker) := adjacent (shiftKey evt) walker in
      forgetLostTarget scopeRef ;;
      let* target := gets (fun w => nodeToRestore w !! scopeRef) in
      let* nextInScope := gets (fun w => isElementInScope (document w) nextElement scope) in
      if (negb (bool_decide (is_Some nextElement)) || negb nextInScope)
         && bool_decide (is_Some target)
      then
        let* walker := setCurrentNode walker target in
        let* fuel := gets (fun w => S (length (preorder (document w)))) in
        let* nextElement := skipScope fuel scope (shiftKey evt) walker in
        let evt := stopPropagation (preventDefault evt) in
        match nextElement with
        | Some _ => focusElement nextElement true
        | None => let* focused := deref focusedElement in blur focused
        end ;;
        ret evt
      else ret evt.

Definition listeners (contain : bool) : list Listener :=
  if negb contain then [mkListener OnDocument keydown RestoreKeyDown true] else [].

(** The function the layout effect returns. *)
Definition cleanup (scopeRef : Ref) (scope : list NodeId) (restoreFocus : bool) : JS unit :=
  let* target := gets (fun w => nodeToRestore w !! scopeRef) in
  let* inScope := gets (fun w => isElementInScope (document w) (activeElement w) scope) in
  match target with
  | Some node =>
      if restoreFocus && inScope then requestAnimationFrame (RestoreFocus node) else ret tt
  | None => ret tt
  end.

(** The callback [cleanup] hands to [requestAnimationFrame]. *)
Definition restoreFrame (node : NodeId) : JS unit :=
  let* stillThere := gets (fun w => contains (document w) (id_of (document w)) (Some node)) in
  if stillThere then focusElement (Some node) false else ret tt.

End Restore.

(** Running one pending animation frame callback. *)
Definition runFrame (cb : FrameCallback) : JS unit :=
  match cb with
  | BlurCheck scopeRef target => Containment.blurCheck scopeRef target
  | RestoreFocus node => Restore.restoreFrame node
  end.

(** *** useAutoFocus *)

(** [initialFocusRef] is [None] when the prop is absent, [Some None] for a
    ref object whose [current] is [null]. *)
Definition useAutoFocus (scopeRef : Ref) (autoFocus : bool)
           (initialFocusRef : option (option NodeId)) : JS unit :=
  (if autoFocus && negb (bool_decide (is_Some initialFocusRef)) then
     modify (setActiveScope (Some scopeRef)) ;;
     let* inScope := gets (fun w =>
       isElementInScope (document w) (activeElement w) (currentOf w scopeRef)) in
     if negb inScope then
       let* nodes := gets (fun w => currentOf w scopeRef) in
       focusFirstInScope nodes
     else ret tt
   else ret tt) ;;
  match initialFocusRef with
  | Some (Some node) =>
      modify (setActiveScope (Some scopeRef)) ;;
      let* inScope := gets (fun w =>
        isElementInScope (document w) (activeElement w) (currentOf w scopeRef)) in
      if negb inScope then focusElement (Some node) false else ret tt
  | _ => ret tt
  end.

(** *** Delivery of a [focusin] event to the listeners of one scope

    A listener on the document hears every event; a listener on a node hears
    the events whose target is that node or lies below it.  Bubbling reaches
    the nodes before the document.  What a listener throws is reported by the
    host and does not stop the delivery. *)

Definition hears (d : Dom) (target : NodeId) (l : Listener) : bool :=
  match l_target l with
  | OnDocument => true
  | OnNode n => contains d n (Some target)
  end.

Definition onNodeTarget (l : Listener) : bool :=
  match l_target l with OnNode _ => true | OnDocument => false end.





(** *** Delivery of a [focusout] event to the listeners of one scope *)

Definition isFocusout (l : Listener) : bool :=
  match l_type l with focusout => true | _ => false end.

Definition focusoutOrder (d : Dom) (target : NodeId) (ls : list Listener) : list Listener :=
  List.filter (fun l => isFocusout l && onNodeTarget l && hears d target l) ls
    ++ List.filter (fun l => isFocusout l && negb (onNodeTarget l)) ls.

Definition invokeFocusout (scopeRef : Ref) (target : NodeId) (l : Listener) (w : World) : World :=
  match l_handler l with
  | ContainBlur => fst (Containment.onBlur scopeRef target w)
  | _ => w
  end.

Definition dispatchFocusout (scopeRef : Ref) (ls : list Listener) (target : NodeId) (w : World) : World :=
  fold_left (fun w l => invokeFocusout scopeRef target l w)
            (focusoutOrder (document w) target ls) w.

End FocusScope.

(** ** Vocabulary of the statements *)

Module Spec.
Import DOM Selector Walker Host FocusScope.

(** The test a walker built with [{ tabbable: true }] applies to a node. *)
Definition isTabbable (d : Dom) (scope : option (list NodeId)) (i : NodeInfo) : bool :=
  isAccept (acceptNodeOf tabbableOnly scope d i).

(** The tabbable descendants of a scope, in document order. *)
Definition tabbables (d : Dom) (scope : list NodeId) : list NodeInfo :=
  List.filter (isTabbable d (Some scope)) (preorder d).

(** The tabbable elements of the whole document, in document order. *)
Definition documentTabbables (d : Dom) : list NodeInfo :=
  List.filter (isTabbable d None) (preorder d).

(** What [FocusScope] renders around its children: [startRef] is an element
    with an element parent, and [endRef] is an element among its later
    siblings. *)
Definition sentinels (d : Dom) (startRef endRef : NodeId) : bool :=
  match locate startRef d with
  | Some (fr :: _, s) =>
      isElement (f_parent fr) && isElement (info_of s)
      && existsb (fun t => Nat.eqb (id_of t) endRef && isElement (info_of t)) (f_right fr)
  | _ => false
  end.

(** A scope as the layout effect of a mounted [FocusScope] measured it in the
    document at hand. *)
Record Mounted (d : Dom) (startRef endRef : NodeId) (scope : list NodeId) : Prop := {
  mounted_ids : List.NoDup (ids d);
  mounted_sentinels : sentinels d startRef endRef = true;
  mounted_scope : scope = collectScope d startRef endRef
}.

(** The same, spelled out: the parent [P] has the children
    [pre ++ S :: mid ++ E :: post], the sentinels are [S] and [E], and the
    scope lists the roots of [mid]. *)
Record Shape (d : Dom) (startRef endRef : NodeId) (scope : list NodeId)
       (ctx : list Frame) (P : NodeInfo) (pre : list Dom) (S : Dom)
       (mid : list Dom) (E : Dom) (post : list Dom) : Prop := {
  shape_ids : List.NoDup (ids d);
  shape_doc : d = plug ctx (Node P (pre ++ S :: mid ++ E :: post));
  shape_start : id_of S = startRef;
  shape_end : id_of E = endRef;
  shape_scope : scope = map id_of mid;
  shape_parent : isElement P = true;
  shape_S : isElement (info_of S) = true;
  shape_E : isElement (info_of E) = true
}.

(** The walker [getFocusableTreeWalker(r, { tabbable: true }, scope)] builds,
    standing on [c]. *)
Definition tabWalker (scope : option (list NodeId)) (r c : NodeId) : TreeWalker :=
  mkWalker r (acceptNodeOf tabbableOnly scope) c.

(** The host takes focus on every node of the list. *)
Definition takeFocus (l : list NodeInfo) : Prop := Forall (fun i => hostFocusable i = true) l.

Definition TabKey (shift : bool) : KeyboardEvent :=
  mkKey "Tab" false false false shift false false.

(** One step of a walker in the direction of the key. *)
Definition stepOf (shift : bool) (wk : TreeWalker) (d : Dom) : option NodeId * TreeWalker :=
  if shift then previousNode wk d else nextNode wk d.

(** Where containment sends focus when the tabbable list of the scope splits
    as [X ++ current ++ Y]: the neighbour in the direction of the key, or,
    at the end of the list, the element at its other end. *)
Definition wrapTarget (d : Dom) (scope : list NodeId) (shift : bool)
           (X Y : list NodeInfo) : option NodeId :=
  if shift then
    match last X with
    | Some x => Some (nodeId x)
    | None => option_map nodeId (last (tabbables d scope))
    end
  else
    match head Y with
    | Some y => Some (nodeId y)
    | None => option_map nodeId (head (tabbables d scope))
    end.

(** A closed [details] element hides the children that are not its
    [summary]. *)
Definition hidesChild (element : NodeInfo) (childElement : option NodeInfo) : bool :=
  match childElement with
  | Some child =>
      String.eqb (nodeName element) "DETAILS"
      && negb (hasAttribute element "open")
      && negb (String.eqb (nodeName child) "SUMMARY")
  | None => false
  end.

(** What the specification asks of one node on the way up: not a comment, no
    hiding inline or computed style, no [hidden] attribute, and not a closed
    [details] above a child that is not its summary. *)
Definition ownVisibleAsWorded (element : NodeInfo) (childElement : option NodeInfo) : bool :=
  negb (String.eqb (nodeName element) "#comment")
  && styleShows (style element)
  && styleShows (computedStyle element)
  && negb (hasAttribute element "hidden")
  && negb (hidesChild element childElement).

(** [element instanceof HTMLElement || element instanceof SVGElement] *)
Definition isStyled (element : NodeInfo) : bool :=
  match nodeClass element with
  | HTMLElement | SVGElement => true
  | _ => false
  end.

(** The nodes from [element] upwards, each with the child it was reached
    from. *)
Definition onPath (element : NodeInfo) (childElement : option NodeInfo)
           (parents : list NodeInfo) : list (NodeInfo * option NodeInfo) :=
  combine (element :: parents) (childElement :: map Some (element :: parents)).

(** Visibility as the specification words it: the node and every ancestor
    element pass the test. *)
Definition visibleAsWorded (d : Dom) (element : NodeInfo) (childElement : option NodeInfo) : Prop :=
  Forall (fun p => ownVisibleAsWorded (fst p) (snd p) = true)
         (onPath element childElement (parentChain d (nodeId element))).

(** The same with the interface test of [isStyleVisible] added at every
    node. *)
Definition visibleAmended (d : Dom) (element : NodeInfo) (childElement : option NodeInfo) : Prop :=
  Forall (fun p => isStyled (fst p) && ownVisibleAsWorded (fst p) (snd p) = true)
         (onPath element childElement (parentChain d (nodeId element))).

(** The node the specification names for the second attempt: after the
    scope's last node when moving forward, before its first node when moving
    backward. *)
Definition seedAsWorded (d : Dom) (scope : list NodeId) (shift : bool) : option NodeId :=
  if shift then
    match head scope with
    | Some firstNode => option_map nodeId (previousElementSibling d firstNode)
    | None => None
    end
  else
    match last scope with
    | Some lastNode => option_map nodeId (nextElementSibling d lastNode)
    | None => None
    end.


(** The same, and also the same active scope and last-focused records. *)
Definition sameRegistry (w w' : World) : Prop :=
  document w' = document w /\ scopes w' = scopes w /\ current w' = current w
  /\ activeScope w' = activeScope w /\ focusedNode w' = focusedNode w.


(** Running the pending animation frames. *)
Definition runFrames (w : World) : World :=
  fold_left (fun w cb => fst (runFrame cb w)) (frames w) (setFrames [] w).

(** Teardown of a scope: the cleanup of [useRestoreFocus] runs; the host then
    removes the scope, which leaves the document [d'] with focus on [a'];
    then the animation frame fires. *)
Definition unmount (scopeRef : Ref) (scope : list NodeId) (restoreFocus : bool)
           (d' : Dom) (a' : option NodeId) (w : World) : World :=
  runFrames (setActiveElement a' (setDocument d' (fst (Restore.cleanup scopeRef scope restoreFocus w)))).

(** The four conditions for restoring focus to [t] at teardown. *)
Definition restores (scopeRef : Ref) (scope : list NodeId) (restoreFocus : bool)
           (d' : Dom) (w : World) (t : NodeId) : Prop :=
  restoreFocus = true
  /\ nodeToRestore w !! scopeRef = Some t
  /\ isElementInScope (document w) (activeElement w) scope = true
  /\ contains d' (id_of d') (Some t) = true.

(** A list of nodes cut at the node with identity [n]: what comes before
    it, and what comes after it. *)
Fixpoint splitAt (n : NodeId) (l : list NodeInfo) : list NodeInfo * list NodeInfo :=
  match l with
  | [] => ([], [])
  | x :: rest =>
      if Nat.eqb (nodeId x) n then ([], rest)
      else (x :: fst (splitAt n rest), snd (splitAt n rest))
  end.

(** The nodes before, and after, node [n] in document order. *)
Definition nodesBefore (d : Dom) (n : NodeId) : list NodeInfo := fst (splitAt n (preorder d)).
Definition nodesAfter (d : Dom) (n : NodeId) : list NodeInfo := snd (splitAt n (preorder d)).

(** The same, nearest first, in the direction of the key. *)
Definition ahead (d : Dom) (shift : bool) (n : NodeId) : list NodeInfo :=
  if shift then rev (nodesBefore d n) else nodesAfter d n.

(** A tabbable element of the document that is not in the scope. *)
Definition handOffCandidate (d : Dom) (scope : list NodeId) (x : NodeInfo) : bool :=
  isTabbable d None x && negb (isElementInScope d (Some (nodeId x)) scope).

(** The nearest element in the direction of the key: the last of those
    before, or the first of those after. *)
Definition towards {A} (shift : bool) (beforeIt afterIt : list A) : option A :=
  if shift then last beforeIt else head afterIt.

(** The next (previous, with Shift) tabbable element relative to [t] in the
    order of the whole document, the elements of the scope left out. *)
Definition handOffTarget (d : Dom) (scope : list NodeId) (shift : bool) (t : NodeId) : option NodeId :=
  nodeId <$> towards shift (List.filter (handOffCandidate d scope) (nodesBefore d t))
                           (List.filter (handOffCandidate d scope) (nodesAfter d t)).

(** Where Tab (Shift+Tab) would go from [c] by itself: the next (previous)
    tabbable element of the whole document. *)
Definition plainTarget (d : Dom) (shift : bool) (c : NodeId) : option NodeId :=
  nodeId <$> towards shift (List.filter (isTabbable d None) (nodesBefore d c))
                           (List.filter (isTabbable d None) (nodesAfter d c)).

(** The position reached from position [i] in a cycle of [N] elements. *)
Definition nextIndex (N : nat) (shift : bool) (i : nat) : nat :=
  if shift then (i + (N - 1)) mod N else (i + 1) mod N.

(** One unmodified Tab (or Shift+Tab) keydown, handled by the containment
    listener of a scope. *)
Definition pressTab (scope : list NodeId) (shift : bool) (w : World) : World :=
  fst (Containment.onKeyDown scope (TabKey shift) w).

End Spec.

(** ** Sample documents *)

Module Sample.
Import DOM Selector Walker Host FocusScope.

Definition shown : CSSStyle := mkStyle "" "".
Definition rendered : CSSStyle := mkStyle "block" "visible".

Definition element (id : NodeId) (name tag : string) (attrs : list (string * string)) : NodeInfo :=
  mkNode id HTMLElement name tag attrs shown rendered true.

Definition input (id : NodeId) : Dom := Node (element id "INPUT" "input" []) [].
Definition button (id : NodeId) : Dom := Node (element id "BUTTON" "button" []) [].
Definition sentinel (id : NodeId) : Dom :=
  Node (element id "SPAN" "span" [("hidden", "")]) [].
Definition div (id : NodeId) (cs : list Dom) : Dom := Node (element id "DIV" "div" []) cs.
Definition body (cs : list Dom) : Dom := Node (element 0 "BODY" "body" []) cs.

(** [<button/> <FocusScope> <input/> <input/> <input/> </FocusScope> <button/>] *)
Definition page : Dom :=
  body [button 1; sentinel 2; input 3; input 4; input 5; sentinel 6; button 7].

Definition world (d : Dom) (active : option NodeId) : World :=
  mkWorld d active None ∅ ∅ ∅ ∅ [] [].

Definition Tab : KeyboardEvent := mkKey "Tab" false false false false false false.
Definition ShiftTab : KeyboardEvent := mkKey "Tab" false false false true false false.

(** [<button/> <FocusScope></FocusScope>]: a scope without children. *)
Definition emptyPage : Dom := body [button 1; sentinel 2; sentinel 3].

(** A MathML element with a tab index: an [Element] that is neither an
    [HTMLElement] nor an [SVGElement]. *)
Definition mathNode : NodeInfo :=
  mkNode 1 OtherElement "math" "math" [("tabindex", "0")] shown rendered true.

Definition mathPage : Dom := body [Node mathNode []].

(** Two scopes side by side, [<FocusScope><input/></FocusScope>] twice,
    with refs 9 and 10, both mounted. *)
Definition twoScopes : Dom :=
  body [sentinel 2; input 3; sentinel 4; sentinel 5; input 6; sentinel 7].

Definition twoScopesMounted : World :=
  fst (FocusScope_layoutEffect 10 5 7
         (fst (FocusScope_layoutEffect 9 2 4 (world twoScopes (Some 3))))).

(** The scope of [page], as its layout effect measures it. *)
Definition pageScope : list NodeId := [3; 4; 5].

Definition pageInput (id : NodeId) : NodeInfo := element id "INPUT" "input" [].

(** [page] after the layout effect of its scope (ref 9) has run, focus being
    on [active]. *)
Definition mountedPage (active : option NodeId) : World :=
  fst (FocusScope_layoutEffect 9 2 6 (world page active)).

(** [emptyPage] after the layout effect of its scope (ref 9) has run. *)
Definition mountedEmptyPage : World :=
  fst (FocusScope_layoutEffect 9 2 3 (world emptyPage (Some 1))).

(** [page] with the scope mounted, focus on the second input, and the button
    before the scope remembered as the node to restore. *)
Definition pageBeforeUnmount : World :=
  setNodeToRestore {[9 := 1]} (mountedPage (Some 4)).

(** The children of the test "should skip non-tabbable elements". *)
Definition styledInput (id : NodeId) (inline computed : CSSStyle) : Dom :=
  Node (mkNode id HTMLElement "INPUT" "input" [] inline computed true) [].

Definition mixedPage : Dom :=
  body [ sentinel 1;
         input 2;
         div 3 [];
         input 4;
         Node (element 5 "INPUT" "input" [("hidden", "")]) [];
         styledInput 6 (mkStyle "none" "") (mkStyle "none" "visible");
         styledInput 7 (mkStyle "" "hidden") (mkStyle "inline-block" "hidden");
         styledInput 8 (mkStyle "" "collapse") (mkStyle "inline-block" "collapse");
         Node (element 9 "DIV" "div" [("tabindex", "-1")]) [];
         Node (element 10 "INPUT" "input" [("disabled", ""); ("tabindex", "0")]) [];
         input 11;
         sentinel 12 ].

(** The children of the test "should work with nested elements". *)
Definition nestedPage : Dom :=
  body [ sentinel 1; input 2; div 3 [input 4; div 5 [input 6]]; sentinel 7 ].

Definition AltTab : KeyboardEvent := mkKey "Tab" true false false false false false.

(** [page] with focus on the last input of the scope and the button before
    the scope remembered as the node to restore. *)
Definition pageAtLastInput : World :=
  setNodeToRestore {[9 := 1]} (mountedPage (Some 5)).

(** [page] once the scope is gone. *)
Definition pageAfterUnmount : Dom := body [button 1; button 7].

End Sample.

(** ** What the component renders, and several listeners on one event *)

Module Lifecycle.
Import DOM Selector Walker Host FocusScope Spec.

(** A [<span hidden />], as [FocusScope] renders it before and after its
    children.  Its computed style and whether it takes focus are the host's. *)
Definition isMarker (i : NodeInfo) : bool :=
  match nodeClass i with HTMLElement => true | _ => false end
  && String.eqb (localName i) "span"
  && hasAttribute i "hidden".

(** The fragment [<><span hidden ref={startRef} />{children}<span hidden
    ref={endRef} /></>]: the nodes it puts, side by side, into its parent. *)
Definition render (startMarker endMarker : NodeInfo) (children : list Dom) : list Dom :=
  Node startMarker [] :: children ++ [Node endMarker []].

(** A bubbling keydown reaches the listeners the mounted scopes added to the
    document, in the order they were added; each works on the world and the
    event the one before left.  What a listener throws is reported by the
    host and does not stop the delivery. *)
Definition deliverKeydown (listenerScopes : list (list NodeId)) (e : KeyboardEvent) (w : World)
  : World * KeyboardEvent :=
  fold_left (fun st scope =>
               match Containment.onKeyDown scope (snd st) (fst st) with
               | (w', Normal e') => (w', e')
               | (w', Throw _) => (w', snd st)
               end)
            listenerScopes (w, e).

(** The walker [getFocusableTreeWalker(r, opts, scope)] builds, moved to [c]. *)
Definition focusWalker (opts : FocusManagerOptions) (scope : option (list NodeId))
           (r c : NodeId) : TreeWalker :=
  mkWalker r (acceptNodeOf opts scope) c.

(** The selector a walker with these options applies. *)
Definition selectorOf (opts : FocusManagerOptions) : Selector :=
  if tabbable opts then TABBABLE_ELEMENT_SELECTOR else FOCUSABLE_ELEMENT_SELECTOR.

(** A focus-out that reaches the scope, the host then moving focus to [a'],
    and the animation frame after that. *)
Definition blurThenFrame (scopeRef : Ref) (scope : list NodeId) (target : NodeId)
           (a' : option NodeId) (w : World) : World :=
  runFrames (setActiveElement a'
               (dispatchFocusout scopeRef (Containment.listeners true scope) target w)).

(** The state a focus-out leaves once its animation frame has run and found
    focus outside every scope. *)
Definition blurRecovered (scopeRef : Ref) (target : NodeId) (w : World) : Prop :=
  activeElement w = Some target
  /\ activeScope w = Some scopeRef
  /\ focusedNode w !! scopeRef = Some target.

(** The entries of [focusableElements] that name a tag: all but
    ['[contenteditable]']. *)
Definition taggedElements : list Compound := removelast focusableElements.

Definition editable (i : NodeInfo) : bool := hasAttribute i "contenteditable".

(** [[tabindex="-1"]] *)
Definition tabIndexMinusOne (i : NodeInfo) : bool := matchesSimple i (AttrEq "tabindex" "-1").

(** The effects of a mounting [FocusScope] that write to the state, in the
    order React runs them: the layout effects in the order of the hook calls
    (the measuring effect, then the one of [useRestoreFocus]), then the
    passive effect of [useAutoFocus]. *)
Definition mountEffects (scopeRef : Ref) (startRef endRef : NodeId) (autoFocus : bool)
           (initialFocusRef : option (option NodeId)) : JS unit :=
  bind (FocusScope_layoutEffect scopeRef startRef endRef)
       (fun _ => bind (Restore.capture scopeRef)
                      (fun _ => useAutoFocus scopeRef autoFocus initialFocusRef)).



(** A scope (nodes 5 to 7, between the markers 4 and 8) inside another one
    (between the markers 1 and 10):
    [<FocusScope> <input/> <div> <FocusScope> <input/> <input/> <input/>
    </FocusScope> </div> <input/> </FocusScope>] *)
Definition nestedScopes : Dom :=
  Sample.body [ Sample.sentinel 1; Sample.input 2;
                Sample.div 3 [ Sample.sentinel 4; Sample.input 5; Sample.input 6;
                               Sample.input 7; Sample.sentinel 8 ];
                Sample.input 9; Sample.sentinel 10 ].

End Lifecycle.

(** ** The scenarios of the test suite, replayed on the embedding *)

Module Scenarios.
Import DOM Selector Walker Host FocusScope Spec Sample.

Example contain_three_inputs :
  map (fun k => activeElement (Nat.iter k (pressTab pageScope false) (world page (Some 3))))
      [1; 2; 3]
  = [Some 4; Some 5; Some 3]
  /\ map (fun k => activeElement (Nat.iter k (pressTab pageScope true) (world page (Some 3))))
         [1; 2; 3]
     = [Some 5; Some 4; Some 3].
Proof. split; reflexivity. Qed.

Example nested_elements :
  collectScope nestedPage 1 7 = [2; 3]
  /\ map nodeId (tabbables nestedPage [2; 3]) = [2; 4; 6]
  /\ activeElement (pressTab [2; 3] false (world nestedPage (Some 6))) = Some 2
  /\ activeElement (pressTab [2; 3] true (world nestedPage (Some 2))) = Some 6.
Proof. repeat split; reflexivity. Qed.

Example skip_non_tabbable :
  map nodeId (tabbables mixedPage (collectScope mixedPage 1 12)) = [2; 4; 11].
Proof. reflexivity. Qed.

Example tabindex_minus_one :
  matches (element 9 "DIV" "div" [("tabindex", "-1")]) FOCUSABLE_ELEMENT_SELECTOR = true
  /\ matches (element 9 "DIV" "div" [("tabindex", "-1")]) TABBABLE_ELEMENT_SELECTOR = false.
Proof. split; reflexivity. Qed.

Example modifier_key :
  Containment.onKeyDown pageScope AltTab (world page (Some 3))
  = (world page (Some 3), Normal AltTab).
Proof. reflexivity. Qed.

Example skip_scope_after_restore_target :
  activeElement (fst (Restore.onKeyDown 9 pageScope Tab pageAtLastInput)) = Some 7.
Proof. reflexivity. Qed.

End Scenarios.

(** ** Facts about the document model *)

Module DOMFacts.
Import DOM.

Lemma Dom_ind' (P : Dom -> Prop) :
  (forall i cs, Forall P cs -> P (Node i cs)) -> forall t, P t.
Proof.
  intros step. fix IH 1. intros [i cs]. apply step.
  induction cs as [|c cs IHcs]; constructor; [apply IH | apply IHcs].
Qed.

Lemma locate_unfold n i cs :
  locate n (Node i cs) =
  if Nat.eqb (nodeId i) n then Some ([], Node i cs) else locate_among n i [] cs.
Proof. reflexivity. Qed.

Lemma plug_app inner outer t : plug (inner ++ outer) t = plug outer (plug inner t).
Proof.
  revert t. induction inner as [|fr inner IH]; intros t; simpl; [reflexivity | apply IH].
Qed.

Lemma preorder_forest_app l r :
  preorder_forest (l ++ r) = preorder_forest l ++ preorder_forest r.
Proof. unfold preorder_forest. apply flat_map_app. Qed.

Lemma preorder_forest_cons t r :
  preorder_forest (t :: r) = preorder t ++ preorder_forest r.
Proof. reflexivity. Qed.

Lemma preorder_unfold i cs : preorder (Node i cs) = i :: preorder_forest cs.
Proof. reflexivity. Qed.

Lemma preorder_head t : preorder t = info_of t :: preorder_forest (children_of t).
Proof. destruct t; reflexivity. Qed.

(** Document order of a tree, seen from a node located in it. *)
Lemma preorder_plug ctx t :
  preorder (plug ctx t) = before ctx ++ preorder t ++ after ctx.
Proof.
  revert t. induction ctx as [|fr outer IH]; intros t; simpl.
  - rewrite app_nil_r. reflexivity.
  - rewrite IH, preorder_unfold, preorder_forest_app, preorder_forest_cons.
    rewrite <- !app_assoc. simpl. rewrite <- !app_assoc. reflexivity.
Qed.

Lemma locate_among_sound n i :
  forall right left ctx found,
    Forall (fun c => forall ctx found, locate n c = Some (ctx, found) ->
                                       plug ctx found = c /\ id_of found = n) right ->
    locate_among n i left right = Some (ctx, found) ->
    plug ctx found = Node i (left ++ right) /\ id_of found = n.
Proof.
  induction right as [|c rest IH]; intros left ctx found Hall Hloc; simpl in Hloc.
  - discriminate.
  - inversion Hall as [|? ? Hc Hrest]; subst.
    destruct (locate n c) as [[ctx' found']|] eqn:E.
    + injection Hloc as <- <-. destruct (Hc _ _ eq_refl) as [Hplug Hid].
      split; [|exact Hid]. rewrite plug_app, Hplug. reflexivity.
    + destruct (IH _ _ _ Hrest Hloc) as [Hplug Hid]. split; [|exact Hid].
      rewrite Hplug, <- app_assoc. reflexivity.
Qed.

(** [locate] returns a node with the identity asked for, together with the
    context that rebuilds the tree around it. *)
Lemma locate_sound n t :
  forall ctx found, locate n t = Some (ctx, found) ->
                    plug ctx found = t /\ id_of found = n.
Proof.
  induction t as [i cs IH] using Dom_ind'. intros ctx found Hloc.
  rewrite locate_unfold in Hloc.
  destruct (Nat.eqb (nodeId i) n) eqn:E.
  - injection Hloc as <- <-. split; [reflexivity|]. apply Nat.eqb_eq in E. exact E.
  - apply (locate_among_sound n i cs [] ctx found IH Hloc).
Qed.

Lemma locate_among_none n i :
  forall right left,
    Forall (fun c => locate n c = None) right ->
    locate_among n i left right = None.
Proof.
  induction right as [|c rest IH]; intros left Hall; simpl; [reflexivity|].
  inversion Hall as [|? ? Hc Hrest]; subst. rewrite Hc. apply IH, Hrest.
Qed.

Lemma ids_unfold i cs : ids (Node i cs) = nodeId i :: map nodeId (preorder_forest cs).
Proof. reflexivity. Qed.

Lemma in_ids_forest n cs :
  In n (map nodeId (preorder_forest cs)) <-> exists c, In c cs /\ In n (ids c).
Proof.
  unfold preorder_forest, ids. rewrite in_map_iff. split.
  - intros (x & Hx & Hin). apply in_flat_map in Hin as (c & Hc & Hin).
    exists c. split; [exact Hc|]. apply in_map_iff. eauto.
  - intros (c & Hc & Hin). apply in_map_iff in Hin as (x & Hx & Hin).
    exists x. split; [exact Hx|]. apply in_flat_map. eauto.
Qed.

Lemma locate_none n t : ~ In n (ids t) -> locate n t = None.
Proof.
  induction t as [i cs IH] using Dom_ind'. intros Hnot.
  rewrite locate_unfold. rewrite ids_unfold in Hnot.
  destruct (Nat.eqb (nodeId i) n) eqn:E.
  - apply Nat.eqb_eq in E. exfalso. apply Hnot. left. exact E.
  - apply locate_among_none. rewrite List.Forall_forall in IH |- *.
    intros c Hc. apply IH; [exact Hc|]. intros Hin. apply Hnot. right.
    apply in_ids_forest. eauto.
Qed.

Lemma in_ids_plug ctx t : In (id_of t) (ids (plug ctx t)).
Proof.
  unfold ids. rewrite preorder_plug, preorder_head, !map_app. simpl.
  apply in_or_app. right. left. reflexivity.
Qed.

Lemma locate_some_in n t loc : locate n t = Some loc -> In n (ids t).
Proof.
  destruct loc as [ctx found]. intros H. apply locate_sound in H as [Hplug Hid].
  subst. apply in_ids_plug.
Qed.

Lemma locate_in n t : In n (ids t) -> exists loc, locate n t = Some loc.
Proof.
  intros Hin. destruct (locate n t) as [loc|] eqn:E; [eauto|].
  exfalso. revert Hin E. induction t as [i cs IH] using Dom_ind'. intros Hin E.
  rewrite locate_unfold in E. rewrite ids_unfold in Hin.
  destruct (Nat.eqb (nodeId i) n) eqn:En; [discriminate|].
  destruct Hin as [Hin|Hin]; [apply Nat.eqb_neq in En; contradiction|].
  apply in_ids_forest in Hin as (c & Hc & Hin).
  clear En. revert E. generalize (@nil Dom).
  induction cs as [|c' rest IHrest]; intros left E; [destruct Hc|].
  inversion IH as [|? ? Hc' Hrest]; subst. simpl in E.
  destruct (locate n c') as [[ctx' found']|] eqn:E'; [discriminate|].
  destruct Hc as [->|Hc].
  - exact (Hc' Hin eq_refl).
  - exact (IHrest Hrest Hc _ E).
Qed.

Lemma attached_iff d n : attached d n = true <-> In n (ids d).
Proof.
  unfold attached. split.
  - destruct (locate n d) eqn:E; [|discriminate]. intros _. eapply locate_some_in, E.
  - intros H. apply locate_in in H as [loc ->]. reflexivity.
Qed.

Lemma ids_plug ctx t :
  ids (plug ctx t) = map nodeId (before ctx) ++ ids t ++ map nodeId (after ctx).
Proof. unfold ids. rewrite preorder_plug, !map_app. reflexivity. Qed.

Lemma NoDup_app_inv {A} (l r : list A) :
  List.NoDup (l ++ r) ->
  List.NoDup l /\ List.NoDup r /\ (forall x, In x l -> In x r -> False).
Proof.
  induction l as [|a l IH]; simpl; intros H.
  - repeat split; [constructor | exact H | intros x []].
  - inversion H as [|? ? Hna Hnd]; subst. destruct (IH Hnd) as (Hl & Hr & Hdis).
    repeat split.
    + constructor; [|exact Hl]. intros Hin. apply Hna, in_or_app. left. exact Hin.
    + exact Hr.
    + intros x [->|Hx] Hxr; [apply Hna, in_or_app; right; exact Hxr | eauto].
Qed.

Lemma locate_among_skip n i rest :
  forall l left,
    Forall (fun c => locate n c = None) l ->
    locate_among n i left (l ++ rest) = locate_among n i (left ++ l) rest.
Proof.
  induction l as [|c l IH]; intros left Hall; simpl.
  - rewrite app_nil_r. reflexivity.
  - inversion Hall as [|? ? Hc Hl]; subst. rewrite Hc, (IH _ Hl), <- app_assoc.
    reflexivity.
Qed.

(** In a document without duplicate identities, [locate] finds a node
    exactly where it is. *)
Lemma locate_plug ctx t :
  List.NoDup (ids (plug ctx t)) -> locate (id_of t) (plug ctx t) = Some (ctx, t).
Proof.
  revert t. induction ctx as [|fr inner IH] using rev_ind; intros t Hnd.
  - destruct t as [i cs]. unfold id_of. simpl. rewrite Nat.eqb_refl. reflexivity.
  - rewrite plug_app in Hnd |- *. destruct fr as [p l r].
    cbn [plug f_parent f_left f_right] in Hnd |- *.
    rewrite locate_unfold. rewrite ids_unfold in Hnd.
    rewrite preorder_forest_app, preorder_forest_cons, !map_app in Hnd.
    inversion Hnd as [|? ? Hp Hrest]; subst.
    apply NoDup_app_inv in Hrest as (_ & Hmid & Hdis).
    apply NoDup_app_inv in Hmid as (Hin & _ & _).
    assert (Hself : In (id_of t) (ids (plug inner t))) by apply in_ids_plug.
    destruct (Nat.eqb (nodeId p) (id_of t)) eqn:E.
    + apply Nat.eqb_eq in E. exfalso. apply Hp. rewrite E.
      apply in_or_app. right. apply in_or_app. left. exact Hself.
    + rewrite locate_among_skip.
      * simpl. rewrite (IH t Hin). reflexivity.
      * apply List.Forall_forall. intros c Hc. apply locate_none. intros Hcin.
        apply (Hdis (id_of t)); [|apply in_or_app; left; exact Hself].
        apply in_ids_forest. eauto.
Qed.

Lemma NoDup_ids_plug ctx t : List.NoDup (ids (plug ctx t)) -> List.NoDup (ids t).
Proof.
  rewrite ids_plug. intros H. apply NoDup_app_inv in H as (_ & H & _).
  apply NoDup_app_inv in H as (H & _ & _). exact H.
Qed.

(** A node located inside a located subtree is located in the whole. *)
Lemma locate_nested d a ctxa ta b ctxb tb :
  List.NoDup (ids d) ->
  locate a d = Some (ctxa, ta) ->
  locate b ta = Some (ctxb, tb) ->
  locate b d = Some (ctxb ++ ctxa, tb).
Proof.
  intros Hnd Ha Hb. apply locate_sound in Ha as [Hpa _].
  apply locate_sound in Hb as [Hpb Hidb]. subst d ta b.
  rewrite <- plug_app in Hnd |- *. apply locate_plug, Hnd.
Qed.

(** Two nodes of a document with the same identity are the same node. *)
Lemma same_id_same_node (l : list NodeInfo) x y :
  List.NoDup (map nodeId l) -> In x l -> In y l -> nodeId x = nodeId y -> x = y.
Proof.
  induction l as [|a l IH]; simpl; intros Hnd Hx Hy Hid; [destruct Hx|].
  inversion Hnd as [|? ? Hna Hnd']; subst.
  destruct Hx as [->|Hx], Hy as [->|Hy]; try reflexivity.
  - exfalso. apply Hna. rewrite Hid. apply in_map, Hy.
  - exfalso. apply Hna. rewrite <- Hid. apply in_map, Hx.
  - apply IH; assumption.
Qed.

Lemma subtree_plug ctx t :
  List.NoDup (ids (plug ctx t)) -> subtree (plug ctx t) (id_of t) = Some t.
Proof. intros H. unfold subtree. rewrite (locate_plug _ _ H). reflexivity. Qed.

Lemma contains_iff d ctx t x :
  d = plug ctx t -> List.NoDup (ids d) ->
  contains d (id_of t) (Some x) = true <-> In x (ids t).
Proof.
  intros -> Hnd. unfold contains. rewrite (subtree_plug _ _ Hnd). apply attached_iff.
Qed.

End DOMFacts.

(** ** Facts about the tree walker *)

Module WalkerFacts.
Import DOM Selector Walker Host FocusScope Spec DOMFacts.

Section NoReject.
Variable f : NodeInfo -> FilterResult.
Hypothesis no_reject : forall i, f i <> FILTER_REJECT.

Lemma stops_forest_filter_of ts :
  Forall (fun t => stops f t = List.filter (fun i => isAccept (f i)) (preorder t)) ts ->
  stops_forest f ts = List.filter (fun i => isAccept (f i)) (preorder_forest ts).
Proof.
  induction 1 as [|t ts Ht _ IH]; [reflexivity|].
  unfold stops_forest, preorder_forest in *. simpl.
  rewrite List.filter_app, Ht, IH. reflexivity.
Qed.

(** Without rejections the walker stops exactly at the accepted nodes. *)
Lemma stops_filter t :
  stops f t = List.filter (fun i => isAccept (f i)) (preorder t).
Proof.
  induction t as [i cs IH] using Dom_ind'.
  apply stops_forest_filter_of in IH. unfold stops_forest, preorder_forest in IH.
  simpl. destruct (f i) eqn:E; simpl; rewrite ?IH; try reflexivity.
  exfalso. exact (no_reject i E).
Qed.

Lemma stops_forest_filter ts :
  stops_forest f ts = List.filter (fun i => isAccept (f i)) (preorder_forest ts).
Proof.
  apply stops_forest_filter_of, List.Forall_forall. intros t _. apply stops_filter.
Qed.

Lemma following_filter ctx t :
  following f (ctx, t) =
  List.filter (fun i => isAccept (f i)) (preorder_forest (children_of t) ++ after ctx).
Proof.
  unfold following. simpl. rewrite List.filter_app, stops_forest_filter. f_equal.
  induction ctx as [|fr outer IH]; simpl; [reflexivity|].
  rewrite List.filter_app, IH, stops_forest_filter. reflexivity.
Qed.

Lemma preceding_filter ctx t :
  preceding f (ctx, t) = rev (List.filter (fun i => isAccept (f i)) (before ctx)).
Proof.
  unfold preceding. simpl.
  induction ctx as [|fr outer IH]; simpl; [reflexivity|].
  rewrite IH, List.filter_app, rev_app_distr. simpl.
  rewrite stops_forest_filter.
  destruct (isAccept (f (f_parent fr))); simpl.
  - rewrite <- app_assoc. reflexivity.
  - rewrite app_nil_r. reflexivity.
Qed.
End NoReject.

Lemma tabWalker_no_reject scope r c d i :
  filterNode (tabWalker scope r c) d i <> FILTER_REJECT.
Proof.
  unfold filterNode, tabWalker, acceptNodeOf. simpl.
  destruct (isElement i); [|discriminate].
  match goal with |- (if ?b then _ else _) <> _ => destruct b; discriminate end.
Qed.

Lemma tabWalker_accept scope r c d i :
  isAccept (filterNode (tabWalker scope r c) d i) = isTabbable d scope i.
Proof.
  unfold filterNode, isTabbable, tabWalker. simpl.
  destruct (isElement i) eqn:E; [reflexivity|].
  unfold acceptNodeOf, matches. simpl. rewrite E. reflexivity.
Qed.

Lemma head_rev_last {A} (l : list A) : head (rev l) = last l.
Proof.
  induction l as [|x l _] using rev_ind; [reflexivity|].
  rewrite rev_app_distr, last_snoc. reflexivity.
Qed.

Lemma filter_ext_in_bool {A} (p q : A -> bool) l :
  (forall x, p x = q x) -> List.filter p l = List.filter q l.
Proof. intros H. apply List.filter_ext. exact H. Qed.

(** [nextNode()] of a tabbable-only walker standing on a located node. *)
Lemma nextNode_tabWalker scope r c d R ctx t :
  subtree d r = Some R ->
  locate c R = Some (ctx, t) ->
  fst (nextNode (tabWalker scope r c) d) =
  option_map nodeId
    (head (List.filter (isTabbable d scope) (preorder_forest (children_of t) ++ after ctx))).
Proof.
  intros HR Hc. unfold nextNode, position. simpl. rewrite HR, Hc.
  rewrite following_filter by (intros i; apply tabWalker_no_reject).
  rewrite (filter_ext_in_bool _ (isTabbable d scope)) by (intros x; apply tabWalker_accept).
  destruct (head _); reflexivity.
Qed.

Lemma previousNode_tabWalker scope r c d R ctx t :
  subtree d r = Some R ->
  locate c R = Some (ctx, t) ->
  fst (previousNode (tabWalker scope r c) d) =
  option_map nodeId (last (List.filter (isTabbable d scope) (before ctx))).
Proof.
  intros HR Hc. unfold previousNode, position. simpl. rewrite HR, Hc.
  rewrite preceding_filter by (intros i; apply tabWalker_no_reject).
  rewrite (filter_ext_in_bool _ (isTabbable d scope)) by (intros x; apply tabWalker_accept).
  rewrite head_rev_last. destruct (last _); reflexivity.
Qed.

End WalkerFacts.

(** ** The shape of a mounted scope *)

Module ScopeFacts.
Import DOM Selector Walker Host FocusScope Spec DOMFacts WalkerFacts.

Lemma NoDup_roots ts :
  List.NoDup (map nodeId (preorder_forest ts)) -> List.NoDup (map id_of ts).
Proof.
  induction ts as [|t ts IH]; intros H; [constructor|].
  rewrite preorder_forest_cons, map_app in H. cbn [map].
  apply NoDup_app_inv in H as (Ht & Hts & Hdis). constructor; [|apply IH, Hts].
  intros Hin. apply in_map_iff in Hin as (t' & Hid & Hin).
  apply (Hdis (id_of t)).
  - rewrite preorder_head. left. reflexivity.
  - apply in_ids_forest. exists t'. split; [exact Hin|].
    rewrite <- Hid. unfold ids. rewrite preorder_head. left. reflexivity.
Qed.

Lemma collect_split endRef right :
  List.NoDup (map id_of right) ->
  existsb (fun t => Nat.eqb (id_of t) endRef && isElement (info_of t)) right = true ->
  exists mid E post,
    right = mid ++ E :: post /\ id_of E = endRef /\ isElement (info_of E) = true
    /\ collectLoop endRef right = map id_of mid.
Proof.
  induction right as [|c rest IH]; simpl; intros Hnd Hex; [discriminate|].
  inversion Hnd as [|? ? Hc Hrest]; subst.
  destruct (Nat.eqb (id_of c) endRef) eqn:E.
  - apply Nat.eqb_eq in E. exists [], c, rest. simpl.
    destruct (isElement (info_of c)) eqn:Ec; [auto|].
    simpl in Hex. apply existsb_exists in Hex as (t & Ht & Hid).
    apply andb_true_iff in Hid as [Hid _]. apply Nat.eqb_eq in Hid.
    exfalso. apply Hc. rewrite E, <- Hid. apply in_map, Ht.
  - simpl in Hex. destruct (IH Hrest Hex) as (mid & E' & post & -> & Hid & Hel & Hloop).
    exists (c :: mid), E', post. simpl. rewrite Hloop. auto.
Qed.

(** A mounted scope has the shape [FocusScope] renders. *)
Lemma mounted_shape d startRef endRef scope :
  Mounted d startRef endRef scope ->
  exists ctx P pre S mid E post, Shape d startRef endRef scope ctx P pre S mid E post.
Proof.
  intros [Hnd Hsent Hscope]. unfold sentinels in Hsent. unfold collectScope, siblingsAfter in Hscope.
  destruct (locate startRef d) as [[[|fr ctx] S]|] eqn:Hloc; try discriminate.
  apply andb_true_iff in Hsent as [Hsent Hex]. apply andb_true_iff in Hsent as [HP HS].
  destruct (locate_sound _ _ _ _ Hloc) as [Hplug Hid]. destruct fr as [P pre right].
  simpl in *.
  assert (Hroots : List.NoDup (map id_of right)).
  { rewrite <- Hplug in Hnd. apply NoDup_ids_plug in Hnd. rewrite ids_unfold in Hnd.
    inversion Hnd as [|? ? _ Hnd']; subst.
    rewrite preorder_forest_app, preorder_forest_cons, !map_app in Hnd'.
    apply NoDup_app_inv in Hnd' as (_ & Hnd' & _).
    apply NoDup_app_inv in Hnd' as (_ & Hnd' & _). apply NoDup_roots, Hnd'. }
  destruct (collect_split endRef right Hroots Hex) as (mid & E & post & -> & HidE & HE & Hloop).
  exists ctx, P, pre, S, mid, E, post.
  constructor; auto. rewrite Hscope. exact Hloop.
Qed.

Lemma filter_nil {A} (p : A -> bool) l :
  (forall x, In x l -> p x = false) -> List.filter p l = [].
Proof.
  induction l as [|a l IH]; simpl; intros H; [reflexivity|].
  rewrite (H a) by (left; reflexivity). apply IH. intros x Hx. apply H. right. exact Hx.
Qed.

(** A test that only nodes of the middle part can pass sees nothing in the
    parts around it. *)
Lemma filter_outside (p : NodeInfo -> bool) (A Mid B : list NodeInfo) :
  List.NoDup (map nodeId (A ++ Mid ++ B)) ->
  (forall x, p x = true -> In (nodeId x) (map nodeId Mid)) ->
  List.filter p (A ++ Mid ++ B) = List.filter p Mid.
Proof.
  intros Hnd Hp. rewrite !map_app in Hnd.
  apply NoDup_app_inv in Hnd as (_ & Hnd & HA).
  apply NoDup_app_inv in Hnd as (_ & _ & HB).
  rewrite !List.filter_app.
  rewrite (filter_nil p A), (filter_nil p B), app_nil_r; [reflexivity| |].
  - intros x Hx. destruct (p x) eqn:E; [|reflexivity]. exfalso.
    apply (HB (nodeId x)); [apply Hp, E | apply in_map, Hx].
  - intros x Hx. destruct (p x) eqn:E; [|reflexivity]. exfalso.
    apply (HA (nodeId x)); [apply in_map, Hx | apply in_or_app; left; apply Hp, E].
Qed.

Lemma inScope_none d scope : isElementInScope d None scope = false.
Proof. unfold isElementInScope. induction scope as [|a l IH]; [reflexivity | exact IH]. Qed.

Lemma isTabbable_inScope d scope x :
  isTabbable d (Some scope) x = true ->
  isElementInScope d (Some (nodeId x)) scope = true.
Proof.
  unfold isTabbable, acceptNodeOf. simpl.
  destruct (matches x TABBABLE_ELEMENT_SELECTOR && isElementVisible d x None
            && isElementInScope d (Some (nodeId x)) scope) eqn:E; [|discriminate].
  intros _. apply andb_true_iff in E as [_ E]. exact E.
Qed.

Section Shaped.
Context {d : Dom} {startRef endRef : NodeId} {scope : list NodeId}
        {ctx : list Frame} {P : NodeInfo} {pre : list Dom} {S : Dom}
        {mid : list Dom} {E : Dom} {post : list Dom}.
Hypothesis shape : Shape d startRef endRef scope ctx P pre S mid E post.

Lemma shape_root_ids : List.NoDup (ids (Node P (pre ++ S :: mid ++ E :: post))).
Proof. destruct shape. subst d. eapply NoDup_ids_plug; eassumption. Qed.

Lemma shape_subtree :
  subtree d (nodeId P) = Some (Node P (pre ++ S :: mid ++ E :: post)).
Proof.
  destruct shape as [Hnd Hd _ _ _ _ _ _]. rewrite Hd in Hnd |- *.
  apply (subtree_plug ctx (Node P (pre ++ S :: mid ++ E :: post)) Hnd).
Qed.

Lemma shape_locate_child m1 M m2 :
  mid = m1 ++ M :: m2 ->
  locate (id_of M) d
  = Some (mkFrame P (pre ++ S :: m1) (m2 ++ E :: post) :: ctx, M).
Proof.
  intros Hmid. destruct shape as [Hnd Hd _ _ _ _ _ _].
  assert (Hplug : d = plug (mkFrame P (pre ++ S :: m1) (m2 ++ E :: post) :: ctx) M).
  { rewrite Hd, Hmid. simpl. repeat (rewrite <- ?app_assoc; simpl).
    reflexivity. }
  rewrite Hplug in Hnd |- *. apply locate_plug, Hnd.
Qed.

(** A node is in the scope exactly when it lies below one of the nodes
    between the sentinels. *)
Lemma inScope_iff x :
  isElementInScope d (Some x) scope = true
  <-> In x (map nodeId (preorder_forest mid)).
Proof.
  unfold isElementInScope. rewrite existsb_exists, in_ids_forest.
  destruct shape as [Hnd _ _ _ Hscope _ _ _]. split.
  - intros (node & Hnode & Hc). rewrite Hscope in Hnode.
    apply in_map_iff in Hnode as (M & <- & HM).
    destruct (in_split _ _ HM) as (m1 & m2 & Hmid).
    exists M. split; [exact HM|].
    unfold contains, subtree in Hc. rewrite (shape_locate_child _ _ _ Hmid) in Hc.
    apply attached_iff, Hc.
  - intros (M & HM & Hx). exists (id_of M). split.
    + rewrite Hscope. apply in_map, HM.
    + destruct (in_split _ _ HM) as (m1 & m2 & Hmid).
      unfold contains, subtree. rewrite (shape_locate_child _ _ _ Hmid).
      apply attached_iff, Hx.
Qed.

Lemma tabbable_in_mid x :
  isTabbable d (Some scope) x = true -> In (nodeId x) (map nodeId (preorder_forest mid)).
Proof. intros H. apply inScope_iff, isTabbable_inScope, H. Qed.

Lemma preorder_root :
  preorder (Node P (pre ++ S :: mid ++ E :: post))
  = (P :: preorder_forest pre ++ preorder S)
      ++ preorder_forest mid ++ (preorder E ++ preorder_forest post).
Proof.
  rewrite preorder_unfold, !preorder_forest_app, preorder_forest_cons,
    preorder_forest_app, preorder_forest_cons.
  simpl. rewrite <- !app_assoc. reflexivity.
Qed.

Lemma tabbables_root :
  List.filter (isTabbable d (Some scope)) (preorder (Node P (pre ++ S :: mid ++ E :: post)))
  = List.filter (isTabbable d (Some scope)) (preorder_forest mid).
Proof.
  rewrite preorder_root. apply filter_outside; [|apply tabbable_in_mid].
  rewrite <- preorder_root. apply shape_root_ids.
Qed.

(** The tabbable descendants of the scope all lie between the sentinels. *)
Lemma tabbables_mid :
  tabbables d scope = List.filter (isTabbable d (Some scope)) (preorder_forest mid).
Proof.
  unfold tabbables. rewrite <- tabbables_root.
  pose proof shape as [Hnd Hd _ _ _ _ _ _].
  rewrite Hd at 2. rewrite preorder_plug.
  apply filter_outside.
  - rewrite <- preorder_plug, <- Hd. exact Hnd.
  - intros x Hx. apply tabbable_in_mid in Hx. rewrite preorder_root, !map_app.
    apply in_or_app. right. apply in_or_app. left. exact Hx.
Qed.

Lemma in_root c :
  In c (map nodeId (preorder_forest mid)) ->
  In c (ids (Node P (pre ++ S :: mid ++ E :: post))).
Proof.
  intros H. unfold ids. rewrite preorder_root, !map_app.
  apply in_or_app. right. apply in_or_app. left. exact H.
Qed.

(** Where the walker of the scope goes from a node inside the scope: the
    tabbable list splits around the node, [nextNode()] gives the head of
    what follows and [previousNode()] the last of what precedes. *)
Lemma walk_from c :
  In c (map nodeId (preorder_forest mid)) ->
  exists ci X Y,
    nodeId ci = c
    /\ In ci (preorder d)
    /\ tabbables d scope
       = X ++ (if isTabbable d (Some scope) ci then [ci] else []) ++ Y
    /\ fst (nextNode (tabWalker (Some scope) (nodeId P) c) d) = option_map nodeId (head Y)
    /\ fst (previousNode (tabWalker (Some scope) (nodeId P) c) d)
       = option_map nodeId (last X).
Proof.
  intros Hc. apply in_root in Hc. destruct (locate_in _ _ Hc) as [[cctx tc] Hloc].
  destruct (locate_sound _ _ _ _ Hloc) as [Hplug Hid].
  exists (info_of tc),
         (List.filter (isTabbable d (Some scope)) (before cctx)),
         (List.filter (isTabbable d (Some scope))
                      (preorder_forest (children_of tc) ++ after cctx)).
  split; [exact Hid|]. split.
  { pose proof shape as [_ Hd _ _ _ _ _ _]. rewrite Hd, preorder_plug, <- Hplug.
    apply in_or_app. right. apply in_or_app. left.
    rewrite preorder_plug. apply in_or_app. right. rewrite preorder_head. left. reflexivity. }
  split.
  { rewrite tabbables_mid, <- tabbables_root, <- Hplug, preorder_plug, preorder_head.
    rewrite List.filter_app. simpl. rewrite List.filter_app.
    destruct (isTabbable d (Some scope) (info_of tc)); simpl; rewrite ?List.filter_app;
      reflexivity. }
  split.
  - apply (nextNode_tabWalker _ _ _ _ _ _ _ shape_subtree Hloc).
  - apply (previousNode_tabWalker _ _ _ _ _ _ _ shape_subtree Hloc).
Qed.

Lemma locate_start :
  locate startRef (Node P (pre ++ S :: mid ++ E :: post))
  = Some ([mkFrame P pre (mid ++ E :: post)], S).
Proof.
  pose proof shape_root_ids as Hnd. destruct shape as [_ _ <- _ _ _ _ _].
  apply (locate_plug [mkFrame P pre (mid ++ E :: post)] S Hnd).
Qed.

Lemma locate_end :
  locate endRef (Node P (pre ++ S :: mid ++ E :: post))
  = Some ([mkFrame P (pre ++ S :: mid) post], E).
Proof.
  pose proof shape_root_ids as Hnd. destruct shape as [_ _ _ <- _ _ _ _].
  assert (Heq : Node P (pre ++ S :: mid ++ E :: post)
                = plug [mkFrame P (pre ++ S :: mid) post] E).
  { simpl. rewrite <- app_assoc. reflexivity. }
  rewrite Heq in Hnd |- *. apply locate_plug, Hnd.
Qed.

(** From the start sentinel, [nextNode()] gives the first tabbable node of
    the scope. *)
Lemma walk_from_start :
  fst (nextNode (tabWalker (Some scope) (nodeId P) startRef) d)
  = option_map nodeId (head (tabbables d scope)).
Proof.
  rewrite (nextNode_tabWalker _ _ _ _ _ _ _ shape_subtree locate_start).
  do 2 f_equal. rewrite tabbables_mid. simpl. rewrite app_nil_r.
  rewrite preorder_forest_app, preorder_forest_cons.
  apply filter_outside; [|apply tabbable_in_mid].
  pose proof shape_root_ids as Hnd. unfold ids in Hnd.
  rewrite preorder_root, (preorder_head S) in Hnd.
  change (P :: preorder_forest pre ++ info_of S :: preorder_forest (children_of S))
    with ((P :: preorder_forest pre) ++ info_of S :: preorder_forest (children_of S)) in Hnd.
  rewrite <- app_assoc in Hnd. rewrite map_app in Hnd.
  apply NoDup_app_inv in Hnd as (_ & Hnd & _). simpl in Hnd.
  inversion Hnd as [|? ? _ Hnd']; subst. exact Hnd'.
Qed.

(** From the end sentinel, [previousNode()] gives the last tabbable node of
    the scope. *)
Lemma walk_from_end :
  fst (previousNode (tabWalker (Some scope) (nodeId P) endRef) d)
  = option_map nodeId (last (tabbables d scope)).
Proof.
  rewrite (previousNode_tabWalker _ _ _ _ _ _ _ shape_subtree locate_end).
  do 2 f_equal. rewrite tabbables_mid.
  assert (Hb : before [mkFrame P (pre ++ S :: mid) post]
               = (P :: preorder_forest pre ++ preorder S) ++ preorder_forest mid ++ []).
  { simpl. rewrite preorder_forest_app, preorder_forest_cons, app_nil_r, <- app_assoc.
    reflexivity. }
  rewrite Hb. apply filter_outside; [|apply tabbable_in_mid].
  pose proof shape_root_ids as Hnd. unfold ids in Hnd. rewrite preorder_root in Hnd.
  rewrite app_assoc in Hnd. rewrite map_app in Hnd.
  apply NoDup_app_inv in Hnd as (Hnd & _ & _).
  rewrite app_nil_r. exact Hnd.
Qed.

Lemma first_parent M rest :
  mid = M :: rest -> parentElement d (id_of M) = Some P.
Proof.
  intros Hmid. unfold parentElement, parentNode.
  rewrite (shape_locate_child [] M rest Hmid). simpl.
  destruct shape as [_ _ _ _ _ HP _ _]. rewrite HP. reflexivity.
Qed.

Lemma last_filter_snoc {A} (p : A -> bool) l x :
  p x = true -> last (List.filter p (l ++ [x])) = Some x.
Proof. intros H. rewrite List.filter_app. simpl. rewrite H. apply last_snoc. Qed.

Lemma first_previous M rest :
  mid = M :: rest -> previousElementSibling d (id_of M) = Some (info_of S).
Proof.
  intros Hmid. unfold previousElementSibling, siblingsBefore.
  rewrite (shape_locate_child [] M rest Hmid). simpl.
  change (pre ++ [S]) with (pre ++ [S]). rewrite map_app. simpl.
  apply last_filter_snoc. destruct shape; assumption.
Qed.

Lemma last_next m1 M :
  mid = m1 ++ [M] -> nextElementSibling d (id_of M) = Some (info_of E).
Proof.
  intros Hmid. unfold nextElementSibling, siblingsAfter.
  rewrite (shape_locate_child m1 M [] Hmid). simpl.
  destruct shape as [_ _ _ _ _ _ _ HE]. rewrite HE. reflexivity.
Qed.

End Shaped.

End ScopeFacts.

(** ** The containment listener on a mounted scope *)

Module ContainmentFacts.
Import DOM Selector Walker Host FocusScope Spec DOMFacts WalkerFacts ScopeFacts.

Lemma bind_normal {A B} (m : JS A) (k : A -> JS B) w w' a :
  m w = (w', Normal a) -> bind m k w = k a w'.
Proof. intros H. unfold bind. rewrite H. reflexivity. Qed.

Lemma bind_throw {A B} (m : JS A) (k : A -> JS B) w w' e :
  m w = (w', Throw e) -> bind m k w = (w', Throw e).
Proof. intros H. unfold bind. rewrite H. reflexivity. Qed.

Lemma bind_gets {A B} (f : World -> A) (k : A -> JS B) w : bind (gets f) k w = k (f w) w.
Proof. reflexivity. Qed.

Lemma bind_ret {A B} (a : A) (k : A -> JS B) w : bind (ret a) k w = k a w.
Proof. reflexivity. Qed.

Lemma bind_modify {B} (f : World -> World) (k : unit -> JS B) w :
  bind (modify f) k w = k tt (f w).
Proof. reflexivity. Qed.

Lemma getFocusableTreeWalker_eq r scope w :
  getFocusableTreeWalker (Some r) tabbableOnly scope w = (w, Normal (tabWalker scope r r)).
Proof. reflexivity. Qed.

Lemma setCurrentNode_eq wk c w :
  setCurrentNode wk (Some c) w = (w, Normal (mkWalker (Walker.root wk) (acceptNode wk) c)).
Proof. reflexivity. Qed.

Lemma focusElement_eq o scroll w :
  focusElement o scroll w = (fst (focusElement o scroll w), Normal tt).
Proof. destruct o as [el|]; [destruct scroll|]; reflexivity. Qed.

Lemma nextNode_none wk d : fst (nextNode wk d) = None -> snd (nextNode wk d) = wk.
Proof.
  unfold nextNode. destruct (position wk d); [|reflexivity].
  unfold moveTo. destruct (head _); [discriminate|reflexivity].
Qed.

Lemma previousNode_none wk d : fst (previousNode wk d) = None -> snd (previousNode wk d) = wk.
Proof.
  unfold previousNode. destruct (position wk d); [|reflexivity].
  unfold moveTo. destruct (head _); [discriminate|reflexivity].
Qed.

Lemma adjacent_eq shift wk w :
  adjacent shift wk w = (w, Normal (stepOf shift wk (document w))).
Proof. destruct shift; reflexivity. Qed.

Lemma stepOf_none shift wk d : fst (stepOf shift wk d) = None -> snd (stepOf shift wk d) = wk.
Proof. destruct shift; [apply previousNode_none | apply nextNode_none]. Qed.

Section ShapedWorld.
Context {w : World} {startRef endRef : NodeId} {scope : list NodeId}
        {ctx : list Frame} {P : NodeInfo} {pre : list Dom} {S : Dom}
        {mid : list Dom} {E : Dom} {post : list Dom}.
Hypothesis shape : Shape (document w) startRef endRef scope ctx P pre S mid E post.
Hypothesis nonempty : mid <> [].

Lemma head_scope : exists M rest, mid = M :: rest /\ head scope = Some (id_of M).
Proof.
  destruct shape as [_ _ _ _ -> _ _ _]. destruct mid as [|M rest]; [contradiction|].
  exists M, rest. split; reflexivity.
Qed.

Lemma last_scope : exists m1 M, mid = m1 ++ [M] /\ last scope = Some (id_of M).
Proof.
  destruct shape as [_ _ _ _ -> _ _ _].
  destruct (exists_last nonempty) as (m1 & M & ->). exists m1, M. split; [reflexivity|].
  rewrite map_app. simpl. apply last_snoc.
Qed.

Lemma getScopeRoot_eq w' :
  document w' = document w ->
  getScopeRoot scope w' = (w', Normal (Some (nodeId P))).
Proof.
  intros Hd. destruct head_scope as (M & rest & Hmid & Hh).
  unfold getScopeRoot. rewrite Hh. simpl. unfold bind, ret, gets. simpl.
  rewrite Hd, (first_parent shape M rest Hmid). reflexivity.
Qed.

Lemma wrapSeed_eq shift w' :
  document w' = document w ->
  Containment.wrapSeed scope shift w'
  = (w', Normal (Some (if shift then endRef else startRef))).
Proof.
  intros Hd. unfold Containment.wrapSeed. destruct shift.
  - destruct last_scope as (m1 & M & Hmid & Hl). rewrite Hl. unfold bind, gets. simpl.
    rewrite Hd, (last_next shape m1 M Hmid). simpl. destruct shape as [_ _ _ <- _ _ _ _].
    reflexivity.
  - destruct head_scope as (M & rest & Hmid & Hh). rewrite Hh. unfold bind, gets. simpl.
    rewrite Hd, (first_previous shape M rest Hmid). simpl. destruct shape as [_ _ <- _ _ _ _ _].
    reflexivity.
Qed.
End ShapedWorld.

(** The containment listener, for a key it handles, with focus inside a
    mounted scope: it never throws, it consumes the event, and it asks for
    focus on the neighbour or, past the end, on the other end of the list. *)
Lemma onKeyDown_shaped w startRef endRef scope ctx P pre S mid E post e c :
  Shape (document w) startRef endRef scope ctx P pre S mid E post ->
  ignoredKey e = false ->
  activeElement w = Some c ->
  In c (map nodeId (preorder_forest mid)) ->
  exists ci X Y,
    nodeId ci = c
    /\ In ci (preorder (document w))
    /\ tabbables (document w) scope
       = X ++ (if isTabbable (document w) (Some scope) ci then [ci] else []) ++ Y
    /\ Containment.onKeyDown scope e w
       = (fst (focusElement (wrapTarget (document w) scope (shiftKey e) X Y) true w),
          Normal (preventDefault e)).
Proof.
  intros Hs Hkey Hact Hc.
  destruct (walk_from Hs c Hc) as (ci & X & Y & Hid & Hin & HT & Hnext & Hprev).
  exists ci, X, Y. repeat (split; [assumption|]).
  assert (Hne : mid <> []) by (intros ->; destruct Hc).
  unfold Containment.onKeyDown. rewrite Hkey.
  rewrite bind_gets, Hact, bind_gets, (proj2 (inScope_iff Hs c) Hc).
  change (negb true) with false. cbv iota.
  rewrite (bind_normal _ _ _ _ _ (getScopeRoot_eq Hs Hne w eq_refl)).
  rewrite (bind_normal _ _ _ _ _ (getFocusableTreeWalker_eq _ _ _)).
  rewrite (bind_normal _ _ _ _ _ (setCurrentNode_eq _ _ _)).
  change (mkWalker (Walker.root (tabWalker (Some scope) (nodeId P) (nodeId P)))
                   (acceptNode (tabWalker (Some scope) (nodeId P) (nodeId P))) c)
    with (tabWalker (Some scope) (nodeId P) c).
  rewrite (bind_normal _ _ _ _ _ (adjacent_eq _ _ _)).
  generalize (shiftKey e). intros shift.
  assert (Hstep : fst (stepOf shift (tabWalker (Some scope) (nodeId P) c) (document w))
                  = option_map nodeId (if shift then last X else head Y)).
  { destruct shift; simpl; assumption. }
  pose proof (stepOf_none shift (tabWalker (Some scope) (nodeId P) c) (document w)) as Hsame.
  destruct (stepOf shift (tabWalker (Some scope) (nodeId P) c) (document w)) as [o wk'].
  simpl in Hstep, Hsame. subst o.
  destruct (if shift then last X else head Y) as [x|] eqn:Hx; simpl option_map; cbv iota.
  - rewrite bind_ret. rewrite (bind_normal _ _ _ _ _ (focusElement_eq _ _ _)).
    unfold ret. do 3 f_equal. unfold wrapTarget. destruct shift; rewrite Hx; reflexivity.
  - rewrite (Hsame eq_refl).
    unfold bind at 1.
    rewrite (bind_normal _ _ _ _ _ (wrapSeed_eq Hs Hne shift w eq_refl)).
    rewrite (bind_normal _ _ _ _ _ (setCurrentNode_eq _ _ _)).
    change (mkWalker (Walker.root (tabWalker (Some scope) (nodeId P) c))
                     (acceptNode (tabWalker (Some scope) (nodeId P) c))
                     (if shift then endRef else startRef))
      with (tabWalker (Some scope) (nodeId P) (if shift then endRef else startRef)).
    rewrite (bind_normal _ _ _ _ _ (adjacent_eq _ _ _)).
    assert (Hwrap : fst (stepOf shift (tabWalker (Some scope) (nodeId P)
                                                 (if shift then endRef else startRef))
                                (document w))
                    = wrapTarget (document w) scope shift X Y).
    { unfold wrapTarget. destruct shift; rewrite Hx; simpl.
      - apply (walk_from_end Hs).
      - apply (walk_from_start Hs). }
    destruct (stepOf shift _ (document w)) as [o wk'']. simpl in Hwrap. subst o.
    unfold ret at 1. rewrite (bind_normal _ _ _ _ _ (focusElement_eq _ _ _)).
    reflexivity.
Qed.

Lemma NoDup_map_filter {A B} (f : A -> B) (p : A -> bool) l :
  List.NoDup (map f l) -> List.NoDup (map f (List.filter p l)).
Proof.
  induction l as [|a l IH]; simpl; intros H; [constructor|].
  inversion H as [|? ? Hna Hnd]; subst. destruct (p a); simpl; [|apply IH, Hnd].
  constructor; [|apply IH, Hnd]. intros Hin. apply Hna.
  apply in_map_iff in Hin as (x & Hx & Hin). apply in_map_iff. exists x. split; [exact Hx|].
  apply List.filter_In in Hin as [Hin _]. exact Hin.
Qed.

Lemma subtree_info d x :
  List.NoDup (ids d) -> In x (preorder d) ->
  exists t, subtree d (nodeId x) = Some t /\ info_of t = x.
Proof.
  intros Hnd Hx. assert (Hin : In (nodeId x) (ids d)) by (apply in_map, Hx).
  destruct (locate_in _ _ Hin) as [[ctx t] Hloc]. exists t. unfold subtree. rewrite Hloc.
  split; [reflexivity|]. destruct (locate_sound _ _ _ _ Hloc) as [Hplug Hid].
  apply (same_id_same_node (preorder d)); [exact Hnd | | exact Hx | exact Hid].
  rewrite <- Hplug, preorder_plug, preorder_head. apply in_or_app. right. left. reflexivity.
Qed.

Lemma focus_takes w x scroll :
  List.NoDup (ids (document w)) -> In x (preorder (document w)) -> hostFocusable x = true ->
  document (fst (focusElement (Some (nodeId x)) scroll w)) = document w
  /\ activeElement (fst (focusElement (Some (nodeId x)) scroll w)) = Some (nodeId x).
Proof.
  intros Hnd Hx Hf. destruct (subtree_info _ _ Hnd Hx) as (t & Ht & Hi).
  unfold focusElement, focus, modify. destruct scroll; simpl; rewrite Ht, Hi, Hf; simpl; auto.
Qed.

Lemma tabbables_in d scope x : In x (tabbables d scope) -> In x (preorder d) /\ isTabbable d (Some scope) x = true.
Proof. unfold tabbables. intros H. apply List.filter_In in H. exact H. Qed.

Lemma tabbables_NoDup d scope : List.NoDup (ids d) -> List.NoDup (map nodeId (tabbables d scope)).
Proof. apply NoDup_map_filter. Qed.

Lemma NoDup_map_inv {A B} (f : A -> B) l : List.NoDup (map f l) -> List.NoDup l.
Proof.
  induction l as [|a l IH]; simpl; intros H; constructor; inversion H; subst.
  - intros Hin. apply H2. apply in_map, Hin.
  - apply IH. assumption.
Qed.

Lemma split_index (T X Y : list NodeInfo) ci i :
  List.NoDup T -> T = X ++ ci :: Y -> T !! i = Some ci -> i = length X.
Proof.
  intros Hnd -> Hi. apply NoDup_ListNoDup in Hnd.
  eapply NoDup_lookup; [exact Hnd | exact Hi | apply list_lookup_middle; reflexivity].
Qed.

Lemma wrapTarget_index d scope shift X Y ci :
  tabbables d scope = X ++ ci :: Y ->
  wrapTarget d scope shift X Y
  = nodeId <$> tabbables d scope !! nextIndex (length (tabbables d scope)) shift (length X).
Proof.
  intros HT. unfold wrapTarget, nextIndex. rewrite HT. rewrite length_app.
  change (length (ci :: Y)) with (S (length Y)).
  destruct shift.
  - destruct X as [|x0 X' _] using rev_ind.
    + change (length []) with 0.
      replace ((0 + (0 + S (length Y) - 1)) mod (0 + S (length Y))) with (length Y)
        by (rewrite Nat.mod_small; lia).
      change (last []) with (@None NodeInfo). cbv iota.
      rewrite last_lookup. reflexivity.
    + rewrite last_snoc, length_app. change (length [x0]) with 1.
      replace (length X' + 1 + (length X' + 1 + S (length Y) - 1))
        with (length X' + 1 * (length X' + 1 + S (length Y))) by lia.
      rewrite Nat.Div0.mod_add, Nat.mod_small by lia.
      rewrite <- app_assoc. change ([x0] ++ ci :: Y) with (x0 :: ci :: Y).
      rewrite list_lookup_middle by reflexivity. reflexivity.
  - destruct Y as [|y Y'].
    + change (length []) with 0.
      replace ((length X + 1) mod (length X + 1)) with 0
        by (symmetry; apply Nat.Div0.mod_same).
      change (head []) with (@None NodeInfo). cbv iota.
      destruct X; reflexivity.
    + rewrite Nat.mod_small by (simpl; lia).
      replace (X ++ ci :: y :: Y') with ((X ++ [ci]) ++ y :: Y')
        by (rewrite <- app_assoc; reflexivity).
      rewrite list_lookup_middle by (rewrite length_app; simpl; lia). reflexivity.
Qed.

Lemma press_step w startRef endRef scope shift i ci :
  Mounted (document w) startRef endRef scope ->
  takeFocus (tabbables (document w) scope) ->
  tabbables (document w) scope !! i = Some ci ->
  activeElement w = Some (nodeId ci) ->
  document (pressTab scope shift w) = document w
  /\ activeElement (pressTab scope shift w)
     = nodeId <$> tabbables (document w) scope
                    !! nextIndex (length (tabbables (document w) scope)) shift i.
Proof.
  intros Hm Hfocus Hi Hact.
  destruct (mounted_shape _ _ _ _ Hm) as (ctx & P & pre & S & mid & E & post & Hs).
  pose proof (shape_ids _ _ _ _ _ _ _ _ _ _ _ Hs) as Hnd.
  assert (Hci : In ci (tabbables (document w) scope)).
  { apply list_elem_of_In, list_elem_of_lookup. eauto. }
  destruct (tabbables_in _ _ _ Hci) as [Hpre Htab].
  assert (Hc : In (nodeId ci) (map nodeId (preorder_forest mid))).
  { apply (tabbable_in_mid Hs), Htab. }
  destruct (onKeyDown_shaped w _ _ _ _ _ _ _ _ _ _ (TabKey shift) _ Hs eq_refl Hact Hc)
    as (ci' & X & Y & Hid & Hin' & HT & Hrun).
  assert (ci' = ci) by (apply (same_id_same_node (preorder (document w))); assumption).
  subst ci'. rewrite Htab in HT. change ([ci] ++ Y) with (ci :: Y) in HT.
  assert (i = length X).
  { apply (split_index (tabbables (document w) scope) X Y ci); [|exact HT|exact Hi].
    apply (NoDup_map_inv nodeId), tabbables_NoDup, Hnd. }
  subst i. unfold pressTab. rewrite Hrun. cbn [fst].
  change (shiftKey (TabKey shift)) with shift.
  rewrite (wrapTarget_index _ _ _ _ _ _ HT).
  destruct (tabbables (document w) scope
              !! nextIndex (length (tabbables (document w) scope)) shift (length X))
    as [x|] eqn:Hx.
  - assert (Hxin : In x (tabbables (document w) scope)).
    { apply list_elem_of_In, list_elem_of_lookup. eauto. }
    destruct (tabbables_in _ _ _ Hxin) as [Hxpre _].
    apply focus_takes; [exact Hnd | exact Hxpre |].
    unfold takeFocus in Hfocus. rewrite List.Forall_forall in Hfocus. apply Hfocus, Hxin.
  - exfalso. apply lookup_ge_None in Hx. unfold nextIndex in Hx.
    assert (0 < length (tabbables (document w) scope)).
    { rewrite HT, length_app. simpl. lia. }
    destruct shift; pose proof (Nat.mod_upper_bound) as Hb;
      match type of Hx with _ <= ?a mod ?b => specialize (Hb a b) end; lia.
Qed.


(** [focusFirstInScope] on a mounted, non-empty scope asks for focus on the
    first tabbable node, if there is one. *)
Lemma focusFirstInScope_shaped w startRef endRef scope ctx P pre S mid E post :
  Shape (document w) startRef endRef scope ctx P pre S mid E post ->
  mid <> [] ->
  focusFirstInScope scope w
  = (fst (focusElement (nodeId <$> head (tabbables (document w) scope)) false w), Normal tt).
Proof.
  intros Hs Hne. unfold focusFirstInScope.
  destruct (head_scope Hs Hne) as (M & rest & Hmid & Hh). rewrite Hh.
  change (deref (Some (id_of M))) with (@ret NodeId (id_of M)). rewrite bind_ret, bind_gets.
  rewrite (first_previous Hs M rest Hmid).
  rewrite (bind_normal _ _ _ _ _ (getScopeRoot_eq Hs Hne w eq_refl)).
  rewrite (bind_normal _ _ _ _ _ (getFocusableTreeWalker_eq _ _ _)).
  change (option_map nodeId (Some (info_of S))) with (Some (id_of S)).
  rewrite (bind_normal _ _ _ _ _ (setCurrentNode_eq _ _ _)).
  unfold walkerNextNode. rewrite bind_gets.
  change (mkWalker (Walker.root (tabWalker (Some scope) (nodeId P) (nodeId P)))
                   (acceptNode (tabWalker (Some scope) (nodeId P) (nodeId P))) (id_of S))
    with (tabWalker (Some scope) (nodeId P) (id_of S)).
  pose proof (walk_from_start Hs) as Hstart.
  rewrite <- (shape_start _ _ _ _ _ _ _ _ _ _ _ Hs) in Hstart.
  destruct (nextNode (tabWalker (Some scope) (nodeId P) (id_of S)) (document w)) as [o wk].
  simpl in Hstart. subst o. apply focusElement_eq.
Qed.

End ContainmentFacts.

(** ** Focus events delivered to the listeners of a scope *)

Module FocusEventFacts.
Import DOM Selector Walker Host FocusScope Spec DOMFacts WalkerFacts ScopeFacts ContainmentFacts.

Lemma focus_frame n ps w : sameRegistry w (fst (focus n ps w)).
Proof.
  unfold focus, modify, sameRegistry. cbn.
  destruct (subtree (document w) n) as [t|]; [destruct (hostFocusable (info_of t))|]; cbn; auto.
Qed.









Lemma filter_map_none {A B} (p : B -> bool) (f : A -> B) l :
  (forall x, p (f x) = false) -> List.filter p (map f l) = [].
Proof. intros H. apply filter_nil. intros y Hy. apply in_map_iff in Hy as (x & <- & _). apply H. Qed.






Lemma blurCheck_records scopeRef target w :
  let wb := fst (Containment.blurCheck scopeRef target w) in
  (isElementInAnyScope w (activeElement w) = true -> wb = w)
  /\ (isElementInAnyScope w (activeElement w) = false ->
      activeScope wb = Some scopeRef /\ focusedNode wb !! scopeRef = Some target).
Proof.
  cbn zeta. unfold Containment.blurCheck. rewrite bind_gets. split; intros H; rewrite H.
  - reflexivity.
  - cbn [negb]. rewrite !bind_modify. cbv beta.
    match goal with |- context [focus target false ?w0] =>
      destruct (focus_frame target false w0) as (_ & _ & _ & Ha & Hf) end.
    rewrite Ha, Hf. cbn. split; [reflexivity | apply lookup_insert_eq].
Qed.

End FocusEventFacts.

(** ** Teardown *)

Module RestoreFacts.
Import DOM Selector Walker Host FocusScope Spec DOMFacts WalkerFacts ScopeFacts ContainmentFacts.

Lemma unmount_restores w scopeRef scope restoreFocus d' a' t :
  frames w = [] ->
  restores scopeRef scope restoreFocus d' w t ->
  unmount scopeRef scope restoreFocus d' a' w
  = fst (focus t true (setFrames [] (setActiveElement a' (setDocument d' w)))).
Proof.
  intros Hf (-> & Ht & Hin & Hc). unfold unmount, Restore.cleanup.
  rewrite bind_gets, Ht, bind_gets, Hin. cbn [andb].
  unfold requestAnimationFrame, modify, runFrames. cbn [fst frames setActiveElement setDocument setFrames].
  rewrite Hf. cbn [app fold_left runFrame]. unfold Restore.restoreFrame.
  rewrite bind_gets.
  change (document (setFrames [] (setActiveElement a' (setDocument d' (setFrames [RestoreFocus t] w)))))
    with d'.
  rewrite Hc. reflexivity.
Qed.

Lemma unmount_skips w scopeRef scope restoreFocus d' a' :
  frames w = [] ->
  (forall t, ~ restores scopeRef scope restoreFocus d' w t) ->
  unmount scopeRef scope restoreFocus d' a' w
  = setFrames [] (setActiveElement a' (setDocument d' w)).
Proof.
  intros Hf Hno. unfold unmount, Restore.cleanup. rewrite !bind_gets.
  destruct (nodeToRestore w !! scopeRef) as [t|] eqn:Ht.
  - destruct restoreFocus eqn:Hr; cbn [andb].
    + destruct (isElementInScope (document w) (activeElement w) scope) eqn:Hin.
      * unfold requestAnimationFrame, modify, runFrames.
        cbn [fst frames setActiveElement setDocument setFrames].
        rewrite Hf. cbn [app fold_left runFrame]. unfold Restore.restoreFrame.
        rewrite bind_gets.
        change (document (setFrames [] (setActiveElement a' (setDocument d' (setFrames [RestoreFocus t] w)))))
          with d'.
        destruct (contains d' (id_of d') (Some t)) eqn:Hc; [|reflexivity].
        exfalso. apply (Hno t). unfold restores. auto.
      * unfold runFrames. cbn. rewrite Hf. reflexivity.
    + unfold runFrames. cbn. rewrite Hf. reflexivity.
  - unfold runFrames. cbn. rewrite Hf. reflexivity.
Qed.

Lemma focus_calls t ps w : calls (fst (focus t ps w)) = calls w ++ [CallFocus t ps].
Proof.
  unfold focus, modify. cbn.
  destruct (subtree (document w) t) as [n|]; [destruct (hostFocusable (info_of n))|];
    reflexivity.
Qed.

Lemma focus_active t ps w n :
  subtree (document w) t = Some n -> hostFocusable (info_of n) = true ->
  activeElement (fst (focus t ps w)) = Some t.
Proof. intros Hn Hf. unfold focus, modify. cbn. rewrite Hn, Hf. reflexivity. Qed.

Lemma restores_decide scopeRef scope restoreFocus d' w :
  (exists t, restores scopeRef scope restoreFocus d' w t)
  \/ (forall t, ~ restores scopeRef scope restoreFocus d' w t).
Proof.
  unfold restores. destruct (nodeToRestore w !! scopeRef) as [t|].
  - destruct restoreFocus; [|right; intros t' (H & _); discriminate].
    destruct (isElementInScope (document w) (activeElement w) scope);
      [|right; intros t' (_ & _ & H & _); discriminate].
    destruct (contains d' (id_of d') (Some t)) eqn:E.
    + left. exists t. auto.
    + right. intros t' (_ & Ht & _ & Hc). injection Ht as <-. congruence.
  - right. intros t' (_ & H & _). discriminate.
Qed.

Lemma splitAt_spec l1 y l2 :
  List.NoDup (map nodeId (l1 ++ y :: l2)) ->
  splitAt (nodeId y) (l1 ++ y :: l2) = (l1, l2).
Proof.
  induction l1 as [|a l1 IH]; intros Hnd.
  - simpl. rewrite Nat.eqb_refl. reflexivity.
  - cbn [app map] in Hnd. inversion Hnd as [|? ? Hna Hnd']; subst.
    cbn [app splitAt]. destruct (Nat.eqb (nodeId a) (nodeId y)) eqn:E.
    + apply Nat.eqb_eq in E. exfalso. apply Hna. rewrite E, map_app.
      apply in_or_app. right. left. reflexivity.
    + rewrite (IH Hnd'). reflexivity.
Qed.

Lemma splitAt_locate d n ctx t :
  List.NoDup (ids d) -> locate n d = Some (ctx, t) ->
  nodesBefore d n = before ctx
  /\ nodesAfter d n = preorder_forest (children_of t) ++ after ctx.
Proof.
  intros Hnd Hloc. destruct (locate_sound _ _ _ _ Hloc) as [Hplug Hid].
  unfold nodesBefore, nodesAfter. unfold ids in Hnd.
  rewrite <- Hplug in Hnd |- *. rewrite preorder_plug, preorder_head in Hnd |- *.
  cbn [app] in Hnd |- *.
  rewrite <- Hid. unfold id_of. rewrite (splitAt_spec _ _ _ Hnd). auto.
Qed.

Lemma subtree_root d : subtree d (id_of d) = Some d.
Proof. unfold subtree. destruct d as [i cs]. unfold id_of. cbn. rewrite Nat.eqb_refl. reflexivity. Qed.

(** One step of the document-wide walker, in terms of document order. *)
Lemma stepOf_document d shift scope c :
  List.NoDup (ids d) -> In c (ids d) ->
  fst (stepOf shift (tabWalker scope (id_of d) c) d)
  = nodeId <$> towards shift (List.filter (isTabbable d scope) (nodesBefore d c))
                             (List.filter (isTabbable d scope) (nodesAfter d c)).
Proof.
  intros Hnd Hc. destruct (locate_in _ _ Hc) as [[ctx t] Hloc].
  destruct (splitAt_locate _ _ _ _ Hnd Hloc) as [-> ->].
  destruct shift; cbn [stepOf towards].
  - apply (previousNode_tabWalker _ _ _ _ _ _ _ (subtree_root d) Hloc).
  - apply (nextNode_tabWalker _ _ _ _ _ _ _ (subtree_root d) Hloc).
Qed.

Lemma stepOf_walker shift wk d :
  snd (stepOf shift wk d)
  = mkWalker (Walker.root wk) (acceptNode wk)
             (match fst (stepOf shift wk d) with Some n => n | None => currentNode wk end).
Proof.
  destruct wk as [r a c]. destruct shift; cbn [stepOf]; unfold previousNode, nextNode;
    destruct (position _ d); cbn; try reflexivity;
    unfold moveTo; destruct (head _); reflexivity.
Qed.

Lemma filter_rev_comm {A} (p : A -> bool) l : List.filter p (rev l) = rev (List.filter p l).
Proof.
  induction l as [|a l IH]; [reflexivity|]. cbn [rev List.filter].
  rewrite List.filter_app, IH. cbn [List.filter]. destruct (p a); cbn [rev].
  - reflexivity.
  - rewrite app_nil_r. reflexivity.
Qed.

Lemma towards_ahead d shift n (p : NodeInfo -> bool) :
  towards shift (List.filter p (nodesBefore d n)) (List.filter p (nodesAfter d n))
  = head (List.filter p (ahead d shift n)).
Proof.
  unfold towards, ahead. destruct shift; [|reflexivity].
  rewrite filter_rev_comm, head_rev_last. reflexivity.
Qed.

Lemma filter_head_split {A} (p : A -> bool) l x F :
  List.filter p l = x :: F ->
  exists l1 l2, l = l1 ++ x :: l2 /\ List.filter p l1 = [] /\ List.filter p l2 = F /\ p x = true.
Proof.
  induction l as [|a l IH]; cbn [List.filter]; intros H; [discriminate|].
  destruct (p a) eqn:E.
  - injection H as <- <-. exists [], l. auto.
  - destruct (IH H) as (l1 & l2 & -> & H1 & H2 & Hx). exists (a :: l1), l2.
    cbn [app List.filter]. rewrite E. auto.
Qed.

Lemma splitAt_in n l :
  In n (map nodeId l) ->
  exists y, nodeId y = n /\ l = fst (splitAt n l) ++ y :: snd (splitAt n l).
Proof.
  induction l as [|a l IH]; cbn [map]; intros Hin; [destruct Hin|].
  cbn [splitAt]. destruct (Nat.eqb (nodeId a) n) eqn:E.
  - apply Nat.eqb_eq in E. exists a. auto.
  - destruct Hin as [Hin|Hin]; [apply Nat.eqb_neq in E; contradiction|].
    destruct (IH Hin) as (y & Hy & Hl). exists y. split; [exact Hy|].
    cbn [fst snd app]. rewrite <- Hl. reflexivity.
Qed.

Lemma preorder_around d n :
  In n (ids d) ->
  exists y, nodeId y = n /\ preorder d = nodesBefore d n ++ y :: nodesAfter d n.
Proof. apply splitAt_in. Qed.

(** Stepping to the first node ahead that passes a test leaves, ahead of
    that node, exactly what came after it. *)
Lemma ahead_step d shift cur (p : NodeInfo -> bool) x F :
  List.NoDup (ids d) -> In cur (ids d) ->
  List.filter p (ahead d shift cur) = x :: F ->
  exists l1,
    ahead d shift cur = l1 ++ x :: ahead d shift (nodeId x)
    /\ List.filter p l1 = [] /\ p x = true /\ In (nodeId x) (ids d).
Proof.
  intros Hnd Hcur Hf. destruct (preorder_around d cur Hcur) as (y & Hy & Hpre).
  destruct (filter_head_split _ _ _ _ Hf) as (l1 & l2 & Ha & H1 & _ & Hx).
  exists l1. unfold ahead in *. unfold ids in Hnd. destruct shift.
  - assert (Hb : nodesBefore d cur = rev l2 ++ x :: rev l1).
    { rewrite <- (rev_involutive (nodesBefore d cur)), Ha, rev_app_distr. cbn [rev].
      rewrite <- app_assoc. reflexivity. }
    rewrite Hb, <- app_assoc in Hpre. cbn [app] in Hpre.
    assert (Hsplit : splitAt (nodeId x) (preorder d) = (rev l2, rev l1 ++ y :: nodesAfter d cur)).
    { rewrite Hpre in Hnd |- *. apply splitAt_spec, Hnd. }
    unfold nodesBefore at 2. rewrite Hsplit. cbn [fst]. rewrite rev_involutive.
    repeat split; try assumption.
    unfold ids. rewrite Hpre, map_app. apply in_or_app. right. left. reflexivity.
  - rewrite Ha in Hpre.
    assert (Hsplit : splitAt (nodeId x) (preorder d) = (nodesBefore d cur ++ y :: l1, l2)).
    { replace (preorder d) with ((nodesBefore d cur ++ y :: l1) ++ x :: l2) in Hnd |- *
        by (rewrite Hpre, <- app_assoc; reflexivity).
      apply splitAt_spec, Hnd. }
    unfold nodesAfter at 2. rewrite Hsplit. cbn [snd].
    repeat split; try assumption.
    unfold ids. rewrite Hpre, !map_app. apply in_or_app. right. cbn [map]. right.
    rewrite map_app. apply in_or_app. right. left. reflexivity.
Qed.

Lemma stepOf_ahead d shift scope c :
  List.NoDup (ids d) -> In c (ids d) ->
  fst (stepOf shift (tabWalker scope (id_of d) c) d)
  = nodeId <$> head (List.filter (isTabbable d scope) (ahead d shift c)).
Proof.
  intros Hnd Hc. rewrite (stepOf_document d shift scope c Hnd Hc), towards_ahead. reflexivity.
Qed.

Lemma filter_candidate_nil d scope l :
  List.filter (isTabbable d None) l = [] -> List.filter (handOffCandidate d scope) l = [].
Proof.
  intros H. apply filter_nil. intros x Hx. unfold handOffCandidate.
  destruct (isTabbable d None x) eqn:E; [|reflexivity].
  exfalso. assert (Hin : In x (List.filter (isTabbable d None) l)) by (apply List.filter_In; auto).
  rewrite H in Hin. destruct Hin.
Qed.

(** The loop that skips the elements of the scope ends, and ends on the
    first tabbable element ahead that is not in the scope. *)
Lemma skipScope_spec w scope shift :
  List.NoDup (ids (document w)) ->
  forall fuel cur,
    In cur (ids (document w)) ->
    length (List.filter (isTabbable (document w) None) (ahead (document w) shift cur)) < fuel ->
    Restore.skipScope fuel scope shift (tabWalker None (id_of (document w)) cur) w
    = (w, Normal (nodeId <$> head (List.filter (handOffCandidate (document w) scope)
                                               (ahead (document w) shift cur)))).
Proof.
  intros Hnd. induction fuel as [|fuel IH]; intros cur Hcur Hlen; [lia|].
  cbn [Restore.skipScope].
  rewrite (bind_normal _ _ _ _ _ (adjacent_eq _ _ _)).
  pose proof (stepOf_ahead (document w) shift None cur Hnd Hcur) as Hstep.
  pose proof (stepOf_walker shift (tabWalker None (id_of (document w)) cur) (document w)) as Hwk.
  destruct (stepOf shift (tabWalker None (id_of (document w)) cur) (document w)) as [o wk'].
  cbn [fst snd] in Hstep, Hwk. subst o wk'.
  destruct (List.filter (isTabbable (document w) None) (ahead (document w) shift cur))
    as [|x F] eqn:HF.
  - cbn [head fmap option_fmap option_map]. rewrite bind_gets, inScope_none.
    rewrite (filter_candidate_nil _ _ _ HF). reflexivity.
  - destruct (ahead_step _ _ _ _ _ _ Hnd Hcur HF) as (l1 & Ha & H1 & Hx & Hxin).
    cbn [head fmap option_fmap option_map]. rewrite bind_gets.
    rewrite Ha, List.filter_app, (filter_candidate_nil _ _ _ H1). cbn [app List.filter].
    unfold handOffCandidate at 1. rewrite Hx. cbn [andb].
    destruct (isElementInScope (document w) (Some (nodeId x)) scope) eqn:Hin; cbn [negb].
    + apply IH; [exact Hxin|].
      rewrite Ha, List.filter_app, H1 in HF. cbn [app List.filter] in HF. rewrite Hx in HF.
      injection HF as HF. rewrite HF. cbn [length] in Hlen. lia.
    + reflexivity.
Qed.

Lemma filter_length_le {A} (p : A -> bool) l : length (List.filter p l) <= length l.
Proof. induction l as [|a l IH]; cbn [List.filter length]; [lia|]. destruct (p a); cbn [length]; lia. Qed.

Lemma ahead_length d shift n : length (ahead d shift n) <= length (preorder d).
Proof.
  unfold ahead, nodesBefore, nodesAfter. generalize (preorder d). intros l.
  assert (H : length (fst (splitAt n l)) <= length l /\ length (snd (splitAt n l)) <= length l).
  { induction l as [|a l [IH1 IH2]]; cbn [splitAt]; [cbn; lia|].
    destruct (Nat.eqb (nodeId a) n); cbn [fst snd length]; lia. }
  destruct shift; [rewrite length_rev|]; tauto.
Qed.

Lemma contains_body d t : contains d (id_of d) (Some t) = attached d t.
Proof. unfold contains. rewrite subtree_root. reflexivity. Qed.

Lemma inScope_attached d c scope :
  isElementInScope d (Some c) scope = true -> In c (ids d).
Proof.
  unfold isElementInScope. intros H. apply existsb_exists in H as (node & _ & Hc).
  unfold contains, subtree in Hc. destruct (locate node d) as [[ctx t]|] eqn:Hloc; [|discriminate].
  apply attached_iff in Hc. destruct (locate_sound _ _ _ _ Hloc) as [<- _].
  rewrite ids_plug. apply in_or_app. right. apply in_or_app. left. exact Hc.
Qed.

End RestoreFacts.

(** ** The statements *)

Module Properties.
Import DOM Selector Walker Host FocusScope Spec DOMFacts WalkerFacts ScopeFacts ContainmentFacts.
Import FocusEventFacts RestoreFacts.

Lemma page_mounted : Mounted Sample.page 2 6 Sample.pageScope.
Proof.
  constructor; [|reflexivity|reflexivity].
  vm_compute. repeat constructor; simpl; lia.
Qed.



(** A containment listener leaves alone a keydown that arrives while focus
    is outside its scope, and any key pressed with Alt, Ctrl or Meta. *)
Lemma keydown_elsewhere scope e w :
  isElementInScope (document w) (activeElement w) scope = false ->
  Containment.onKeyDown scope e w = (w, Normal e).
Proof.
  intros Hout. unfold Containment.onKeyDown. destruct (ignoredKey e); [reflexivity|].
  rewrite !bind_gets, Hout. reflexivity.
Qed.

Lemma modified_key_ignored scope e w :
  ignoredKey e = true -> Containment.onKeyDown scope e w = (w, Normal e).
Proof. intros Hkey. unfold Containment.onKeyDown. rewrite Hkey. reflexivity. Qed.

(** C3, as worded, fails on the sample page: moving forward the walker is
    put on the start sentinel (node 2), not on the node after the scope's
    last node (node 6); moving backward it is put on the end sentinel, not on
    the node before the scope's first node. *)
Lemma reseed_counterexample :
  let w := Sample.world Sample.page (Some 5) in
  seedAsWorded Sample.page Sample.pageScope false = Some 6
  /\ snd (Containment.wrapSeed Sample.pageScope false w) = Normal (Some 2)
  /\ snd (Containment.wrapSeed Sample.pageScope false w)
     <> Normal (seedAsWorded Sample.page Sample.pageScope false)
  /\ snd (Containment.wrapSeed Sample.pageScope true w)
     <> Normal (seedAsWorded Sample.page Sample.pageScope true).
Proof. vm_compute. repeat split; discriminate. Qed.

(** C3, amended.  In a mounted, non-empty scope the second attempt starts
    from the start sentinel (the element just before the scope's first node)
    when moving forward and from the end sentinel (the element just after
    the scope's last node) when moving backward; one step from there in the
    same direction reaches the first, respectively the last, tabbable node.
    So Tab on the last tabbable element focuses the first, and Shift+Tab on
    the first focuses the last. *)
Theorem wrap_reseed w startRef endRef scope :
  Mounted (document w) startRef endRef scope ->
  scope <> [] ->
  Containment.wrapSeed scope false w = (w, Normal (Some startRef))
  /\ Containment.wrapSeed scope true w = (w, Normal (Some endRef))
  /\ (exists rootNode,
        getScopeRoot scope w = (w, Normal (Some rootNode))
        /\ fst (nextNode (tabWalker (Some scope) rootNode startRef) (document w))
           = nodeId <$> head (tabbables (document w) scope)
        /\ fst (previousNode (tabWalker (Some scope) rootNode endRef) (document w))
           = nodeId <$> last (tabbables (document w) scope))
  /\ (forall first lastOne,
        head (tabbables (document w) scope) = Some first ->
        last (tabbables (document w) scope) = Some lastOne ->
        takeFocus (tabbables (document w) scope) ->
        (activeElement w = Some (nodeId lastOne) ->
         activeElement (pressTab scope false w) = Some (nodeId first))
        /\ (activeElement w = Some (nodeId first) ->
            activeElement (pressTab scope true w) = Some (nodeId lastOne))).
Proof.
  intros Hm Hne.
  destruct (mounted_shape _ _ _ _ Hm) as (ctx & P & pre & S & mid & E & post & Hs).
  assert (Hmid : mid <> []).
  { intros ->. apply Hne. apply (shape_scope _ _ _ _ _ _ _ _ _ _ _ Hs). }
  split; [apply (wrapSeed_eq Hs Hmid false w eq_refl)|].
  split; [apply (wrapSeed_eq Hs Hmid true w eq_refl)|].
  split.
  { exists (nodeId P). split; [apply (getScopeRoot_eq Hs Hmid w eq_refl)|].
    split; [apply (walk_from_start Hs) | apply (walk_from_end Hs)]. }
  intros first lastOne Hfirst Hlast Hfocus.
  set (T := tabbables (document w) scope) in *.
  assert (Hpos : 0 < length T) by (destruct T; [discriminate | simpl; lia]).
  rewrite head_lookup in Hfirst. rewrite last_lookup in Hlast.
  split; intros Hact.
  - destruct (press_step w _ _ _ false _ _ Hm Hfocus Hlast Hact) as [_ Ha].
    rewrite Ha. fold T. unfold nextIndex.
    replace (Init.Nat.pred (length T) + 1) with (length T) by lia.
    rewrite Nat.Div0.mod_same, Hfirst. reflexivity.
  - destruct (press_step w _ _ _ true _ _ Hm Hfocus Hfirst Hact) as [_ Ha].
    rewrite Ha. fold T. unfold nextIndex.
    rewrite Nat.add_0_l, Nat.mod_small by lia.
    replace (length T - 1) with (Init.Nat.pred (length T)) by lia.
    rewrite Hlast. reflexivity.
Qed.

Lemma wrap_reseed_witness :
  Mounted Sample.page 2 6 Sample.pageScope
  /\ Containment.wrapSeed Sample.pageScope false (Sample.world Sample.page (Some 5))
     = (Sample.world Sample.page (Some 5), Normal (Some 2))
  /\ activeElement (pressTab Sample.pageScope false (Sample.world Sample.page (Some 5)))
     = Some 3.
Proof.
  split; [exact page_mounted|].
  destruct (wrap_reseed (Sample.world Sample.page (Some 5)) 2 6 Sample.pageScope)
    as (Hseed & _ & _ & Hwrap).
  - exact page_mounted.
  - discriminate.
  - split; [exact Hseed|].
    destruct (Hwrap (Sample.pageInput 3) (Sample.pageInput 5)) as [Hlast _].
    + reflexivity.
    + reflexivity.
    + repeat constructor.
    + apply Hlast. reflexivity.
Defined.

(** C10.  In a mounted scope, a Tab keydown without Alt, Ctrl or Meta that
    arrives while the focused element is inside the scope is always consumed:
    the listener returns normally with the event's default prevented.  When
    the scope has no tabbable element, so that the second attempt finds
    nothing either, nothing else changes and focus stays where it is. *)
Theorem tab_consumed w startRef endRef scope e :
  Mounted (document w) startRef endRef scope ->
  ignoredKey e = false ->
  isElementInScope (document w) (activeElement w) scope = true ->
  exists w' e',
    Containment.onKeyDown scope e w = (w', Normal e')
    /\ defaultPrevented e' = true
    /\ (tabbables (document w) scope = [] ->
        w' = w /\ activeElement w' = activeElement w).
Proof.
  intros Hm Hkey Hin.
  destruct (mounted_shape _ _ _ _ Hm) as (ctx & P & pre & S & mid & E & post & Hs).
  destruct (activeElement w) as [c|] eqn:Hact; [|rewrite inScope_none in Hin; discriminate].
  apply (inScope_iff Hs) in Hin.
  destruct (onKeyDown_shaped w _ _ _ _ _ _ _ _ _ _ e c Hs Hkey Hact Hin)
    as (ci & X & Y & _ & _ & HT & Hrun).
  eexists _, _. split; [exact Hrun|]. split; [reflexivity|].
  intros Hnil. rewrite Hnil in HT. symmetry in HT.
  apply app_eq_nil in HT as [-> HT]. apply app_eq_nil in HT as [_ ->].
  unfold wrapTarget. rewrite Hnil. destruct (shiftKey e); simpl; rewrite Hact; auto.
Qed.

Lemma tab_consumed_witness :
  exists w' e',
    Containment.onKeyDown Sample.pageScope Sample.Tab (Sample.world Sample.page (Some 4))
    = (w', Normal e')
    /\ defaultPrevented e' = true.
Proof.
  destruct (tab_consumed (Sample.world Sample.page (Some 4)) 2 6 Sample.pageScope Sample.Tab)
    as (w' & e' & Hrun & Hprevented & _).
  - exact page_mounted.
  - reflexivity.
  - reflexivity.
  - exists w', e'. split; [exact Hrun | exact Hprevented].
Defined.

(** C8.  Mounting with [autoFocus] and no [initialFocusRef], the scope being
    the one the layout effect measured: when the focused element is not
    inside the scope, focus moves to the first tabbable element of the scope
    in document order (provided the host takes focus there); when it is
    inside, only the active scope is set and focus stays where it is. *)
Theorem auto_focus_first w scopeRef startRef endRef :
  Mounted (document w) startRef endRef (currentOf w scopeRef) ->
  (isElementInScope (document w) (activeElement w) (currentOf w scopeRef) = false ->
   forall first rest,
     tabbables (document w) (currentOf w scopeRef) = first :: rest ->
     hostFocusable first = true ->
     exists w', useAutoFocus scopeRef true None w = (w', Normal tt)
                /\ activeElement w' = Some (nodeId first))
  /\ (isElementInScope (document w) (activeElement w) (currentOf w scopeRef) = true ->
      useAutoFocus scopeRef true None w = (setActiveScope (Some scopeRef) w, Normal tt)
      /\ activeElement (setActiveScope (Some scopeRef) w) = activeElement w).
Proof.
  intros Hm. split.
  - intros Hout first rest HT Hfocus.
    destruct (mounted_shape _ _ _ _ Hm) as (ctx & P & pre & S & mid & E & post & Hs).
    assert (Hfirst : In first (tabbables (document w) (currentOf w scopeRef))).
    { rewrite HT. left. reflexivity. }
    destruct (tabbables_in _ _ _ Hfirst) as [Hpre Htab].
    assert (Hne : mid <> []).
    { intros ->. apply (tabbable_in_mid Hs) in Htab. destruct Htab. }
    set (w1 := setActiveScope (Some scopeRef) w).
    assert (Hrun : useAutoFocus scopeRef true None w
                   = (fst (focusElement (Some (nodeId first)) false w1), Normal tt)).
    { unfold useAutoFocus. cbn [andb negb bool_decide]. 
      change (bool_decide (is_Some (@None (option NodeId)))) with false. cbn [negb].
      unfold bind at 1. unfold bind at 1. unfold modify at 1. fold w1.
      rewrite bind_gets. change (document w1) with (document w).
      change (activeElement w1) with (activeElement w).
      change (currentOf w1 scopeRef) with (currentOf w scopeRef).
      rewrite Hout. cbn [negb]. rewrite bind_gets.
      change (currentOf w1 scopeRef) with (currentOf w scopeRef).
      rewrite (focusFirstInScope_shaped w1 _ _ _ _ _ _ _ _ _ _ Hs Hne).
      change (document w1) with (document w). rewrite HT. reflexivity. }
    eexists. split; [exact Hrun|].
    apply (focus_takes w1 first false); [apply Hm | exact Hpre | exact Hfocus].
  - intros Hinside. split; [|reflexivity].
    unfold useAutoFocus. cbn [andb].
    change (bool_decide (is_Some (@None (option NodeId)))) with false. cbn [negb].
    unfold bind at 1. unfold bind at 1. unfold modify at 1.
    rewrite bind_gets.
    change (currentOf (setActiveScope (Some scopeRef) w) scopeRef) with (currentOf w scopeRef).
    change (document (setActiveScope (Some scopeRef) w)) with (document w).
    change (activeElement (setActiveScope (Some scopeRef) w)) with (activeElement w).
    rewrite Hinside. reflexivity.
Qed.

Lemma auto_focus_first_witness :
  exists w', useAutoFocus 9 true None (Sample.mountedPage (Some 1)) = (w', Normal tt)
             /\ activeElement w' = Some 3.
Proof.
  destruct (auto_focus_first (Sample.mountedPage (Some 1)) 9 2 6) as [Houtside _].
  - exact page_mounted.
  - apply (Houtside eq_refl (Sample.pageInput 3) [Sample.pageInput 4; Sample.pageInput 5]);
      reflexivity.
Defined.

(** C9.  With an [initialFocusRef] whose [current] is a node, whatever the
    [autoFocus] flag: the scope becomes the active scope, and when the
    focused element is not inside the scope, focus is requested on that node
    and moves there if the node is in the document and the host takes focus
    on it. *)
Theorem initial_focus_ref w scopeRef autoFocus node t :
  isElementInScope (document w) (activeElement w) (currentOf w scopeRef) = false ->
  subtree (document w) node = Some t ->
  hostFocusable (info_of t) = true ->
  exists w', useAutoFocus scopeRef autoFocus (Some (Some node)) w = (w', Normal tt)
             /\ activeElement w' = Some node
             /\ activeScope w' = Some scopeRef
             /\ calls w' = calls w ++ [CallFocus node true].
Proof.
  intros Hout Ht Hfocus. eexists. split.
  - unfold useAutoFocus.
    change (bool_decide (is_Some (Some (Some node)))) with true.
    rewrite andb_false_r. rewrite bind_ret.
    unfold bind at 1. unfold modify at 1. rewrite bind_gets.
    change (currentOf (setActiveScope (Some scopeRef) w) scopeRef) with (currentOf w scopeRef).
    change (document (setActiveScope (Some scopeRef) w)) with (document w).
    change (activeElement (setActiveScope (Some scopeRef) w)) with (activeElement w).
    rewrite Hout. cbn [negb]. apply focusElement_eq.
  - unfold focusElement, focus, modify. cbn. rewrite Ht, Hfocus. cbn. auto.
Qed.

Lemma initial_focus_ref_witness :
  exists w', useAutoFocus 9 false (Some (Some 5)) (Sample.mountedPage (Some 1)) = (w', Normal tt)
             /\ activeElement w' = Some 5
             /\ activeScope w' = Some 9.
Proof.
  destruct (initial_focus_ref (Sample.mountedPage (Some 1)) 9 false 5 (Sample.input 5))
    as (w' & Hrun & Hactive & Hscope & _).
  - reflexivity.
  - reflexivity.
  - reflexivity.
  - exists w'. auto.
Defined.

(** C4 on the code: an empty [FocusScope] with the default props.  The
    layout effect measures an empty node list, and the auto-focus effect then
    reads [scope[0].previousElementSibling] in [focusFirstInScope], which
    throws a [TypeError] out of the effect. *)
Theorem empty_scope_auto_focus_throws :
  currentOf Sample.mountedEmptyPage 9 = []
  /\ snd (useAutoFocus 9 true None Sample.mountedEmptyPage) = Throw TypeError.
Proof. split; reflexivity. Qed.

(** The same for every world: auto-focus on a scope whose node list is empty
    and does not hold focus throws. *)
Lemma empty_scope_auto_focus w scopeRef :
  currentOf w scopeRef = [] ->
  useAutoFocus scopeRef true None w = (setActiveScope (Some scopeRef) w, Throw TypeError).
Proof.
  intros Hempty. unfold useAutoFocus. cbn [andb].
  change (bool_decide (is_Some (@None (option NodeId)))) with false. cbn [negb].
  unfold bind at 1. unfold bind at 1. unfold modify at 1. rewrite bind_gets.
  change (currentOf (setActiveScope (Some scopeRef) w) scopeRef) with (currentOf w scopeRef).
  rewrite Hempty. unfold isElementInScope. cbn [existsb negb]. rewrite bind_gets.
  change (currentOf (setActiveScope (Some scopeRef) w) scopeRef) with (currentOf w scopeRef).
  rewrite Hempty. reflexivity.
Qed.

(** The containment listener, by contrast, is guarded by the scope test and
    leaves an empty scope alone. *)
Lemma empty_scope_keydown e w : Containment.onKeyDown [] e w = (w, Normal e).
Proof. unfold Containment.onKeyDown. destruct (ignoredKey e); reflexivity. Qed.

(** So does the cleanup of [useRestoreFocus]. *)
Lemma empty_scope_cleanup scopeRef restoreFocus w :
  Restore.cleanup scopeRef [] restoreFocus w = (w, Normal tt).
Proof.
  unfold Restore.cleanup. rewrite !bind_gets. unfold isElementInScope. cbn [existsb].
  rewrite andb_false_r. destruct (nodeToRestore w !! scopeRef); reflexivity.
Qed.

(** A mounted scope with nodes but without a tabbable element is handled:
    auto-focus finds no candidate, returns normally and leaves focus alone. *)
Lemma no_tabbable_auto_focus w scopeRef startRef endRef :
  Mounted (document w) startRef endRef (currentOf w scopeRef) ->
  currentOf w scopeRef <> [] ->
  tabbables (document w) (currentOf w scopeRef) = [] ->
  useAutoFocus scopeRef true None w = (setActiveScope (Some scopeRef) w, Normal tt).
Proof.
  intros Hm Hne HT.
  destruct (mounted_shape _ _ _ _ Hm) as (ctx & P & pre & S & mid & E & post & Hs).
  assert (Hmid : mid <> []).
  { intros ->. apply Hne. apply (shape_scope _ _ _ _ _ _ _ _ _ _ _ Hs). }
  unfold useAutoFocus. cbn [andb].
  change (bool_decide (is_Some (@None (option NodeId)))) with false. cbn [negb].
  unfold bind at 1. unfold bind at 1. unfold modify at 1. rewrite bind_gets.
  set (w1 := setActiveScope (Some scopeRef) w).
  change (currentOf w1 scopeRef) with (currentOf w scopeRef).
  change (document w1) with (document w).
  destruct (isElementInScope (document w) (activeElement w1) (currentOf w scopeRef));
    cbn [negb]; [reflexivity|].
  rewrite bind_gets. change (currentOf w1 scopeRef) with (currentOf w scopeRef).
  rewrite (focusFirstInScope_shaped w1 _ _ _ _ _ _ _ _ _ _ Hs Hmid).
  change (document w1) with (document w). rewrite HT. reflexivity.
Qed.

Lemma isStyleVisible_split element :
  isStyleVisible element
  = isStyled element && styleShows (style element) && styleShows (computedStyle element).
Proof.
  unfold isStyleVisible, isStyled.
  destruct (nodeClass element); simpl; try reflexivity;
    destruct (styleShows (style element)); reflexivity.
Qed.

Lemma isAttributeVisible_split element childElement :
  isAttributeVisible element childElement
  = negb (hasAttribute element "hidden") && negb (hidesChild element childElement).
Proof.
  unfold isAttributeVisible, hidesChild. destruct childElement as [child|]; [|reflexivity].
  destruct (hasAttribute element "hidden"); [reflexivity|]. simpl.
  destruct (String.eqb (nodeName element) "DETAILS"); [|reflexivity].
  destruct (String.eqb (nodeName child) "SUMMARY"); simpl.
  - destruct (hasAttribute element "open"); reflexivity.
  - destruct (hasAttribute element "open"); reflexivity.
Qed.

Lemma own_visible_split element childElement :
  negb (String.eqb (nodeName element) "#comment")
  && isStyleVisible element && isAttributeVisible element childElement
  = isStyled element && ownVisibleAsWorded element childElement.
Proof.
  rewrite isStyleVisible_split, isAttributeVisible_split. unfold ownVisibleAsWorded.
  destruct (negb (String.eqb (nodeName element) "#comment")), (isStyled element),
    (styleShows (style element)), (styleShows (computedStyle element)),
    (negb (hasAttribute element "hidden")), (negb (hidesChild element childElement));
    reflexivity.
Qed.

Lemma isElementVisibleFrom_iff parents :
  forall element childElement,
    isElementVisibleFrom element childElement parents = true
    <-> Forall (fun p => isStyled (fst p) && ownVisibleAsWorded (fst p) (snd p) = true)
               (onPath element childElement parents).
Proof.
  induction parents as [|parent above IH]; intros element childElement.
  - cbn [isElementVisibleFrom]. rewrite andb_true_r, own_visible_split.
    unfold onPath. cbn [combine map]. split.
    + intros H. constructor; [exact H | constructor].
    + intros H. inversion H; assumption.
  - cbn [isElementVisibleFrom]. rewrite own_visible_split, andb_true_iff, IH.
    unfold onPath. cbn [combine map]. split.
    + intros [H1 H2]. constructor; assumption.
    + intros H. inversion H; subst. split; assumption.
Qed.

(** C7, as worded, fails on an element that is neither an [HTMLElement] nor
    an [SVGElement]: every condition listed holds for the MathML
    element of the sample page and for its parent, and [isElementVisible]
    answers [false]. *)
Lemma visible_counterexample :
  visibleAsWorded Sample.mathPage Sample.mathNode None
  /\ isElementVisible Sample.mathPage Sample.mathNode None = false
  /\ ~ (isElementVisible Sample.mathPage Sample.mathNode None = true
        <-> visibleAsWorded Sample.mathPage Sample.mathNode None).
Proof.
  assert (Hworded : visibleAsWorded Sample.mathPage Sample.mathNode None).
  { unfold visibleAsWorded. vm_compute. repeat constructor. }
  split; [exact Hworded|]. split; [reflexivity|].
  intros [_ H]. specialize (H Hworded). vm_compute in H. discriminate.
Qed.

(** C7, amended.  [isElementVisible] accepts a node exactly when the node and
    every element above it (following [parentElement]) is an [HTMLElement] or
    [SVGElement], is not a comment, has neither [display: none] nor
    [visibility: hidden] or [collapse] in its inline and in its computed
    style, carries no [hidden] attribute, and is not a closed [details]
    element above a child other than its summary. *)
Theorem visible_iff d element childElement :
  isElementVisible d element childElement = true
  <-> visibleAmended d element childElement.
Proof. unfold isElementVisible, visibleAmended. apply isElementVisibleFrom_iff. Qed.




(** C6.  The restore target is the element that has focus when the layout
    effect of [useRestoreFocus] starts.  At teardown, with no other animation
    frame pending, the host is asked to focus a node [t] if and only if
    [restoreFocus] is set, [t] is the restore target still remembered, the
    focused element is inside the scope when the cleanup runs, and [t] is in
    the document when the animation frame fires; focus then moves to [t] if
    the host takes focus there.  In every other case no focus call is made
    and focus stays where the host left it. *)
Theorem restore_on_unmount w scopeRef scope restoreFocus d' a' :
  frames w = [] ->
  let final := unmount scopeRef scope restoreFocus d' a' w in
  (forall w0, nodeToRestore (fst (Restore.capture scopeRef w0)) !! scopeRef = activeElement w0)
  /\ (forall t, calls final = calls w ++ [CallFocus t true]
                <-> restores scopeRef scope restoreFocus d' w t)
  /\ (forall t n, restores scopeRef scope restoreFocus d' w t ->
                  subtree d' t = Some n -> hostFocusable (info_of n) = true ->
                  activeElement final = Some t)
  /\ ((forall t, ~ restores scopeRef scope restoreFocus d' w t) ->
      calls final = calls w /\ activeElement final = a').
Proof.
  intros Hf final. subst final. split; [|split; [|split]].
  - intros w0. unfold Restore.capture, modify. cbn.
    destruct (activeElement w0); [apply lookup_insert_eq | apply lookup_delete_eq].
  - intros t. split.
    + intros Hcalls.
      destruct (restores_decide scopeRef scope restoreFocus d' w) as [[t' Ht']|Hno].
      * rewrite (unmount_restores _ _ _ _ _ a' _ Hf Ht'), focus_calls in Hcalls.
        apply app_inv_head in Hcalls. injection Hcalls as ->. exact Ht'.
      * rewrite (unmount_skips _ _ _ _ _ a' Hf Hno) in Hcalls.
        apply (f_equal (@length HostCall)) in Hcalls. rewrite length_app in Hcalls.
        cbn in Hcalls. lia.
    + intros Ht. rewrite (unmount_restores _ _ _ _ _ a' _ Hf Ht), focus_calls. reflexivity.
  - intros t n Ht Hn Hfocus. rewrite (unmount_restores _ _ _ _ _ a' _ Hf Ht).
    apply (focus_active t true _ n); assumption.
  - intros Hno. rewrite (unmount_skips _ _ _ _ _ a' Hf Hno). split; reflexivity.
Qed.

Lemma restore_on_unmount_witness :
  restores 9 Sample.pageScope true Sample.pageAfterUnmount Sample.pageBeforeUnmount 1
  /\ activeElement (unmount 9 Sample.pageScope true Sample.pageAfterUnmount (Some 0)
                            Sample.pageBeforeUnmount) = Some 1.
Proof.
  assert (Hrestores : restores 9 Sample.pageScope true Sample.pageAfterUnmount
                               Sample.pageBeforeUnmount 1).
  { repeat split; reflexivity. }
  split; [exact Hrestores|].
  destruct (restore_on_unmount Sample.pageBeforeUnmount 9 Sample.pageScope true
                               Sample.pageAfterUnmount (Some 0) eq_refl)
    as (_ & _ & Hmoves & _).
  apply (Hmoves 1 (Sample.button 1) Hrestores); reflexivity.
Defined.

(** C5.  The keydown listener [useRestoreFocus] adds when [contain] is
    false, for a Tab without Alt, Ctrl or Meta that arrives while the focused
    element [c] is inside the scope: if the next (with Shift: previous)
    tabbable element of the document is outside the scope or does not exist,
    and the restore target [t] is in the document and is not the body, the
    event is consumed and the host is asked to focus the next (previous)
    tabbable element relative to [t] in the order of the whole document that
    is not inside the scope; focus moves there if the host takes focus on it.
    If there is no such element, [c] is blurred and focus falls back to the
    body. *)
Theorem tab_hand_off w scopeRef scope e c t :
  List.NoDup (ids (document w)) ->
  ignoredKey e = false ->
  activeElement w = Some c ->
  isElementInScope (document w) (Some c) scope = true ->
  isElementInScope (document w) (plainTarget (document w) (shiftKey e) c) scope = false ->
  nodeToRestore w !! scopeRef = Some t ->
  contains (document w) (id_of (document w)) (Some t) = true ->
  t <> id_of (document w) ->
  exists w',
    Restore.onKeyDown scopeRef scope e w = (w', Normal (stopPropagation (preventDefault e)))
    /\ match handOffTarget (document w) scope (shiftKey e) t with
       | Some x =>
           calls w' = calls w ++ [CallFocus x false]
           /\ (forall n, subtree (document w) x = Some n -> hostFocusable (info_of n) = true ->
                         activeElement w' = Some x)
       | None =>
           calls w' = calls w ++ [CallBlur c]
           /\ activeElement w' = Some (id_of (document w))
       end.
Proof.
  intros Hnd Hkey Hact Hin Hplain Ht Hatt Hbody.
  assert (Hc : In c (ids (document w))) by (eapply inScope_attached, Hin).
  assert (Htin : In t (ids (document w))).
  { rewrite contains_body in Hatt. apply attached_iff, Hatt. }
  unfold Restore.onKeyDown. rewrite Hkey.
  rewrite bind_gets, Hact, bind_gets, Hin. change (negb true) with false. cbv iota.
  rewrite bind_gets.
  rewrite (bind_normal _ _ _ _ _ (getFocusableTreeWalker_eq _ _ _)).
  rewrite (bind_normal _ _ _ _ _ (setCurrentNode_eq _ _ _)).
  change (mkWalker (Walker.root (tabWalker None (id_of (document w)) (id_of (document w))))
                   (acceptNode (tabWalker None (id_of (document w)) (id_of (document w)))) c)
    with (tabWalker None (id_of (document w)) c).
  rewrite (bind_normal _ _ _ _ _ (adjacent_eq _ _ _)).
  pose proof (stepOf_document (document w) (shiftKey e) None c Hnd Hc) as Hstep.
  fold (plainTarget (document w) (shiftKey e) c) in Hstep.
  pose proof (stepOf_walker (shiftKey e) (tabWalker None (id_of (document w)) c) (document w)) as Hwk.
  destruct (stepOf (shiftKey e) (tabWalker None (id_of (document w)) c) (document w)) as [o wk'].
  cbn [fst snd] in Hstep, Hwk. subst o.
  assert (Hforget : Restore.forgetLostTarget scopeRef w = (w, Normal tt)).
  { unfold Restore.forgetLostTarget, modify. rewrite Ht, Hatt. cbn [negb orb].
    rewrite bool_decide_eq_false_2 by congruence. reflexivity. }
  rewrite (bind_normal _ _ _ _ _ Hforget).
  rewrite bind_gets, Ht, bind_gets, Hplain.
  cbn [negb]. rewrite orb_true_r.
  rewrite (bool_decide_eq_true_2 (is_Some (Some t))) by eauto. cbn [andb].
  rewrite (bind_normal _ _ _ _ _ (setCurrentNode_eq _ _ _)).
  rewrite Hwk. cbn [Walker.root acceptNode tabWalker].
  change (mkWalker (id_of (document w)) (acceptNodeOf tabbableOnly None) t)
    with (tabWalker None (id_of (document w)) t).
  rewrite bind_gets.
  assert (Hfuel : length (List.filter (isTabbable (document w) None)
                                     (ahead (document w) (shiftKey e) t))
                  < S (length (preorder (document w)))).
  { pose proof (filter_length_le (isTabbable (document w) None)
                                 (ahead (document w) (shiftKey e) t)).
    pose proof (ahead_length (document w) (shiftKey e) t). lia. }
  rewrite (bind_normal _ _ _ _ _ (skipScope_spec w scope (shiftKey e) Hnd _ t Htin Hfuel)).
  assert (Htarget : nodeId <$> head (List.filter (handOffCandidate (document w) scope)
                                                 (ahead (document w) (shiftKey e) t))
                    = handOffTarget (document w) scope (shiftKey e) t).
  { unfold handOffTarget. rewrite towards_ahead. reflexivity. }
  rewrite Htarget.
  destruct (handOffTarget (document w) scope (shiftKey e) t) as [x|].
  - rewrite (bind_normal _ _ _ _ _ (focusElement_eq _ _ _)). eexists. split; [reflexivity|].
    cbn [focusElement negb fst]. split.
    + unfold focus, modify. cbn.
      destruct (subtree (document w) x) as [n|]; [destruct (hostFocusable (info_of n))|]; reflexivity.
    + intros n Hn Hf. unfold focus, modify. cbn. rewrite Hn, Hf. reflexivity.
  - unfold bind, deref, blur, modify, ret. eexists. split; [reflexivity|]. cbn.
    rewrite Hact. rewrite decide_True by reflexivity. cbn. auto.
Qed.

Lemma tab_hand_off_witness :
  handOffTarget Sample.page Sample.pageScope false 1 = Some 7
  /\ exists w',
      Restore.onKeyDown 9 Sample.pageScope Sample.Tab Sample.pageAtLastInput
      = (w', Normal (stopPropagation (preventDefault Sample.Tab)))
      /\ activeElement w' = Some 7.
Proof.
  split; [reflexivity|].
  destruct (tab_hand_off Sample.pageAtLastInput 9 Sample.pageScope Sample.Tab 5 1)
    as (w' & Hrun & Hmoves).
  - apply page_mounted.
  - reflexivity.
  - reflexivity.
  - reflexivity.
  - reflexivity.
  - reflexivity.
  - reflexivity.
  - discriminate.
  - exists w'. split; [exact Hrun|].
    change (handOffTarget (document Sample.pageAtLastInput) Sample.pageScope
                          (shiftKey Sample.Tab) 1) with (Some 7) in Hmoves.
    destruct Hmoves as [_ Hmoves]. apply (Hmoves (Sample.button 7)); reflexivity.
Defined.

End Properties.

(** ** Facts about rendering, walkers, selectors and the effects *)

Module LifecycleFacts.
Import DOM Selector Walker Host FocusScope Spec Lifecycle.
Import DOMFacts WalkerFacts ScopeFacts ContainmentFacts FocusEventFacts RestoreFacts Properties.

(** *** The markers and the measuring loop *)

Lemma isMarker_element i : isMarker i = true -> isElement i = true.
Proof.
  unfold isMarker, isElement. destruct (nodeClass i); simpl; try discriminate. reflexivity.
Qed.

Lemma isMarker_hidden i : isMarker i = true -> hasAttribute i "hidden" = true.
Proof. unfold isMarker. intros H. apply andb_true_iff in H as [_ H]. exact H. Qed.

Lemma collectLoop_app endRef l E post :
  (forall c, In c l -> id_of c <> endRef) -> id_of E = endRef ->
  collectLoop endRef (l ++ E :: post) = map id_of l.
Proof.
  intros Hl HE. induction l as [|c l IH]; cbn [app collectLoop map].
  - rewrite HE, Nat.eqb_refl. reflexivity.
  - destruct (Nat.eqb (id_of c) endRef) eqn:Ec.
    + apply Nat.eqb_eq in Ec. exfalso. apply (Hl c); [left; reflexivity | exact Ec].
    + rewrite IH; [reflexivity|]. intros c' Hc'. apply Hl. right. exact Hc'.
Qed.

Lemma hidden_not_visible d i child : hasAttribute i "hidden" = true -> isElementVisible d i child = false.
Proof.
  intros H. unfold isElementVisible. destruct (parentChain d (nodeId i)); cbn [isElementVisibleFrom];
    unfold isAttributeVisible; rewrite H; cbn [negb andb]; rewrite ?andb_false_r; reflexivity.
Qed.

Lemma hidden_never_accepted opts scope d i :
  hasAttribute i "hidden" = true -> isAccept (acceptNodeOf opts scope d i) = false.
Proof.
  intros H. unfold acceptNodeOf. rewrite (hidden_not_visible d i None H).
  rewrite andb_false_r. cbn [andb].
  destruct (match from opts with Some f => contains d f (Some (nodeId i)) | None => false end);
    reflexivity.
Qed.

Lemma isElementInAnyScope_iff w x :
  isElementInAnyScope w x = true
  <-> exists r, r ∈ scopes w /\ isElementInScope (document w) x (currentOf w r) = true.
Proof.
  unfold isElementInAnyScope. rewrite existsb_exists. split.
  - intros (r & Hr & H). exists r. split; [|exact H].
    apply elem_of_elements, list_elem_of_In, Hr.
  - intros (r & Hr & H). exists r. split; [|exact H].
    apply list_elem_of_In, elem_of_elements, Hr.
Qed.

(** *** A walker stops at accepted nodes only *)

Section Stops.

Variable f : NodeInfo -> FilterResult.

Lemma stops_forest_accepted_of ts x :
  Forall (fun t => In x (stops f t) -> isAccept (f x) = true /\ In x (preorder t)) ts ->
  In x (stops_forest f ts) -> isAccept (f x) = true /\ In x (preorder_forest ts).
Proof.
  unfold stops_forest, preorder_forest. intros Hall Hin.
  apply in_flat_map in Hin as (t & Ht & Hin). rewrite List.Forall_forall in Hall.
  destruct (Hall t Ht Hin) as [Ha Hp]. split; [exact Ha|]. apply in_flat_map. eauto.
Qed.

Lemma stops_accepted t x :
  In x (stops f t) -> isAccept (f x) = true /\ In x (preorder t).
Proof.
  induction t as [i cs IH] using Dom_ind'. intros Hin.
  pose proof (stops_forest_accepted_of cs x IH) as Hcs.
  unfold stops_forest, preorder_forest in Hcs. cbn [stops preorder] in Hin |- *.
  destruct (f i) eqn:E.
  - destruct Hin as [<-|Hin].
    + rewrite E. split; [reflexivity | left; reflexivity].
    + destruct (Hcs Hin) as [Ha Hp]. split; [exact Ha | right; exact Hp].
  - destruct Hin.
  - destruct (Hcs Hin) as [Ha Hp]. split; [exact Ha | right; exact Hp].
Qed.

Lemma stops_forest_accepted ts x :
  In x (stops_forest f ts) -> isAccept (f x) = true /\ In x (preorder_forest ts).
Proof.
  apply stops_forest_accepted_of, List.Forall_forall. intros t _. apply stops_accepted.
Qed.

Lemma following_accepted ctx t x :
  In x (following f (ctx, t)) ->
  isAccept (f x) = true /\ In x (preorder_forest (children_of t) ++ after ctx).
Proof.
  unfold following. cbn [fst snd]. intros Hin. apply in_app_or in Hin as [Hin|Hin].
  - destruct (stops_forest_accepted _ _ Hin) as [Ha Hp]. split; [exact Ha|].
    apply in_or_app. left. exact Hp.
  - assert (H : isAccept (f x) = true /\ In x (after ctx)).
    { induction ctx as [|fr outer IH]; [destruct Hin|]. cbn [flat_map after] in Hin |- *.
      apply in_app_or in Hin as [Hin|Hin].
      - destruct (stops_forest_accepted _ _ Hin) as [Ha Hp]. split; [exact Ha|].
        apply in_or_app. left. exact Hp.
      - destruct (IH Hin) as [Ha Hp]. split; [exact Ha|]. apply in_or_app. right. exact Hp. }
    destruct H as [Ha Hp]. split; [exact Ha|]. apply in_or_app. right. exact Hp.
Qed.

Lemma preceding_accepted ctx t x :
  In x (preceding f (ctx, t)) -> isAccept (f x) = true /\ In x (before ctx).
Proof.
  unfold preceding. cbn [fst]. induction ctx as [|fr outer IH]; intros Hin; [destruct Hin|].
  cbn [flat_map before] in Hin |- *. apply in_app_or in Hin as [Hin|Hin].
  - apply in_app_or in Hin as [Hin|Hin].
    + apply in_rev in Hin. destruct (stops_forest_accepted _ _ Hin) as [Ha Hp].
      split; [exact Ha|]. apply in_or_app. right. right. exact Hp.
    + destruct (isAccept (f (f_parent fr))) eqn:E; [|destruct Hin].
      destruct Hin as [<-|[]]. split; [exact E|]. apply in_or_app. right. left. reflexivity.
  - destruct (IH Hin) as [Ha Hp]. split; [exact Ha|]. apply in_or_app. left. exact Hp.
Qed.

End Stops.

Lemma head_In {A} (l : list A) x : head l = Some x -> In x l.
Proof. destruct l; [discriminate|]. intros [= ->]. left. reflexivity. Qed.

Lemma stepOf_accepted shift wk d n :
  fst (stepOf shift wk d) = Some n ->
  exists R x,
    subtree d (Walker.root wk) = Some R
    /\ In x (preorder R) /\ nodeId x = n
    /\ isAccept (filterNode wk d x) = true.
Proof.
  unfold stepOf, previousNode, nextNode, position.
  destruct (subtree d (Walker.root wk)) as [R|] eqn:HR;
    [|destruct shift; intros H; discriminate].
  destruct (locate (currentNode wk) R) as [[ctx t]|] eqn:Hloc;
    [|destruct shift; intros H; discriminate].
  destruct (locate_sound _ _ _ _ Hloc) as [Hplug _].
  assert (Hpre : preorder R = before ctx ++ info_of t
                              :: preorder_forest (children_of t) ++ after ctx).
  { rewrite <- Hplug, preorder_plug, preorder_head. reflexivity. }
  destruct shift; unfold moveTo.
  - destruct (head (preceding (filterNode wk d) (ctx, t))) as [x|] eqn:Hx; [|discriminate].
    intros [= <-]. apply head_In in Hx. destruct (preceding_accepted _ _ _ _ Hx) as [Ha Hp].
    exists R, x. repeat split; try assumption. rewrite Hpre. apply in_or_app. left. exact Hp.
  - destruct (head (following (filterNode wk d) (ctx, t))) as [x|] eqn:Hx; [|discriminate].
    intros [= <-]. apply head_In in Hx. destruct (following_accepted _ _ _ _ Hx) as [Ha Hp].
    exists R, x. repeat split; try assumption. rewrite Hpre. apply in_or_app. right. right.
    exact Hp.
Qed.

Lemma acceptNodeOf_accept opts scope d x :
  isAccept (acceptNodeOf opts scope d x) = true ->
  matches x (selectorOf opts) = true
  /\ isElementVisible d x None = true
  /\ (forall sc, scope = Some sc -> isElementInScope d (Some (nodeId x)) sc = true)
  /\ (forall f, from opts = Some f -> contains d f (Some (nodeId x)) = false).
Proof.
  unfold acceptNodeOf, selectorOf.
  destruct (match from opts with Some f => contains d f (Some (nodeId x)) | None => false end)
    eqn:Hfrom; [discriminate|].
  destruct (matches x (if tabbable opts then TABBABLE_ELEMENT_SELECTOR
                       else FOCUSABLE_ELEMENT_SELECTOR)) eqn:Hm; [|discriminate].
  destruct (isElementVisible d x None) eqn:Hv; [|discriminate].
  cbn [andb]. intros Hs. repeat split.
  - intros sc ->. destruct (isElementInScope d (Some (nodeId x)) sc); [reflexivity|discriminate].
  - intros f Hf. rewrite Hf in Hfrom. exact Hfrom.
Qed.

Lemma filterNode_accept wk d x :
  isAccept (filterNode wk d x) = true -> isAccept (acceptNode wk d x) = true.
Proof. unfold filterNode. destruct (isElement x); [auto | discriminate]. Qed.

Lemma stepOf_candidate opts scope r c shift d n :
  fst (stepOf shift (focusWalker opts scope r c) d) = Some n ->
  exists x,
    In x (preorder d) /\ nodeId x = n
    /\ contains d r (Some n) = true
    /\ matches x (selectorOf opts) = true
    /\ isElementVisible d x None = true
    /\ (forall sc, scope = Some sc -> isElementInScope d (Some n) sc = true)
    /\ (forall f, from opts = Some f -> contains d f (Some n) = false).
Proof.
  intros Hstep. destruct (stepOf_accepted _ _ _ _ Hstep) as (R & x & HR & Hin & Hid & Ha).
  cbn [Walker.root focusWalker] in HR. apply filterNode_accept in Ha.
  cbn [acceptNode focusWalker] in Ha.
  destruct (acceptNodeOf_accept _ _ _ _ Ha) as (Hm & Hv & Hs & Hf). subst n.
  exists x. split.
  { unfold subtree in HR. destruct (locate r d) as [[rctx R']|] eqn:Hloc; [|discriminate].
    injection HR as ->. destruct (locate_sound _ _ _ _ Hloc) as [<- _].
    rewrite preorder_plug. apply in_or_app. right. apply in_or_app. left. exact Hin. }
  split; [reflexivity|]. split.
  { unfold contains. rewrite HR. apply attached_iff. apply in_map, Hin. }
  auto.
Qed.



Lemma stepOf_tab_inScope shift scope r c d n :
  fst (stepOf shift (tabWalker (Some scope) r c) d) = Some n ->
  isElementInScope d (Some n) scope = true.
Proof.
  intros H. change (tabWalker (Some scope) r c) with (focusWalker tabbableOnly (Some scope) r c) in H.
  destruct (stepOf_candidate _ _ _ _ _ _ _ H) as (x & _ & _ & _ & _ & _ & Hs & _).
  apply (Hs scope eq_refl).
Qed.

Lemma stepOf_tabWalker_walker shift scope r c d :
  exists c', snd (stepOf shift (tabWalker (Some scope) r c) d) = tabWalker (Some scope) r c'.
Proof. rewrite stepOf_walker. eexists. reflexivity. Qed.

(** *** The containment listener *)

Lemma wrapSeed_world scope shift w : fst (Containment.wrapSeed scope shift w) = w.
Proof.
  unfold Containment.wrapSeed, bind, deref, gets, ret, throw.
  destruct shift; [destruct (last scope) | destruct (head scope)]; reflexivity.
Qed.

Lemma onKeyDown_target scope e w :
  exists target,
    fst (Containment.onKeyDown scope e w) = fst (focusElement target true w)
    /\ (target = None \/ isElementInScope (document w) target scope = true).
Proof.
  assert (Hnone : fst (focusElement None true w) = w) by reflexivity.
  unfold Containment.onKeyDown. destruct (ignoredKey e); [exists None; auto|].
  rewrite !bind_gets.
  destruct (isElementInScope (document w) (activeElement w) scope) eqn:Hin;
    cbn [negb]; [|exists None; auto].
  unfold getScopeRoot. destruct (head scope) as [firstNode|];
    [|exists None; auto].
  change (deref (Some firstNode)) with (@ret NodeId firstNode).
  unfold bind at 2. unfold ret at 1. unfold bind at 1. unfold gets at 1.
  destruct (option_map nodeId (parentElement (document w) firstNode)) as [r|];
    [|exists None; auto].
  rewrite (bind_normal _ _ _ _ _ (getFocusableTreeWalker_eq _ _ _)).
  destruct (activeElement w) as [c|]; [|exists None; auto].
  rewrite (bind_normal _ _ _ _ _ (setCurrentNode_eq _ _ _)).
  change (mkWalker (Walker.root (tabWalker (Some scope) r r))
                   (acceptNode (tabWalker (Some scope) r r)) c)
    with (tabWalker (Some scope) r c).
  rewrite (bind_normal _ _ _ _ _ (adjacent_eq _ _ _)).
  pose proof (stepOf_tab_inScope (shiftKey e) scope r c (document w)) as Hstep.
  destruct (stepOf_tabWalker_walker (shiftKey e) scope r c (document w)) as [c' Hwk].
  destruct (stepOf (shiftKey e) (tabWalker (Some scope) r c) (document w)) as [[n|] wk'].
  - rewrite bind_ret, (bind_normal _ _ _ _ _ (focusElement_eq _ _ _)).
    exists (Some n). split; [reflexivity|]. right. apply Hstep. reflexivity.
  - cbn [snd] in Hwk. subst wk'. unfold bind at 1. unfold bind at 1.
    destruct (Containment.wrapSeed scope (shiftKey e) w) as [w1 [seed|ex]] eqn:Hseed.
    + assert (w1 = w).
      { pose proof (wrapSeed_world scope (shiftKey e) w) as Hw. rewrite Hseed in Hw. exact Hw. }
      subst w1. destruct seed as [s|]; [|exists None; auto].
      rewrite (bind_normal _ _ _ _ _ (setCurrentNode_eq _ _ _)).
      change (mkWalker (Walker.root (tabWalker (Some scope) r c'))
                       (acceptNode (tabWalker (Some scope) r c')) s)
        with (tabWalker (Some scope) r s).
      rewrite (bind_normal _ _ _ _ _ (adjacent_eq _ _ _)).
      pose proof (stepOf_tab_inScope (shiftKey e) scope r s (document w)) as Hstep2.
      destruct (stepOf (shiftKey e) (tabWalker (Some scope) r s) (document w)) as [o wk2].
      unfold ret at 1. rewrite (bind_normal _ _ _ _ _ (focusElement_eq _ _ _)).
      exists o. split; [reflexivity|]. destruct o as [n|]; [right; apply Hstep2; reflexivity | auto].
    + assert (w1 = w).
      { pose proof (wrapSeed_world scope (shiftKey e) w) as Hw. rewrite Hseed in Hw. exact Hw. }
      subst w1. exists None. auto.
Qed.

Lemma focusElement_effect target scroll w :
  document (fst (focusElement target scroll w)) = document w
  /\ (activeElement (fst (focusElement target scroll w)) = activeElement w
      \/ activeElement (fst (focusElement target scroll w)) = target).
Proof.
  destruct target as [n|]; [|cbn; auto].
  unfold focusElement, focus, modify. destruct scroll; cbn;
    (destruct (subtree (document w) n) as [t|]; [destruct (hostFocusable (info_of t))|]);
    cbn; auto.
Qed.

Lemma onKeyDown_stays scope e w :
  let w' := fst (Containment.onKeyDown scope e w) in
  document w' = document w
  /\ (activeElement w' = activeElement w
      \/ isElementInScope (document w) (activeElement w') scope = true).
Proof.
  cbn zeta. destruct (onKeyDown_target scope e w) as (target & -> & Htarget).
  destruct (focusElement_effect target true w) as [Hd [Ha|Ha]].
  - auto.
  - split; [exact Hd|]. destruct Htarget as [->|Hin]; [left; reflexivity|].
    right. rewrite Ha. exact Hin.
Qed.

Lemma keydown_step w startRef endRef scope e i ci :
  Mounted (document w) startRef endRef scope ->
  takeFocus (tabbables (document w) scope) ->
  ignoredKey e = false ->
  tabbables (document w) scope !! i = Some ci ->
  activeElement w = Some (nodeId ci) ->
  exists w',
    Containment.onKeyDown scope e w = (w', Normal (preventDefault e))
    /\ document w' = document w
    /\ activeElement w'
       = nodeId <$> tabbables (document w) scope
                      !! nextIndex (length (tabbables (document w) scope)) (shiftKey e) i.
Proof.
  intros Hm Hfocus Hkey Hi Hact.
  destruct (mounted_shape _ _ _ _ Hm) as (ctx & P & pre & S & mid & E & post & Hs).
  pose proof (shape_ids _ _ _ _ _ _ _ _ _ _ _ Hs) as Hnd.
  assert (Hci : In ci (tabbables (document w) scope)).
  { apply list_elem_of_In, list_elem_of_lookup. eauto. }
  destruct (tabbables_in _ _ _ Hci) as [Hpre Htab].
  assert (Hc : In (nodeId ci) (map nodeId (preorder_forest mid))).
  { apply (tabbable_in_mid Hs), Htab. }
  destruct (onKeyDown_shaped w _ _ _ _ _ _ _ _ _ _ e _ Hs Hkey Hact Hc)
    as (ci' & X & Y & Hid & Hin' & HT & Hrun).
  assert (ci' = ci) by (apply (same_id_same_node (preorder (document w))); assumption).
  subst ci'. rewrite Htab in HT. change ([ci] ++ Y) with (ci :: Y) in HT.
  assert (i = length X).
  { apply (split_index (tabbables (document w) scope) X Y ci); [|exact HT|exact Hi].
    apply (NoDup_map_inv nodeId), tabbables_NoDup, Hnd. }
  subst i. eexists. split; [exact Hrun|].
  rewrite (wrapTarget_index _ _ _ _ _ _ HT).
  destruct (tabbables (document w) scope
              !! nextIndex (length (tabbables (document w) scope)) (shiftKey e) (length X))
    as [x|] eqn:Hx.
  - assert (Hxin : In x (tabbables (document w) scope)).
    { apply list_elem_of_In, list_elem_of_lookup. eauto. }
    destruct (tabbables_in _ _ _ Hxin) as [Hxpre _].
    apply focus_takes; [exact Hnd | exact Hxpre |].
    unfold takeFocus in Hfocus. rewrite List.Forall_forall in Hfocus. apply Hfocus, Hxin.
  - exfalso. apply lookup_ge_None in Hx. unfold nextIndex in Hx.
    assert (0 < length (tabbables (document w) scope)).
    { rewrite HT, length_app. simpl. lia. }
    destruct (shiftKey e); pose proof (Nat.mod_upper_bound) as Hb;
      match type of Hx with _ <= ?a mod ?b => specialize (Hb a b) end; lia.
Qed.

(** *** Focus-out and the animation frame *)

Lemma blurCheck_first scopeRef target w t :
  isElementInAnyScope w (activeElement w) = false ->
  subtree (document w) target = Some t -> hostFocusable (info_of t) = true ->
  blurRecovered scopeRef target (fst (Containment.blurCheck scopeRef target w))
  /\ document (fst (Containment.blurCheck scopeRef target w)) = document w.
Proof.
  intros Hout Ht Hf. unfold Containment.blurCheck. rewrite bind_gets, Hout. cbn [negb].
  rewrite !bind_modify. cbv beta. unfold focus, modify, blurRecovered. cbn.
  rewrite Ht, Hf. cbn. repeat split. apply lookup_insert_eq.
Qed.

Lemma blurCheck_again scopeRef target w t :
  blurRecovered scopeRef target w ->
  subtree (document w) target = Some t -> hostFocusable (info_of t) = true ->
  blurRecovered scopeRef target (fst (Containment.blurCheck scopeRef target w))
  /\ document (fst (Containment.blurCheck scopeRef target w)) = document w.
Proof.
  intros Hrec Ht Hf.
  destruct (isElementInAnyScope w (activeElement w)) eqn:E.
  - destruct (blurCheck_records scopeRef target w) as [Hsame _]. cbn zeta in Hsame.
    rewrite (Hsame E). auto.
  - apply (blurCheck_first _ _ _ t E Ht Hf).
Qed.

Lemma fold_focusout_all scopeRef target ls :
  Forall (fun l => l_handler l = ContainBlur) ls ->
  forall w,
    fold_left (fun w l => invokeFocusout scopeRef target l w) ls w
    = setFrames (frames w ++ repeat (BlurCheck scopeRef target) (length ls)) w.
Proof.
  induction 1 as [|l ls Hl _ IH]; intros w; cbn [fold_left length repeat].
  - rewrite app_nil_r. destruct w; reflexivity.
  - rewrite IH. unfold invokeFocusout. rewrite Hl.
    unfold Containment.onBlur, requestAnimationFrame, modify. cbn [fst].
    change (frames (setFrames (frames w ++ [BlurCheck scopeRef target]) w))
      with (frames w ++ [BlurCheck scopeRef target]).
    rewrite <- app_assoc. reflexivity.
Qed.

Lemma focusoutOrder_listeners d target scope :
  exists onNodes,
    focusoutOrder d target (Containment.listeners true scope) = onNodes
    /\ Forall (fun l => l_handler l = ContainBlur) onNodes
    /\ (isElementInScope d (Some target) scope = true -> onNodes <> []).
Proof.
  eexists. split; [reflexivity|]. unfold focusoutOrder, Containment.listeners. cbn [negb].
  rewrite !List.filter_app.
  cbn [List.filter isFocusout onNodeTarget l_type l_target andb negb app].
  rewrite (filter_map_none _ (fun element => mkListener (OnNode element) focusin ContainFocus false))
    by reflexivity.
  rewrite (filter_map_none (fun l => isFocusout l && negb (onNodeTarget l))) by reflexivity.
  rewrite (filter_map_none (fun l => isFocusout l && negb (onNodeTarget l))) by reflexivity.
  rewrite !app_nil_r. cbn [app]. split.
  - apply List.Forall_forall. intros l Hl. apply List.filter_In in Hl as [Hl _].
    apply in_map_iff in Hl as (x & <- & _). reflexivity.
  - intros Hin Hnil. unfold isElementInScope in Hin.
    apply existsb_exists in Hin as (node & Hnode & Hc).
    assert (Hl : In (mkListener (OnNode node) focusout ContainBlur false)
                    (List.filter (fun l => isFocusout l && onNodeTarget l && hears d target l)
                       (map (fun element => mkListener (OnNode element) focusout ContainBlur false)
                            scope))).
    { apply List.filter_In. split.
      { apply (in_map (fun element => mkListener (OnNode element) focusout ContainBlur false)
                      scope node Hnode). }
      unfold hears. cbn [isFocusout onNodeTarget l_type l_target andb]. exact Hc. }
    rewrite Hnil in Hl. destruct Hl.
Qed.

Lemma run_blurChecks scopeRef target t k :
  forall w,
    blurRecovered scopeRef target w ->
    subtree (document w) target = Some t -> hostFocusable (info_of t) = true ->
    blurRecovered scopeRef target
      (fold_left (fun w cb => fst (runFrame cb w)) (repeat (BlurCheck scopeRef target) k) w).
Proof.
  induction k as [|k IH]; intros w Hrec Ht Hf; cbn [repeat fold_left runFrame]; [exact Hrec|].
  destruct (blurCheck_again _ _ _ t Hrec Ht Hf) as [Hrec' Hd].
  apply IH; [exact Hrec' | rewrite Hd; exact Ht | exact Hf].
Qed.

(** *** The keydown listener of [useRestoreFocus] *)

Lemma setNodeToRestore_same w : setNodeToRestore (nodeToRestore w) w = w.
Proof. destruct w; reflexivity. Qed.

(** What [forgetLostTarget] leaves behind: the same world, or the same
    world without the restore target of the scope. *)
Lemma forgetLostTarget_eq scopeRef w :
  exists w1,
    Restore.forgetLostTarget scopeRef w = (w1, Normal tt)
    /\ (w1 = w \/ w1 = setNodeToRestore (delete scopeRef (nodeToRestore w)) w)
    /\ (forall t, nodeToRestore w1 !! scopeRef = Some t ->
                  nodeToRestore w !! scopeRef = Some t
                  /\ contains (document w) (id_of (document w)) (Some t) = true
                  /\ t <> id_of (document w))
    /\ (nodeToRestore w !! scopeRef = None -> w1 = w).
Proof.
  unfold Restore.forgetLostTarget, modify.
  destruct (nodeToRestore w !! scopeRef) as [t|] eqn:Ht.
  - destruct (contains (document w) (id_of (document w)) (Some t)) eqn:Hc; cbn [negb orb].
    + destruct (bool_decide (Some t = Some (id_of (document w)))) eqn:Hb.
      * eexists. split; [reflexivity|]. split; [right; reflexivity|]. split; [|discriminate].
        intros t'. cbn [nodeToRestore setNodeToRestore]. rewrite lookup_delete_eq. discriminate.
      * eexists. split; [reflexivity|]. split; [left; reflexivity|]. split; [|discriminate].
        intros t' Ht'. rewrite Ht in Ht'. injection Ht' as <-.
        apply bool_decide_eq_false_1 in Hb. repeat split; auto; congruence.
    + eexists. split; [reflexivity|]. split; [right; reflexivity|]. split; [|discriminate].
      intros t'. cbn [nodeToRestore setNodeToRestore]. rewrite lookup_delete_eq. discriminate.
  - cbn [contains negb orb]. eexists. split; [reflexivity|].
    rewrite delete_id by exact Ht. rewrite setNodeToRestore_same.
    split; [left; reflexivity|]. split; [intros t'; rewrite Ht; discriminate|reflexivity].
Qed.

(** The listener up to the test that decides whether it takes the key. *)
Lemma restore_onKeyDown_start scopeRef scope e w c o wk :
  ignoredKey e = false ->
  activeElement w = Some c ->
  isElementInScope (document w) (Some c) scope = true ->
  stepOf (shiftKey e) (tabWalker None (id_of (document w)) c) (document w) = (o, wk) ->
  Restore.onKeyDown scopeRef scope e w
  = bind (Restore.forgetLostTarget scopeRef)
      (fun _ =>
         bind (gets (fun w1 => nodeToRestore w1 !! scopeRef))
           (fun target =>
              bind (gets (fun w1 => isElementInScope (document w1) o scope))
                (fun nextInScope =>
                   if (negb (bool_decide (is_Some o)) || negb nextInScope)
                      && bool_decide (is_Some target)
                   then
                     bind (setCurrentNode wk target)
                       (fun walker =>
                          bind (gets (fun w1 => S (length (preorder (document w1)))))
                            (fun fuel =>
                               bind (Restore.skipScope fuel scope (shiftKey e) walker)
                                 (fun nextElement =>
                                    bind match nextElement with
                                         | Some _ => focusElement nextElement true
                                         | None => bind (deref (Some c)) (fun focused => blur focused)
                                         end
                                      (fun _ => ret (stopPropagation (preventDefault e))))))
                   else ret e))) w.
Proof.
  intros Hkey Hact Hin Hstep.
  unfold Restore.onKeyDown. rewrite Hkey.
  rewrite bind_gets, Hact, bind_gets, Hin. change (negb true) with false. cbv iota.
  rewrite bind_gets.
  rewrite (bind_normal _ _ _ _ _ (getFocusableTreeWalker_eq _ _ _)).
  rewrite (bind_normal _ _ _ _ _ (setCurrentNode_eq _ _ _)).
  change (mkWalker (Walker.root (tabWalker None (id_of (document w)) (id_of (document w))))
                   (acceptNode (tabWalker None (id_of (document w)) (id_of (document w)))) c)
    with (tabWalker None (id_of (document w)) c).
  rewrite (bind_normal _ _ _ _ _ (adjacent_eq _ _ _)). rewrite Hstep. reflexivity.
Qed.

(** *** Where the suffixes of the two [join] calls land *)

Lemma joinWith_snoc suffix l x :
  joinWith suffix (l ++ [x]) = map (withSuffix suffix) l ++ [x].
Proof.
  induction l as [|c l IH]; [reflexivity|].
  cbn [app map]. rewrite <- IH. destruct l; reflexivity.
Qed.

Lemma matchesCompound_withSuffix i suffix c :
  matchesCompound i (withSuffix suffix c)
  = matchesCompound i c && forallb (matchesSimple i) suffix.
Proof.
  unfold matchesCompound, withSuffix. cbn [typeSelector simples].
  rewrite forallb_app, andb_assoc. reflexivity.
Qed.

Lemma existsb_withSuffix i suffix l :
  existsb (matchesCompound i) (map (withSuffix suffix) l)
  = existsb (matchesCompound i) l && forallb (matchesSimple i) suffix.
Proof.
  induction l as [|c l IH]; [reflexivity|].
  cbn [map existsb]. rewrite IH, matchesCompound_withSuffix, andb_orb_distrib_l. reflexivity.
Qed.

Lemma existsb_joinWith i suffix l x :
  existsb (matchesCompound i) (joinWith suffix (l ++ [x]))
  = existsb (matchesCompound i) l && forallb (matchesSimple i) suffix || matchesCompound i x.
Proof.
  rewrite joinWith_snoc, existsb_app, existsb_withSuffix. cbn [existsb].
  rewrite orb_false_r. reflexivity.
Qed.

Lemma FOCUSABLE_matches i :
  matches i FOCUSABLE_ELEMENT_SELECTOR
  = isElement i
    && (existsb (matchesCompound i) taggedElements && negb (hasAttribute i "hidden")
        || editable i
        || hasAttribute i "tabindex" && negb (hasAttribute i "disabled")
           && negb (hasAttribute i "hidden")).
Proof.
  unfold matches, FOCUSABLE_ELEMENT_SELECTOR. f_equal.
  rewrite existsb_app.
  change focusableElements with (taggedElements ++ [untagged [Attr "contenteditable"]]).
  rewrite existsb_joinWith.
  cbn [forallb existsb matchesCompound untagged typeSelector simples matchesSimple andb orb].
  unfold editable. rewrite !andb_true_r, !orb_false_r, ?andb_assoc. reflexivity.
Qed.

Lemma TABBABLE_matches i :
  matches i TABBABLE_ELEMENT_SELECTOR
  = isElement i
    && ((existsb (matchesCompound i) taggedElements || editable i)
          && negb (hasAttribute i "hidden") && negb (tabIndexMinusOne i)
        || hasAttribute i "tabindex" && negb (tabIndexMinusOne i)
           && negb (hasAttribute i "disabled")).
Proof.
  unfold matches, TABBABLE_ELEMENT_SELECTOR. f_equal.
  rewrite existsb_joinWith.
  change focusableElements with (taggedElements ++ [untagged [Attr "contenteditable"]]).
  rewrite existsb_app.
  cbn [forallb existsb matchesCompound untagged typeSelector simples andb orb].
  cbn [matchesSimple]. unfold editable, tabIndexMinusOne. cbn [matchesSimple].
  rewrite !andb_true_r, !orb_false_r, ?andb_assoc. reflexivity.
Qed.

(** *** Mounting *)

Lemma focus_rest n ps w :
  document (fst (focus n ps w)) = document w
  /\ nodeToRestore (fst (focus n ps w)) = nodeToRestore w
  /\ frames (fst (focus n ps w)) = frames w
  /\ activeScope (fst (focus n ps w)) = activeScope w.
Proof.
  unfold focus, modify. cbn [fst].
  destruct (subtree (document (logCall (CallFocus n ps) w)) n) as [t|];
    [destruct (hostFocusable (info_of t))|]; auto.
Qed.

Lemma auto_focus_run w scopeRef startRef endRef first rest :
  Mounted (document w) startRef endRef (currentOf w scopeRef) ->
  isElementInScope (document w) (activeElement w) (currentOf w scopeRef) = false ->
  tabbables (document w) (currentOf w scopeRef) = first :: rest ->
  useAutoFocus scopeRef true None w
  = (fst (focus (nodeId first) true (setActiveScope (Some scopeRef) w)), Normal tt).
Proof.
  intros Hm Hout HT.
  destruct (mounted_shape _ _ _ _ Hm) as (ctx & P & pre & S & mid & E & post & Hs).
  assert (Hfirst : In first (tabbables (document w) (currentOf w scopeRef))).
  { rewrite HT. left. reflexivity. }
  destruct (tabbables_in _ _ _ Hfirst) as [Hpre Htab].
  assert (Hne : mid <> []).
  { intros ->. apply (tabbable_in_mid Hs) in Htab. destruct Htab. }
  set (w1 := setActiveScope (Some scopeRef) w).
  unfold useAutoFocus. cbn [andb negb bool_decide].
  change (bool_decide (is_Some (@None (option NodeId)))) with false. cbn [negb].
  unfold bind at 1. unfold bind at 1. unfold modify at 1. fold w1.
  rewrite bind_gets. change (document w1) with (document w).
  change (activeElement w1) with (activeElement w).
  change (currentOf w1 scopeRef) with (currentOf w scopeRef).
  rewrite Hout. cbn [negb]. rewrite bind_gets.
  change (currentOf w1 scopeRef) with (currentOf w scopeRef).
  rewrite (focusFirstInScope_shaped w1 _ _ _ _ _ _ _ _ _ _ Hs Hne).
  change (document w1) with (document w). rewrite HT. reflexivity.
Qed.


End LifecycleFacts.

(** ** Further properties of the component *)

Module Behaviour.
Import DOM Selector Walker Host FocusScope Spec Lifecycle.
Import DOMFacts WalkerFacts ScopeFacts ContainmentFacts FocusEventFacts RestoreFacts Properties.
Import LifecycleFacts.

(** X1.  What [FocusScope] renders is what its layout effect measures: with the
    fragment [<span hidden/>, children, <span hidden/>] side by side under an
    element of a document whose nodes are distinct, the loop from
    [startRef.current.nextSibling] to [endRef.current] collects exactly the
    roots of the children, in order; the two markers are not in the scope and
    no walker of [getFocusableTreeWalker] ever accepts them. *)
Theorem render_measured d ctx P pre post startMarker endMarker children :
  d = plug ctx (Node P (pre ++ render startMarker endMarker children ++ post)) ->
  List.NoDup (ids d) ->
  isElement P = true ->
  isMarker startMarker = true ->
  isMarker endMarker = true ->
  collectScope d (nodeId startMarker) (nodeId endMarker) = map id_of children
  /\ Mounted d (nodeId startMarker) (nodeId endMarker) (map id_of children)
  /\ (forall opts scope,
        isAccept (acceptNodeOf opts scope d startMarker) = false
        /\ isAccept (acceptNodeOf opts scope d endMarker) = false).
Proof.
  intros Hd Hnd HP Hs He.
  set (S := Node startMarker []). set (E := Node endMarker []).
  assert (Hplug : d = plug (mkFrame P pre (children ++ E :: post) :: ctx) S).
  { rewrite Hd. unfold render. cbn [plug f_parent f_left f_right]. fold S E.
    cbn [app]. rewrite <- app_assoc. reflexivity. }
  assert (Hloc : locate (nodeId startMarker) d
                 = Some (mkFrame P pre (children ++ E :: post) :: ctx, S)).
  { rewrite Hplug in Hnd |- *. apply (locate_plug _ S Hnd). }
  assert (Hroots : List.NoDup (map id_of (children ++ E :: post))).
  { rewrite Hplug in Hnd. cbn [plug f_parent f_left f_right] in Hnd.
    apply NoDup_ids_plug in Hnd. rewrite ids_unfold in Hnd.
    inversion Hnd as [|? ? _ Hnd']; subst.
    rewrite preorder_forest_app, preorder_forest_cons, !map_app in Hnd'.
    apply NoDup_app_inv in Hnd' as (_ & Hnd' & _).
    apply NoDup_app_inv in Hnd' as (_ & Hnd' & _). apply NoDup_roots, Hnd'. }
  assert (Hcollect : collectScope d (nodeId startMarker) (nodeId endMarker) = map id_of children).
  { unfold collectScope, siblingsAfter. rewrite Hloc. cbn [f_right].
    apply collectLoop_app; [|reflexivity].
    intros c Hc Heq. rewrite map_app in Hroots.
    apply NoDup_app_inv in Hroots as (_ & _ & Hdis).
    apply (Hdis (id_of c)); [apply in_map, Hc | left; symmetry; exact Heq]. }
  split; [exact Hcollect|]. split.
  - constructor; [exact Hnd| |symmetry; exact Hcollect].
    unfold sentinels. rewrite Hloc. cbn [f_parent f_right info_of S].
    rewrite HP, (isMarker_element _ Hs). cbn [andb].
    apply existsb_exists. exists E. split; [apply in_or_app; right; left; reflexivity|].
    cbn. rewrite Nat.eqb_refl, (isMarker_element _ He). reflexivity.
  - intros opts scope. split; apply hidden_never_accepted, isMarker_hidden; assumption.
Qed.

Lemma render_measured_witness :
  collectScope Sample.page 2 6 = [3; 4; 5].
Proof.
  destruct (render_measured Sample.page [] (Sample.element 0 "BODY" "body" [])
              [Sample.button 1] [Sample.button 7]
              (Sample.element 2 "SPAN" "span" [("hidden", "")])
              (Sample.element 6 "SPAN" "span" [("hidden", "")])
              [Sample.input 3; Sample.input 4; Sample.input 5]) as (Hcollect & _).
  - reflexivity.
  - apply page_mounted.
  - reflexivity.
  - reflexivity.
  - reflexivity.
  - exact Hcollect.
Defined.

(** X2.  The layout effect of [FocusScope] and its cleanup: after the effect the
    ref is in [scopes], [scopeRef.current] is the measured list, and every
    element inside a measured node is inside some scope for
    [isElementInAnyScope]; after the cleanup the ref is out of [scopes], and
    if it was not registered before, [scopes] and the answers of
    [isElementInAnyScope] are what they were before the effect ran. *)
Theorem register_unregister w scopeRef startRef endRef :
  let w1 := fst (FocusScope_layoutEffect scopeRef startRef endRef w) in
  let w2 := fst (FocusScope_layoutCleanup scopeRef w1) in
  (scopeRef ∈ scopes w1)
  /\ currentOf w1 scopeRef = collectScope (document w) startRef endRef
  /\ (forall x, isElementInScope (document w) x (collectScope (document w) startRef endRef) = true ->
                isElementInAnyScope w1 x = true)
  /\ (scopeRef ∉ scopes w2)
  /\ (scopeRef ∉ scopes w ->
      scopes w2 = scopes w /\ forall x, isElementInAnyScope w2 x = isElementInAnyScope w x).
Proof.
  intros w1 w2.
  assert (Hs1 : scopes w1 = {[scopeRef]} ∪ scopes w) by reflexivity.
  assert (Hc1 : current w1 = <[scopeRef := collectScope (document w) startRef endRef]> (current w))
    by reflexivity.
  assert (Hs2 : scopes w2 = scopes w1 ∖ {[scopeRef]}) by reflexivity.
  assert (Hcur : currentOf w1 scopeRef = collectScope (document w) startRef endRef).
  { unfold currentOf. rewrite Hc1, lookup_insert_eq. reflexivity. }
  assert (Hin1 : scopeRef ∈ scopes w1).
  { rewrite Hs1. apply elem_of_union. left. apply elem_of_singleton. reflexivity. }
  split; [exact Hin1|]. split; [exact Hcur|]. split.
  { intros x Hx. apply isElementInAnyScope_iff. exists scopeRef.
    split; [exact Hin1|]. rewrite Hcur. exact Hx. }
  split.
  { rewrite Hs2. intros H. apply elem_of_difference in H as [_ H].
    apply H, elem_of_singleton. reflexivity. }
  intros Hfresh.
  assert (Hsame : scopes w2 = scopes w).
  { rewrite Hs2, Hs1. apply leibniz_equiv. intros r.
    rewrite elem_of_difference, elem_of_union, !elem_of_singleton. split.
    - intros [[->|Hr] Hne]; [contradiction | exact Hr].
    - intros Hr. split; [right; exact Hr | intros ->; contradiction]. }
  split; [exact Hsame|]. intros x.
  destruct (isElementInAnyScope w x) eqn:E.
  - apply isElementInAnyScope_iff in E as (r & Hr & Hx). apply isElementInAnyScope_iff.
    exists r. split; [rewrite Hsame; exact Hr|].
    assert (r <> scopeRef) by (intros ->; contradiction).
    change (document w2) with (document w). unfold currentOf in *.
    change (current w2) with (current w1). rewrite Hc1, lookup_insert_ne by congruence. exact Hx.
  - destruct (isElementInAnyScope w2 x) eqn:E2; [|reflexivity].
    apply isElementInAnyScope_iff in E2 as (r & Hr & Hx).
    rewrite Hsame in Hr. assert (r <> scopeRef) by (intros ->; contradiction).
    assert (isElementInAnyScope w x = true); [|congruence].
    apply isElementInAnyScope_iff. exists r. split; [exact Hr|].
    change (document w2) with (document w) in Hx. unfold currentOf in *.
    change (current w2) with (current w1) in Hx.
    rewrite Hc1, lookup_insert_ne in Hx by congruence. exact Hx.
Qed.

Lemma register_unregister_witness :
  scopes (fst (FocusScope_layoutCleanup 9 (Sample.mountedPage (Some 1))))
  = scopes (Sample.world Sample.page (Some 1)).
Proof.
  pose proof (register_unregister (Sample.world Sample.page (Some 1)) 9 2 6) as H.
  cbn zeta in H. destruct H as (_ & _ & _ & _ & H).
  apply H. apply not_elem_of_empty.
Defined.





(** X5.  Whatever the [acceptNode] callback accepts with [{ tabbable: true }] it
    accepts without it, for the same [from] and scope: on visible elements the
    tabbable selector is the stricter one. *)
Theorem tabbable_accept_focusable f scope d node :
  acceptNodeOf (mkOpts f true) scope d node = FILTER_ACCEPT ->
  acceptNodeOf (mkOpts f false) scope d node = FILTER_ACCEPT.
Proof.
  unfold acceptNodeOf. cbn [tabbable from].
  destruct (match f with Some f0 => contains d f0 (Some (nodeId node)) | None => false end);
    [discriminate|].
  destruct (isElementVisible d node None) eqn:Hv; [|rewrite !andb_false_r; discriminate].
  assert (Hh : hasAttribute node "hidden" = false).
  { destruct (hasAttribute node "hidden") eqn:Hh; [|reflexivity].
    rewrite (hidden_not_visible d node None Hh) in Hv. discriminate. }
  destruct (matches node TABBABLE_ELEMENT_SELECTOR) eqn:Ht; [|discriminate].
  assert (Hf : matches node FOCUSABLE_ELEMENT_SELECTOR = true).
  { rewrite TABBABLE_matches in Ht. rewrite FOCUSABLE_matches. rewrite Hh in *.
    destruct (isElement node); [|discriminate]. cbn [andb negb] in *.
    rewrite !andb_true_r in *.
    destruct (existsb (matchesCompound node) taggedElements); [reflexivity|].
    destruct (editable node); [reflexivity|]. cbn [orb andb] in *.
    destruct (hasAttribute node "tabindex"); [|discriminate].
    destruct (hasAttribute node "disabled"); [rewrite andb_false_r in Ht; discriminate|].
    reflexivity. }
  rewrite Hf. auto.
Qed.

Lemma tabbable_accept_focusable_witness :
  acceptNodeOf (mkOpts None false) (Some Sample.pageScope) Sample.page (Sample.pageInput 4)
  = FILTER_ACCEPT.
Proof.
  apply (tabbable_accept_focusable None (Some Sample.pageScope) Sample.page (Sample.pageInput 4)).
  reflexivity.
Defined.

(** X6.  An element with [tabindex='-1'] never matches
    [TABBABLE_ELEMENT_SELECTOR]; when it is not hidden it matches
    [FOCUSABLE_ELEMENT_SELECTOR] if it is one of the listed elements, is
    [contenteditable], or is not disabled. *)
Theorem minus_one_focusable_not_tabbable i :
  getAttribute i "tabindex" = Some "-1" ->
  matches i TABBABLE_ELEMENT_SELECTOR = false
  /\ (hasAttribute i "hidden" = false ->
      matches i FOCUSABLE_ELEMENT_SELECTOR
      = isElement i && (existsb (matchesCompound i) taggedElements || editable i
                        || negb (hasAttribute i "disabled"))).
Proof.
  intros Ht.
  assert (Hm : tabIndexMinusOne i = true).
  { unfold tabIndexMinusOne. cbn [matchesSimple]. rewrite Ht. reflexivity. }
  assert (Hti : hasAttribute i "tabindex" = true) by (unfold hasAttribute; rewrite Ht; reflexivity).
  split.
  - rewrite TABBABLE_matches, Hm. cbn [negb]. rewrite !andb_false_r. reflexivity.
  - intros Hh. rewrite FOCUSABLE_matches, Hh, Hti. cbn [negb andb]. rewrite !andb_true_r.
    reflexivity.
Qed.

Lemma minus_one_focusable_not_tabbable_witness :
  matches (Sample.element 9 "DIV" "div" [("tabindex", "-1")]) TABBABLE_ELEMENT_SELECTOR = false.
Proof.
  apply (minus_one_focusable_not_tabbable (Sample.element 9 "DIV" "div" [("tabindex", "-1")])).
  reflexivity.
Defined.

(** X7.  [Array.join] puts the [:not([hidden])] suffix between the entries, so the
    last entry of each selector goes without it: an element with the [hidden]
    attribute matches [FOCUSABLE_ELEMENT_SELECTOR] exactly when it has
    [contenteditable], and [TABBABLE_ELEMENT_SELECTOR] exactly when it has a
    [tabindex] other than -1 and is not disabled. *)
Theorem hidden_selector_gap i :
  hasAttribute i "hidden" = true ->
  matches i FOCUSABLE_ELEMENT_SELECTOR = isElement i && editable i
  /\ matches i TABBABLE_ELEMENT_SELECTOR
     = isElement i && (hasAttribute i "tabindex" && negb (tabIndexMinusOne i)
                       && negb (hasAttribute i "disabled")).
Proof.
  intros Hh. rewrite FOCUSABLE_matches, TABBABLE_matches, Hh. cbn [negb].
  rewrite !andb_false_r. cbn [andb orb]. rewrite orb_false_r. split; reflexivity.
Qed.

Lemma hidden_selector_gap_witness :
  matches (Sample.element 5 "DIV" "div" [("hidden", ""); ("tabindex", "0")])
          FOCUSABLE_ELEMENT_SELECTOR = false
  /\ matches (Sample.element 5 "DIV" "div" [("hidden", ""); ("tabindex", "0")])
             TABBABLE_ELEMENT_SELECTOR = true.
Proof.
  apply (hidden_selector_gap (Sample.element 5 "DIV" "div" [("hidden", ""); ("tabindex", "0")])).
  reflexivity.
Defined.

(** X8.  A disabled [input], [select], [textarea] or [button] matches the two
    selectors through [contenteditable] only: never without that attribute,
    and never through its [tabindex]. *)
Theorem disabled_control_unmatched i :
  In (localName i) ["input"; "select"; "textarea"; "button"] ->
  hasAttribute i "disabled" = true ->
  matches i FOCUSABLE_ELEMENT_SELECTOR = isElement i && editable i
  /\ matches i TABBABLE_ELEMENT_SELECTOR
     = isElement i && editable i && negb (hasAttribute i "hidden") && negb (tabIndexMinusOne i).
Proof.
  intros Hname Hd.
  assert (Htag : existsb (matchesCompound i) taggedElements = false).
  { unfold taggedElements. cbn [removelast focusableElements existsb matchesCompound tagged
                                 typeSelector simples forallb matchesSimple].
    unfold matchesCompound, tagged. cbn [typeSelector simples forallb matchesSimple].
    rewrite Hd. cbn [negb andb]. rewrite !andb_false_r.
    cbn in Hname. destruct Hname as [<- | [<- | [<- | [<- | []]]]]; reflexivity. }
  rewrite FOCUSABLE_matches, TABBABLE_matches, Htag, Hd. cbn [negb andb orb].
  rewrite !andb_false_r, !orb_false_r. rewrite <- !andb_assoc. split; reflexivity.
Qed.

Lemma disabled_control_unmatched_witness :
  matches (Sample.element 10 "INPUT" "input" [("disabled", ""); ("tabindex", "0")])
          FOCUSABLE_ELEMENT_SELECTOR = false
  /\ matches (Sample.element 10 "INPUT" "input" [("disabled", ""); ("tabindex", "0")])
             TABBABLE_ELEMENT_SELECTOR = false.
Proof.
  apply (disabled_control_unmatched
           (Sample.element 10 "INPUT" "input" [("disabled", ""); ("tabindex", "0")])).
  - left. reflexivity.
  - reflexivity.
Defined.

(** X9.  The keydown listener of [useFocusContainment], for every scope, event and
    state: it leaves the document alone, and focus either stays where it was
    or lands on an element inside the scope, and the host is asked for focus
    at most once, on an element inside the scope.  The listener never moves
    focus out. *)
Theorem containment_keeps_focus_inside scope e w :
  let w' := fst (Containment.onKeyDown scope e w) in
  document w' = document w
  /\ (activeElement w' = activeElement w
      \/ isElementInScope (document w) (activeElement w') scope = true)
  /\ (calls w' = calls w
      \/ exists n, calls w' = calls w ++ [CallFocus n false]
                   /\ isElementInScope (document w) (Some n) scope = true).
Proof.
  cbn zeta. destruct (onKeyDown_stays scope e w) as [Hd Ha]. cbn zeta in Hd, Ha.
  split; [exact Hd|]. split; [exact Ha|].
  destruct (onKeyDown_target scope e w) as (target & -> & Htarget).
  destruct target as [n|]; [|left; reflexivity].
  right. exists n. split; [apply focus_calls|].
  destruct Htarget as [Hnone | Hin]; [discriminate | exact Hin].
Qed.

(** X10.  Two scopes with no element in common, both listening on the document:
    when focus is inside the first, the listener of the second does nothing,
    in either order of registration, and focus stays inside the first. *)
Theorem sibling_scopes_independent A B e w :
  (forall x, isElementInScope (document w) x A = true ->
             isElementInScope (document w) x B = false) ->
  isElementInScope (document w) (activeElement w) A = true ->
  deliverKeydown [A; B] e w = deliverKeydown [A] e w
  /\ deliverKeydown [B; A] e w = deliverKeydown [A] e w
  /\ isElementInScope (document w) (activeElement (fst (deliverKeydown [A; B] e w))) A = true.
Proof.
  intros Hdisjoint Hin. unfold deliverKeydown. cbn [fold_left fst snd].
  destruct (onKeyDown_stays A e w) as [Hd Ha].
  assert (HinA : isElementInScope (document w)
                   (activeElement (fst (Containment.onKeyDown A e w))) A = true).
  { destruct Ha as [Ha|Ha]; [rewrite Ha; exact Hin | exact Ha]. }
  assert (Hafter : forall e', Containment.onKeyDown B e' (fst (Containment.onKeyDown A e w))
                              = (fst (Containment.onKeyDown A e w), Normal e')).
  { intros e'. apply keydown_elsewhere. rewrite Hd. apply Hdisjoint, HinA. }
  split; [|split].
  - destruct (Containment.onKeyDown A e w) as [w' [e'|ex]]; cbn [fst snd] in *;
      rewrite Hafter; reflexivity.
  - rewrite (keydown_elsewhere B e w (Hdisjoint _ Hin)). reflexivity.
  - destruct (Containment.onKeyDown A e w) as [w' [e'|ex]]; cbn [fst snd] in *;
      rewrite Hafter; exact HinA.
Qed.

Lemma sibling_scopes_independent_witness :
  deliverKeydown [[3]; [6]] Sample.Tab Sample.twoScopesMounted
  = deliverKeydown [[3]] Sample.Tab Sample.twoScopesMounted
  /\ deliverKeydown [[6]; [3]] Sample.Tab Sample.twoScopesMounted
     = deliverKeydown [[3]] Sample.Tab Sample.twoScopesMounted
  /\ isElementInScope (document Sample.twoScopesMounted)
       (activeElement (fst (deliverKeydown [[3]; [6]] Sample.Tab Sample.twoScopesMounted))) [3]
     = true.
Proof.
  apply (sibling_scopes_independent [3] [6] Sample.Tab Sample.twoScopesMounted).
  - intros [x|] Hx; [|reflexivity].
    pose proof (inScope_attached _ _ _ Hx) as Hin. cbn in Hin.
    destruct Hin as [<- | [<- | [<- | [<- | [<- | [<- | [<- | []]]]]]]];
      first [reflexivity | discriminate Hx].
  - reflexivity.
Defined.

(** X11.  Two scopes that both contain the focused element, each with its keydown
    listener on the document (a scope nested in another one): the
    [preventDefault] of the first listener does not keep the second from
    running, and the second starts from where the first put focus.  One Tab
    moves focus one step in the first scope and then one more step in the
    second. *)
Theorem overlapping_scopes_double_step w sA eA A sB eB B e i j ci cj :
  Mounted (document w) sA eA A ->
  Mounted (document w) sB eB B ->
  takeFocus (tabbables (document w) A) ->
  takeFocus (tabbables (document w) B) ->
  ignoredKey e = false ->
  tabbables (document w) A !! i = Some ci ->
  activeElement w = Some (nodeId ci) ->
  tabbables (document w) A !! nextIndex (length (tabbables (document w) A)) (shiftKey e) i = Some cj ->
  tabbables (document w) B !! j = Some cj ->
  activeElement (fst (deliverKeydown [A; B] e w))
  = nodeId <$> tabbables (document w) B
                 !! nextIndex (length (tabbables (document w) B)) (shiftKey e) j
  /\ snd (deliverKeydown [A; B] e w) = preventDefault e.
Proof.
  intros HmA HmB HfA HfB Hkey Hi Hact Hnext Hj.
  destruct (keydown_step w sA eA A e i ci HmA HfA Hkey Hi Hact) as (w1 & Hrun1 & Hd1 & Ha1).
  rewrite Hnext in Ha1. cbn [fmap option_fmap option_map] in Ha1.
  rewrite <- Hd1 in HmB, HfB, Hj.
  destruct (keydown_step w1 sB eB B (preventDefault e) j cj HmB HfB Hkey Hj Ha1)
    as (w2 & Hrun2 & Hd2 & Ha2).
  unfold deliverKeydown. cbn [fold_left fst snd]. rewrite Hrun1. cbn [fst snd].
  rewrite Hrun2. cbn [fst snd]. rewrite Ha2, Hd1. split; reflexivity.
Qed.

Lemma overlapping_scopes_double_step_witness :
  activeElement (fst (deliverKeydown [[5; 6; 7]; [2; 3; 9]] Sample.Tab
                                     (Sample.world nestedScopes (Some 6))))
  = Some 9.
Proof.
  destruct (overlapping_scopes_double_step (Sample.world nestedScopes (Some 6))
              4 8 [5; 6; 7] 1 10 [2; 3; 9] Sample.Tab 1 3
              (Sample.pageInput 6) (Sample.pageInput 7)) as [H _].
  - constructor; [vm_compute; repeat constructor; simpl; lia | reflexivity | reflexivity].
  - constructor; [vm_compute; repeat constructor; simpl; lia | reflexivity | reflexivity].
  - repeat constructor.
  - repeat constructor.
  - reflexivity.
  - reflexivity.
  - reflexivity.
  - reflexivity.
  - reflexivity.
  - exact H.
Defined.

(** X12.  The focus-in listener, for a target inside no registered scope: focus is
    sent back to the node the scope remembered; failing that, to the first
    tabbable element of the active scope; and with neither, nothing happens. *)
Theorem focus_recovery w scopeRef target :
  isElementInAnyScope w (Some target) = false ->
  (forall node t,
     focusedNode w !! scopeRef = Some node ->
     subtree (document w) node = Some t -> hostFocusable (info_of t) = true ->
     exists w', Containment.onFocus scopeRef target w = (w', Normal tt)
                /\ activeElement w' = Some node
                /\ calls w' = calls w ++ [CallFocus node false])
  /\ (forall active startRef endRef first rest,
        focusedNode w !! scopeRef = None ->
        activeScope w = Some active ->
        Mounted (document w) startRef endRef (currentOf w active) ->
        tabbables (document w) (currentOf w active) = first :: rest ->
        hostFocusable first = true ->
        exists w', Containment.onFocus scopeRef target w = (w', Normal tt)
                   /\ activeElement w' = Some (nodeId first))
  /\ (focusedNode w !! scopeRef = None -> activeScope w = None ->
      Containment.onFocus scopeRef target w = (w, Normal tt)).
Proof.
  intros Hout. split; [|split].
  - intros node t Hnode Ht Hf. unfold Containment.onFocus.
    rewrite bind_gets, Hout. cbn [negb]. rewrite bind_gets, Hnode.
    eexists. split; [reflexivity|]. unfold focus, modify. cbn. rewrite Ht, Hf. cbn. auto.
  - intros active startRef endRef first rest Hnode Hact Hm HT Hf.
    destruct (mounted_shape _ _ _ _ Hm) as (ctx & P & pre & S & mid & E & post & Hs).
    assert (Hfirst : In first (tabbables (document w) (currentOf w active))).
    { rewrite HT. left. reflexivity. }
    destruct (tabbables_in _ _ _ Hfirst) as [Hpre Htab].
    assert (Hne : mid <> []).
    { intros ->. apply (tabbable_in_mid Hs) in Htab. destruct Htab. }
    unfold Containment.onFocus.
    rewrite bind_gets, Hout. cbn [negb]. rewrite bind_gets, Hnode, bind_gets, Hact, bind_gets.
    rewrite (focusFirstInScope_shaped w _ _ _ _ _ _ _ _ _ _ Hs Hne), HT.
    eexists. split; [reflexivity|].
    apply (focus_takes w first false); [apply Hm | exact Hpre | exact Hf].
  - intros Hnode Hact. unfold Containment.onFocus.
    rewrite bind_gets, Hout. cbn [negb]. rewrite bind_gets, Hnode, bind_gets, Hact. reflexivity.
Qed.

Lemma focus_recovery_witness :
  exists w',
    Containment.onFocus 9 1 (setFocusedNode {[9 := 4]} (Sample.mountedPage (Some 1))) = (w', Normal tt)
    /\ activeElement w' = Some 4
    /\ calls w' = calls (setFocusedNode {[9 := 4]} (Sample.mountedPage (Some 1)))
                  ++ [CallFocus 4 false].
Proof.
  destruct (focus_recovery (setFocusedNode {[9 := 4]} (Sample.mountedPage (Some 1))) 9 1)
    as (Hremembered & _).
  - reflexivity.
  - apply (Hremembered 4 (Sample.input 4)); reflexivity.
Defined.

(** X13.  The focus-in listener with a target inside no scope, no remembered node,
    and an active scope whose node list is empty: [focusFirstInScope] reads
    [scope[0].previousElementSibling], and the listener throws a [TypeError]
    without having changed anything. *)
Theorem focus_recovery_empty_scope_throws w scopeRef target active :
  isElementInAnyScope w (Some target) = false ->
  focusedNode w !! scopeRef = None ->
  activeScope w = Some active ->
  currentOf w active = [] ->
  Containment.onFocus scopeRef target w = (w, Throw TypeError).
Proof.
  intros Hout Hnode Hact Hempty. unfold Containment.onFocus.
  rewrite bind_gets, Hout. cbn [negb]. rewrite bind_gets, Hnode, bind_gets, Hact, bind_gets, Hempty.
  reflexivity.
Qed.

Lemma focus_recovery_empty_scope_throws_witness :
  Containment.onFocus 9 1 (setActiveScope (Some 9) Sample.mountedEmptyPage)
  = (setActiveScope (Some 9) Sample.mountedEmptyPage, Throw TypeError).
Proof.
  apply (focus_recovery_empty_scope_throws (setActiveScope (Some 9) Sample.mountedEmptyPage) 9 1 9);
    reflexivity.
Defined.

(** X14.  A focus-out inside the scope followed by the animation frame: if focus is
    then inside no registered scope, it is put back on the element that lost
    it, the scope becomes the active scope and remembers that element,
    however many nodes of the scope heard the event. *)
Theorem blur_recovery w scopeRef scope target a' t :
  frames w = [] ->
  isElementInScope (document w) (Some target) scope = true ->
  isElementInAnyScope w a' = false ->
  subtree (document w) target = Some t ->
  hostFocusable (info_of t) = true ->
  let final := blurThenFrame scopeRef scope target a' w in
  activeElement final = Some target
  /\ activeScope final = Some scopeRef
  /\ focusedNode final !! scopeRef = Some target.
Proof.
  intros Hfr Hin Hout Ht Hf final. subst final. unfold blurThenFrame, dispatchFocusout.
  destruct (focusoutOrder_listeners (document w) target scope) as (onNodes & -> & Hall & Hne).
  rewrite (fold_focusout_all _ _ _ Hall), Hfr. cbn [app].
  destruct onNodes as [|l0 onNodes]; [exfalso; apply (Hne Hin); reflexivity|].
  cbn [length repeat]. unfold runFrames.
  set (cb := BlurCheck scopeRef target).
  set (w0 := setFrames [] (setActiveElement a' (setFrames (cb :: repeat cb (length onNodes)) w))).
  change (frames (setActiveElement a' (setFrames (cb :: repeat cb (length onNodes)) w)))
    with (cb :: repeat cb (length onNodes)).
  cbn [fold_left]. subst cb. cbn [runFrame].
  assert (Hout0 : isElementInAnyScope w0 (activeElement w0) = false) by exact Hout.
  destruct (blurCheck_first scopeRef target w0 t Hout0 Ht Hf) as [Hrec Hd].
  apply (run_blurChecks scopeRef target t); [exact Hrec | rewrite Hd; exact Ht | exact Hf].
Qed.

Lemma blur_recovery_witness :
  activeElement (blurThenFrame 9 Sample.pageScope 4 (Some 0) (Sample.mountedPage (Some 4))) = Some 4
  /\ activeScope (blurThenFrame 9 Sample.pageScope 4 (Some 0) (Sample.mountedPage (Some 4))) = Some 9
  /\ focusedNode (blurThenFrame 9 Sample.pageScope 4 (Some 0) (Sample.mountedPage (Some 4))) !! 9
     = Some 4.
Proof.
  apply (blur_recovery (Sample.mountedPage (Some 4)) 9 Sample.pageScope 4 (Some 0) (Sample.input 4));
    reflexivity.
Defined.


(** X16.  The keydown listener of [useRestoreFocus] leaves the event alone, calls
    nothing on the host and at most forgets its restore target, unless an
    unmodified Tab arrives with focus inside the scope, the next tabbable
    element of the document is missing or outside the scope, and the restore
    target is in the document and is not the body. *)
Theorem restore_only_at_edge w scopeRef scope e :
  List.NoDup (ids (document w)) ->
  ignoredKey e = true
  \/ isElementInScope (document w) (activeElement w) scope = false
  \/ (exists c, activeElement w = Some c
                /\ isElementInScope (document w) (plainTarget (document w) (shiftKey e) c) scope = true)
  \/ nodeToRestore w !! scopeRef = None
  \/ (exists t, nodeToRestore w !! scopeRef = Some t
                /\ (contains (document w) (id_of (document w)) (Some t) = false
                    \/ t = id_of (document w))) ->
  exists w',
    Restore.onKeyDown scopeRef scope e w = (w', Normal e)
    /\ (w' = w \/ w' = setNodeToRestore (delete scopeRef (nodeToRestore w)) w).
Proof.
  intros Hnd Hcase.
  destruct (ignoredKey e) eqn:Hkey.
  { exists w. unfold Restore.onKeyDown. rewrite Hkey. auto. }
  destruct (isElementInScope (document w) (activeElement w) scope) eqn:Hin.
  2:{ exists w. unfold Restore.onKeyDown. rewrite Hkey, !bind_gets, Hin. auto. }
  destruct (activeElement w) as [c|] eqn:Hact; [|rewrite inScope_none in Hin; discriminate].
  assert (Hc : In c (ids (document w))) by (eapply inScope_attached, Hin).
  pose proof (stepOf_document (document w) (shiftKey e) None c Hnd Hc) as Ho.
  fold (plainTarget (document w) (shiftKey e) c) in Ho.
  destruct (stepOf (shiftKey e) (tabWalker None (id_of (document w)) c) (document w))
    as [o wk] eqn:Hstep.
  cbn [fst] in Ho. subst o.
  rewrite (restore_onKeyDown_start scopeRef scope e w c _ wk Hkey Hact Hin Hstep).
  destruct (forgetLostTarget_eq scopeRef w) as (w1 & Hforget & Hw1 & Hkept & Hnone).
  rewrite (bind_normal _ _ _ _ _ Hforget), !bind_gets.
  assert (Hd : document w1 = document w) by (destruct Hw1 as [-> | ->]; reflexivity).
  exists w1. split; [|exact Hw1].
  destruct Hcase as [H | [H | [(c' & Hc' & H) | [H | (t & Ht & H)]]]]; try discriminate.
  - injection Hc' as <-. rewrite Hd, H.
    destruct (plainTarget (document w) (shiftKey e) c) as [n|] eqn:Hn;
      [|rewrite inScope_none in H; discriminate].
    rewrite (bool_decide_eq_true_2 (is_Some (Some n))) by eauto. reflexivity.
  - rewrite (Hnone H), H.
    rewrite (bool_decide_eq_false_2 (is_Some (@None NodeId))) by (intros [? ?]; discriminate).
    rewrite andb_false_r. reflexivity.
  - destruct (nodeToRestore w1 !! scopeRef) as [t'|] eqn:Ht'.
    + destruct (Hkept t' eq_refl) as (Hsame & Hcont & Hbody).
      rewrite Ht in Hsame. injection Hsame as <-. destruct H; congruence.
    + rewrite (bool_decide_eq_false_2 (is_Some (@None NodeId))) by (intros [? ?]; discriminate).
      rewrite andb_false_r. reflexivity.
Qed.

Lemma restore_only_at_edge_witness :
  exists w',
    Restore.onKeyDown 9 Sample.pageScope Sample.Tab (Sample.mountedPage (Some 3)) = (w', Normal Sample.Tab)
    /\ (w' = Sample.mountedPage (Some 3)
        \/ w' = setNodeToRestore (delete 9 (nodeToRestore (Sample.mountedPage (Some 3))))
                                 (Sample.mountedPage (Some 3))).
Proof.
  apply (restore_only_at_edge (Sample.mountedPage (Some 3)) 9 Sample.pageScope Sample.Tab).
  - apply page_mounted.
  - right. right. left. exists 3. split; reflexivity.
Defined.

(** X17.  A restore target that has left the document, or is the body, when a Tab
    is handled inside the scope is forgotten for good: the listener leaves
    the event and the focus alone, and the unmount that follows asks for no
    focus, whatever the document is by then. *)
Theorem lost_target_forgotten w scopeRef scope e t restoreFocus d' a' :
  frames w = [] ->
  ignoredKey e = false ->
  isElementInScope (document w) (activeElement w) scope = true ->
  nodeToRestore w !! scopeRef = Some t ->
  contains (document w) (id_of (document w)) (Some t) = false \/ t = id_of (document w) ->
  exists w',
    Restore.onKeyDown scopeRef scope e w = (w', Normal e)
    /\ nodeToRestore w' !! scopeRef = None
    /\ calls w' = calls w
    /\ activeElement w' = activeElement w
    /\ unmount scopeRef scope restoreFocus d' a' w'
       = setFrames [] (setActiveElement a' (setDocument d' w')).
Proof.
  intros Hf Hkey Hin Ht Hlost.
  destruct (activeElement w) as [c|] eqn:Hact; [|rewrite inScope_none in Hin; discriminate].
  destruct (stepOf (shiftKey e) (tabWalker None (id_of (document w)) c) (document w))
    as [o wk] eqn:Hstep.
  assert (Hfg : Restore.forgetLostTarget scopeRef w
                = (setNodeToRestore (delete scopeRef (nodeToRestore w)) w, Normal tt)).
  { unfold Restore.forgetLostTarget, modify. rewrite Ht.
    destruct Hlost as [-> | ->]; cbn [negb orb]; [reflexivity|].
    rewrite bool_decide_eq_true_2 by reflexivity. rewrite orb_true_r. reflexivity. }
  exists (setNodeToRestore (delete scopeRef (nodeToRestore w)) w). split.
  { rewrite (restore_onKeyDown_start scopeRef scope e w c o wk Hkey Hact Hin Hstep).
    rewrite (bind_normal _ _ _ _ _ Hfg), !bind_gets.
    cbn [nodeToRestore setNodeToRestore]. rewrite lookup_delete_eq.
    rewrite (bool_decide_eq_false_2 (is_Some (@None NodeId))) by (intros [? ?]; discriminate).
    rewrite andb_false_r. reflexivity. }
  cbn [nodeToRestore setNodeToRestore calls activeElement].
  rewrite lookup_delete_eq. repeat split; [exact Hact|].
  apply unmount_skips; [exact Hf|].
  intros t' (_ & Ht' & _). cbn [nodeToRestore setNodeToRestore] in Ht'.
  rewrite lookup_delete_eq in Ht'. discriminate.
Qed.

Lemma lost_target_forgotten_witness :
  let w := setNodeToRestore {[9 := 42]} (Sample.mountedPage (Some 5)) in
  exists w',
    Restore.onKeyDown 9 Sample.pageScope Sample.Tab w = (w', Normal Sample.Tab)
    /\ nodeToRestore w' !! 9 = None
    /\ calls w' = calls w
    /\ activeElement w' = activeElement w
    /\ unmount 9 Sample.pageScope true (Sample.body [Sample.button 42]) (Some 0) w'
       = setFrames [] (setActiveElement (Some 0) (setDocument (Sample.body [Sample.button 42]) w')).
Proof.
  apply (lost_target_forgotten (setNodeToRestore {[9 := 42]} (Sample.mountedPage (Some 5)))
                               9 Sample.pageScope Sample.Tab 42 true
                               (Sample.body [Sample.button 42]) (Some 0)).
  - reflexivity.
  - reflexivity.
  - reflexivity.
  - reflexivity.
  - left. reflexivity.
Defined.

(** X18.  The [do ... while] loop that looks for the element to hand focus to,
    started anywhere in a document whose nodes are distinct: it ends, changes
    nothing, and answers with a tabbable element of the document ahead of the
    start that is outside the scope, or with nothing. *)
Theorem skipScope_leaves_scope w scope shift cur :
  List.NoDup (ids (document w)) ->
  In cur (ids (document w)) ->
  exists o,
    Restore.skipScope (S (length (preorder (document w)))) scope shift
                      (tabWalker None (id_of (document w)) cur) w
    = (w, Normal o)
    /\ isElementInScope (document w) o scope = false
    /\ (forall n, o = Some n ->
          exists x, In x (ahead (document w) shift cur)
                    /\ nodeId x = n
                    /\ isTabbable (document w) None x = true).
Proof.
  intros Hnd Hcur.
  assert (Hfuel : length (List.filter (isTabbable (document w) None)
                                     (ahead (document w) shift cur))
                  < S (length (preorder (document w)))).
  { pose proof (filter_length_le (isTabbable (document w) None) (ahead (document w) shift cur)).
    pose proof (ahead_length (document w) shift cur). lia. }
  eexists. split; [apply (skipScope_spec w scope shift Hnd _ cur Hcur Hfuel)|].
  destruct (List.filter (handOffCandidate (document w) scope) (ahead (document w) shift cur))
    as [|x F] eqn:Hf; cbn [head fmap option_fmap option_map].
  - split; [apply inScope_none|]. discriminate.
  - assert (Hx : In x (List.filter (handOffCandidate (document w) scope)
                                   (ahead (document w) shift cur)))
      by (rewrite Hf; left; reflexivity).
    apply filter_In in Hx as [Hx Hcand]. unfold handOffCandidate in Hcand.
    apply andb_true_iff in Hcand as [Htab Hout]. apply negb_true_iff in Hout.
    split; [exact Hout|]. intros n [= <-]. exists x. auto.
Qed.

Lemma skipScope_leaves_scope_witness :
  exists o,
    Restore.skipScope (S (length (preorder (document Sample.pageAtLastInput)))) Sample.pageScope false
                      (tabWalker None (id_of (document Sample.pageAtLastInput)) 1)
                      Sample.pageAtLastInput
    = (Sample.pageAtLastInput, Normal o)
    /\ isElementInScope (document Sample.pageAtLastInput) o Sample.pageScope = false
    /\ (forall n, o = Some n ->
          exists x, In x (ahead (document Sample.pageAtLastInput) false 1)
                    /\ nodeId x = n
                    /\ isTabbable (document Sample.pageAtLastInput) None x = true).
Proof.
  apply (skipScope_leaves_scope Sample.pageAtLastInput Sample.pageScope false 1).
  - apply page_mounted.
  - cbn. auto.
Defined.

(** X19.  [useAutoFocus] with focus already inside the scope, or with an
    [initialFocusRef] whose [current] is [null]: the effect returns
    normally and focuses nothing, whatever [autoFocus] is; in the second case
    it does not even set the active scope. *)
Theorem auto_focus_no_steal w scopeRef autoFocus initialFocusRef :
  initialFocusRef = Some None
  \/ isElementInScope (document w) (activeElement w) (currentOf w scopeRef) = true ->
  exists w',
    useAutoFocus scopeRef autoFocus initialFocusRef w = (w', Normal tt)
    /\ (w' = w \/ w' = setActiveScope (Some scopeRef) w)
    /\ (initialFocusRef = Some None -> w' = w).
Proof.
  intros [-> | Hin].
  - exists w. unfold useAutoFocus.
    rewrite (bool_decide_eq_true_2 (is_Some (Some (@None NodeId)))) by eauto.
    rewrite andb_false_r. auto.
  - unfold useAutoFocus. destruct initialFocusRef as [[node|]|].
    + rewrite (bool_decide_eq_true_2 (is_Some (Some (Some node)))) by eauto.
      rewrite andb_false_r. exists (setActiveScope (Some scopeRef) w).
      split; [|split; [auto|discriminate]].
      unfold bind at 1. unfold ret at 1. unfold bind at 1. unfold modify at 1.
      rewrite bind_gets.
      change (isElementInScope (document (setActiveScope (Some scopeRef) w))
                               (activeElement (setActiveScope (Some scopeRef) w))
                               (currentOf (setActiveScope (Some scopeRef) w) scopeRef))
        with (isElementInScope (document w) (activeElement w) (currentOf w scopeRef)).
      rewrite Hin. reflexivity.
    + exists w. rewrite (bool_decide_eq_true_2 (is_Some (Some (@None NodeId)))) by eauto.
      rewrite andb_false_r. auto.
    + rewrite (bool_decide_eq_false_2 (is_Some (@None (option NodeId))))
        by (intros [? ?]; discriminate).
      destruct autoFocus; cbn [andb negb].
      * exists (setActiveScope (Some scopeRef) w). split; [|split; [auto|discriminate]].
        unfold bind at 1. unfold bind at 1. unfold modify at 1.
        rewrite bind_gets.
        change (isElementInScope (document (setActiveScope (Some scopeRef) w))
                                 (activeElement (setActiveScope (Some scopeRef) w))
                                 (currentOf (setActiveScope (Some scopeRef) w) scopeRef))
          with (isElementInScope (document w) (activeElement w) (currentOf w scopeRef)).
        rewrite Hin. reflexivity.
      * exists w. split; [reflexivity|]. split; [auto|discriminate].
Qed.

Lemma auto_focus_no_steal_witness :
  exists w',
    useAutoFocus 9 true None (Sample.mountedPage (Some 4)) = (w', Normal tt)
    /\ (w' = Sample.mountedPage (Some 4) \/ w' = setActiveScope (Some 9) (Sample.mountedPage (Some 4)))
    /\ (@None (option NodeId) = Some None -> w' = Sample.mountedPage (Some 4)).
Proof.
  apply (auto_focus_no_steal (Sample.mountedPage (Some 4)) 9 true None).
  right. reflexivity.
Defined.

(** X20.  Mounting a scope with the default props while focus is on [t] outside
    it, and unmounting it later: the effects run without an exception, focus
    goes to the first tabbable element of the scope, [t] is remembered, and
    when the scope goes away focus comes back to [t], provided [t] is still in
    the document and takes focus. *)
Theorem mount_unmount_round_trip w scopeRef startRef endRef t first rest d' a' n :
  let scope := collectScope (document w) startRef endRef in
  Mounted (document w) startRef endRef scope ->
  frames w = [] ->
  activeElement w = Some t ->
  isElementInScope (document w) (Some t) scope = false ->
  tabbables (document w) scope = first :: rest ->
  hostFocusable first = true ->
  subtree d' t = Some n ->
  hostFocusable (info_of n) = true ->
  exists w1,
    mountEffects scopeRef startRef endRef true None w = (w1, Normal tt)
    /\ activeElement w1 = Some (nodeId first)
    /\ isElementInScope (document w1) (activeElement w1) scope = true
    /\ activeScope w1 = Some scopeRef
    /\ nodeToRestore w1 !! scopeRef = Some t
    /\ activeElement (unmount scopeRef scope true d' a' w1) = Some t.
Proof.
  intros scope Hm Hf Hact Hout HT Hfirst Hn Hfocus.
  set (wA := setScopes ({[scopeRef]} ∪ scopes w)
               (setCurrent (<[scopeRef := scope]> (current w)) w)).
  set (wB := setNodeToRestore (<[scopeRef := t]> (nodeToRestore wA)) wA).
  assert (HcurB : currentOf wB scopeRef = scope).
  { unfold currentOf. cbn [current wB wA setNodeToRestore setScopes setCurrent].
    rewrite lookup_insert_eq. reflexivity. }
  assert (HmB : Mounted (document wB) startRef endRef (currentOf wB scopeRef)).
  { rewrite HcurB. exact Hm. }
  assert (HoutB : isElementInScope (document wB) (activeElement wB) (currentOf wB scopeRef) = false).
  { rewrite HcurB. change (document wB) with (document w).
    change (activeElement wB) with (activeElement w). rewrite Hact. exact Hout. }
  assert (HTB : tabbables (document wB) (currentOf wB scopeRef) = first :: rest).
  { rewrite HcurB. exact HT. }
  pose proof (auto_focus_run wB scopeRef startRef endRef first rest HmB HoutB HTB) as Hauto.
  set (w1 := fst (focus (nodeId first) true (setActiveScope (Some scopeRef) wB))) in *.
  assert (Hrun : mountEffects scopeRef startRef endRef true None w = (w1, Normal tt)).
  { assert (HA : FocusScope_layoutEffect scopeRef startRef endRef w = (wA, Normal tt))
      by reflexivity.
    assert (HB : Restore.capture scopeRef wA = (wB, Normal tt)).
    { unfold Restore.capture, modify. change (activeElement wA) with (activeElement w).
      rewrite Hact. reflexivity. }
    unfold mountEffects.
    rewrite (bind_normal _ _ _ _ _ HA), (bind_normal _ _ _ _ _ HB). exact Hauto. }
  assert (Hin1 : In first (tabbables (document w) scope)) by (rewrite HT; left; reflexivity).
  destruct (tabbables_in _ _ _ Hin1) as [Hpre Htab].
  destruct (focus_rest (nodeId first) true (setActiveScope (Some scopeRef) wB))
    as (Hd1 & Hr1 & Hf1 & Hs1). fold w1 in Hd1, Hr1, Hf1, Hs1.
  assert (Ha1 : activeElement w1 = Some (nodeId first)).
  { destruct (focus_takes (setActiveScope (Some scopeRef) wB) first false) as [_ H];
      [apply Hm | exact Hpre | exact Hfirst | exact H]. }
  assert (Hinside : isElementInScope (document w1) (activeElement w1) scope = true).
  { rewrite Hd1, Ha1. change (document (setActiveScope (Some scopeRef) wB)) with (document w).
    apply isTabbable_inScope, Htab. }
  assert (Hrestore : nodeToRestore w1 !! scopeRef = Some t).
  { rewrite Hr1. cbn [nodeToRestore setActiveScope wB setNodeToRestore].
    apply lookup_insert_eq. }
  exists w1. repeat split; try assumption.
  rewrite (unmount_restores w1 scopeRef scope true d' a' t).
  - apply (focus_active t true _ n); [exact Hn | exact Hfocus].
  - rewrite Hf1. exact Hf.
  - repeat split; try assumption.
    rewrite contains_body. unfold attached. unfold subtree in Hn.
    destruct (locate t d'); [reflexivity | discriminate].
Qed.

Lemma mount_unmount_round_trip_witness :
  exists w1,
    mountEffects 9 2 6 true None (Sample.world Sample.page (Some 1)) = (w1, Normal tt)
    /\ activeElement w1 = Some 3
    /\ isElementInScope (document w1) (activeElement w1) Sample.pageScope = true
    /\ activeScope w1 = Some 9
    /\ nodeToRestore w1 !! 9 = Some 1
    /\ activeElement (unmount 9 Sample.pageScope true Sample.pageAfterUnmount (Some 0) w1) = Some 1.
Proof.
  apply (mount_unmount_round_trip (Sample.world Sample.page (Some 1)) 9 2 6 1
           (Sample.pageInput 3) [Sample.pageInput 4; Sample.pageInput 5]
           Sample.pageAfterUnmount (Some 0) (Sample.button 1)).
  - exact page_mounted.
  - reflexivity.
  - reflexivity.
  - reflexivity.
  - reflexivity.
  - reflexivity.
  - reflexivity.
  - reflexivity.
Defined.

End Behaviour.
